(** * Hound: investigation scheduling engine — verification of the specification

    A shallow embedding of the parts of [llm/pricing.py], [llm/token_tracker.py]
    and [commands/agent.py] that the specification talks about, and the
    theorems that settle each statement of the specification against them.

    Conventions of the embedding:
    - a Python [float] is a primitive binary64 float; arithmetic and
      comparisons are the IEEE ones, so rounding, infinities and NaN behave as
      they do in the interpreter;
    - a Python [int] is a [Z];
    - a Python [str] is a [string]; the case and whitespace functions act on
      the ASCII range;
    - a [dict] used as a map is a [gmap], a [set] is a [gset];
    - an exception is a value of [exn] carried by [result];
    - a [while] loop runs on fuel, and every use comes with the amount of fuel
      that is enough. *)

From Stdlib Require Import ZArith Floats Uint63 Ascii String DecimalString.
From stdpp Require Import base option list gmap strings sorting.

Local Open Scope Z_scope.

(** ** Python primitives *)

Module Py.

(** Exceptions the modelled code can raise. *)
Inductive exn :=
| ZeroDivisionError
| AttributeError
| TypeError
| ValueError
| JSONDecodeError
| OSError
| RuntimeError
| KeyboardInterrupt
| TimeLimitReached.

Inductive result (A : Type) :=
| Ok (a : A)
| Raise (e : exn).
Arguments Ok {A} a.
Arguments Raise {A} e.

Definition bind {A B} (r : result A) (k : A -> result B) : result B :=
  match r with
  | Ok a => k a
  | Raise e => Raise e
  end.

(** [float(z)] for an int of less than 63 bits (the conversion of the
    primitive rounds to nearest, as Python's does). *)
Definition float_of_int (z : Z) : float :=
  match z with
  | Z0 => 0%float
  | Zpos _ => PrimFloat.of_uint63 (Uint63.of_Z z)
  | Zneg p => PrimFloat.opp (PrimFloat.of_uint63 (Uint63.of_Z (Zpos p)))
  end.

(** [a / b] on two ints: true division, [ZeroDivisionError] on [b = 0]. *)
Definition truediv (a b : Z) : result float :=
  if b =? 0 then Raise ZeroDivisionError
  else Ok (PrimFloat.div (float_of_int a) (float_of_int b)).

(** *** Strings *)

Definition is_upper (c : ascii) : bool :=
  let n := nat_of_ascii c in (65 <=? n)%nat && (n <=? 90)%nat.

Definition is_lower (c : ascii) : bool :=
  let n := nat_of_ascii c in (97 <=? n)%nat && (n <=? 122)%nat.

Definition lower_char (c : ascii) : ascii :=
  if is_upper c then ascii_of_nat (nat_of_ascii c + 32) else c.

Definition upper_char (c : ascii) : ascii :=
  if is_lower c then ascii_of_nat (nat_of_ascii c - 32) else c.

(** [s.lower()] *)
Fixpoint lower (s : string) : string :=
  match s with
  | EmptyString => EmptyString
  | String c r => String (lower_char c) (lower r)
  end.

(** [s.capitalize()] *)
Definition capitalize (s : string) : string :=
  match s with
  | EmptyString => EmptyString
  | String c r => String (upper_char c) (lower r)
  end.

(** The characters [str.strip()] removes: space, tab, newline, vertical
    tab, form feed, carriage return and the four separators 28-31. *)
Definition is_space (c : ascii) : bool :=
  let n := nat_of_ascii c in
  (n =? 32)%nat || ((9 <=? n)%nat && (n <=? 13)%nat)
  || ((28 <=? n)%nat && (n <=? 31)%nat).

Fixpoint lstrip (s : string) : string :=
  match s with
  | EmptyString => EmptyString
  | String c r => if is_space c then lstrip r else s
  end.

(** [rstrip]: a character stays when it is not a space or when something
    stays after it. *)
Fixpoint rstrip (s : string) : string :=
  match s with
  | EmptyString => EmptyString
  | String c r =>
      match rstrip r with
      | EmptyString => if is_space c then EmptyString else String c EmptyString
      | r' => String c r'
      end
  end.

(** [s.strip()] *)
Definition strip (s : string) : string := rstrip (lstrip s).

(** [s.startswith(p)] *)
Definition startswith (s p : string) : bool := String.prefix p s.

(** [k in s] on strings: [k] occurs in [s] as a substring. *)
Fixpoint contains (s k : string) : bool :=
  String.prefix k s
  || match s with
     | EmptyString => false
     | String _ r => contains r k
     end.

(** [any(k in s for k in ks)] *)
Definition any_in (ks : list string) (s : string) : bool :=
  existsb (contains s) ks.

(** Truth value of a string: non-empty. *)
Definition truthy (s : string) : bool :=
  match s with EmptyString => false | _ => true end.

(** [l[:n]] *)
Definition slice_to {A} (n : Z) (l : list A) : list A :=
  if n >=? 0 then take (Z.to_nat n) l
  else take (length l - Z.to_nat (- n)) l.

(** Truth value of an optional string ([None] and [''] are false). *)
Definition truthy_opt (s : option string) : bool :=
  match s with Some s => truthy s | None => false end.

(** A generic [while cond: body] on fuel: [None] when the fuel runs out. *)
Fixpoint while {S : Type} (fuel : nat) (cond : S -> bool)
         (body : S -> result S) (s : S) : option (result S) :=
  match fuel with
  | O => None
  | Datatypes.S fuel' =>
      if cond s then
        match body s with
        | Ok s' => while fuel' cond body s'
        | Raise e => Some (Raise e)
        end
      else Some (Ok s)
  end.

End Py.

Import Py.

#[global] Instance result_ret : MRet result := @Ok.
#[global] Instance result_bind : MBind result := fun A B k r => Py.bind r k.

(** ** llm/pricing.py *)

Module Pricing.

(** One entry of a tier list as [_load_pricing] builds it. *)
Record tier := {
  threshold : Z;
  input_cost : float;
  output_cost : float;
}.

(** The [cost_type] argument: the key read from a tier. *)
Inductive cost_type := InputCost | OutputCost.

Definition tier_get (ct : cost_type) (t : tier) : float :=
  match ct with
  | InputCost => input_cost t
  | OutputCost => output_cost t
  end.

(** An entry of [_pricing_cache]; [OtherType] is an entry whose ["type"] is
    neither ["simple"] nor ["tiered"]. *)
Inductive pricing :=
| Simple (unit : Z) (input_cost output_cost : float)
| Tiered (unit : Z) (tiers : list tier)
| OtherType (type : string) (unit : Z).

(** *** The configuration read by [_load_pricing] *)

(** A tier of the configuration: a dict whose keys may be missing. *)
Record tier_cfg := {
  cfg_threshold : option Z;
  cfg_tier_input_cost : option float;
  cfg_tier_output_cost : option float;
}.

(** The ["pricing"] dict of a model, which holds no other key. *)
Record pricing_cfg := {
  cfg_unit : option Z;
  cfg_tiers : option (list tier_cfg);
  cfg_input_cost : option float;
  cfg_output_cost : option float;
}.

(** The value of a profile in ["models"]: a dict, or something else. *)
Inductive model_cfg :=
| NotADict
| ModelCfg (provider : option string) (model : option string)
           (pricing : option pricing_cfg).

(** [PROVIDER_NAME_MAP] *)
Definition PROVIDER_NAME_MAP : gmap string string :=
  list_to_map [ ("openai", "OpenAI"); ("anthropic", "Anthropic");
                ("gemini", "Gemini"); ("xai", "XAI");
                ("deepseek", "DeepSeek"); ("mock", "Mock") ]%string.

(** [not pricing]: the dict is empty. *)
Definition pricing_cfg_empty (p : pricing_cfg) : bool :=
  match cfg_unit p, cfg_tiers p, cfg_input_cost p, cfg_output_cost p with
  | None, None, None, None => true
  | _, _, _, _ => false
  end.

Definition load_tier (t : tier_cfg) : tier :=
  {| threshold := default 0 (cfg_threshold t);
     input_cost := default 0%float (cfg_tier_input_cost t);
     output_cost := default 0%float (cfg_tier_output_cost t) |}.

(** [tiers.sort(key=lambda t: t["threshold"])]: a stable sort; each tier
    goes behind the tiers whose threshold is not greater. *)
Fixpoint insert_tier (t : tier) (sorted : list tier) : list tier :=
  match sorted with
  | [] => [t]
  | x :: rest =>
      if threshold t <? threshold x then t :: sorted
      else x :: insert_tier t rest
  end.

Definition sort_tiers (tiers : list tier) : list tier :=
  fold_left (fun acc t => insert_tier t acc) tiers [].

Definition model_key_of (provider : option string) (model : option string) : string :=
  let provider := lower (default "openai"%string provider) in
  let model_name := default ""%string model in
  let provider_normalized :=
    default (capitalize provider) (PROVIDER_NAME_MAP !! provider) in
  (provider_normalized +:+ ":" +:+ model_name)%string.

Definition load_model (cache : gmap string pricing) (m : model_cfg)
  : gmap string pricing :=
  match m with
  | NotADict => cache
  | ModelCfg provider model None => cache
  | ModelCfg provider model (Some p) =>
      if pricing_cfg_empty p then cache
      else
        let model_key := model_key_of provider model in
        let unit := default 1000000 (cfg_unit p) in
        match cfg_tiers p with
        | Some tiers =>
            <[ model_key := Tiered unit (sort_tiers (load_tier <$> tiers)) ]> cache
        | None =>
            <[ model_key := Simple unit (default 0%float (cfg_input_cost p))
                                        (default 0%float (cfg_output_cost p)) ]> cache
        end
  end.

(** [_load_pricing]: the cache built from the profiles of ["models"], in
    their order. *)
Definition _load_pricing (models : list (string * model_cfg)) : gmap string pricing :=
  fold_left (fun cache pm => load_model cache pm.2) models ∅.

(** *** Costs *)

(** The first loop of [_calculate_tiered_cost]: the index of the last tier
    of the leading run of tiers whose threshold the cumulative count has
    reached ([current_tier_idx] stays where it is at the first [break]). *)
Fixpoint find_start_tier (current_cumulative : Z) (tiers : list tier)
         (i current_tier_idx : nat) : nat :=
  match tiers with
  | [] => current_tier_idx
  | tier :: rest =>
      if current_cumulative >=? threshold tier
      then find_start_tier current_cumulative rest (S i) i
      else current_tier_idx
  end.

(** The local variables of the second loop. *)
Record loop_state := {
  total_cost : float;
  tokens_remaining : Z;
  current_cumulative : Z;
  current_tier_idx : nat;
}.

Definition loop_cond (tiers : list tier) (s : loop_state) : bool :=
  (tokens_remaining s >? 0) && (current_tier_idx s <? length tiers)%nat.

Definition loop_body (tiers : list tier) (unit : Z) (ct : cost_type)
           (s : loop_state) : result loop_state :=
  match tiers !! current_tier_idx s with
  | None => Ok s (* excluded by the loop condition *)
  | Some current_tier =>
      let rate := tier_get ct current_tier in
      let tokens_at_this_rate :=
        match tiers !! S (current_tier_idx s) with
        | Some next_tier =>
            let next_threshold := threshold next_tier in
            let tokens_until_next_tier := next_threshold - current_cumulative s in
            Z.min (tokens_remaining s) tokens_until_next_tier
        | None => tokens_remaining s
        end in
      q ← truediv tokens_at_this_rate unit;
      let cost := PrimFloat.mul q rate in
      Ok {| total_cost := PrimFloat.add (total_cost s) cost;
            tokens_remaining := tokens_remaining s - tokens_at_this_rate;
            current_cumulative := current_cumulative s + tokens_at_this_rate;
            current_tier_idx := S (current_tier_idx s) |}
  end.

Definition _calculate_tiered_cost (fuel : nat) (tokens cumulative_tokens : Z)
           (tiers : list tier) (unit : Z) (ct : cost_type)
  : option (result float) :=
  if (tokens =? 0) || (match tiers with [] => true | _ => false end)
  then Some (Ok 0%float)
  else
    let s0 := {| total_cost := 0%float;
                 tokens_remaining := tokens;
                 current_cumulative := cumulative_tokens;
                 current_tier_idx := find_start_tier cumulative_tokens tiers 0 0 |} in
    match while fuel (loop_cond tiers) (loop_body tiers unit ct) s0 with
    | None => None
    | Some (Ok s) => Some (Ok (total_cost s))
    | Some (Raise e) => Some (Raise e)
    end.

Definition cost_triple : Type := float * float * float.

Definition calculate_cost (fuel : nat) (cache : gmap string pricing)
           (model_key : string) (input_tokens output_tokens : Z)
           (cumulative_input_tokens cumulative_output_tokens : Z)
  : option (result cost_triple) :=
  match cache !! model_key with
  | None => Some (Ok (0%float, 0%float, 0%float))
  | Some (Simple unit ic oc) =>
      Some (qi ← truediv input_tokens unit;
            let input_cost := PrimFloat.mul qi ic in
            qo ← truediv output_tokens unit;
            let output_cost := PrimFloat.mul qo oc in
            Ok (input_cost, output_cost, PrimFloat.add input_cost output_cost))
  | Some (Tiered unit tiers) =>
      match _calculate_tiered_cost fuel input_tokens cumulative_input_tokens
              tiers unit InputCost with
      | None => None
      | Some (Raise e) => Some (Raise e)
      | Some (Ok input_cost) =>
          match _calculate_tiered_cost fuel output_tokens cumulative_output_tokens
                  tiers unit OutputCost with
          | None => None
          | Some (Raise e) => Some (Raise e)
          | Some (Ok output_cost) =>
              Some (Ok (input_cost, output_cost,
                        PrimFloat.add input_cost output_cost))
          end
      end
  | Some (OtherType _ _) => Some (Ok (0%float, 0%float, 0%float))
  end.

Definition has_pricing (cache : gmap string pricing) (model_key : string) : bool :=
  bool_decide (is_Some (cache !! model_key)).

(** The tiers of the worked example of the specification: $10 from 0,
    $5 from 1000, per 1000 tokens. *)
Definition example_tiers : list tier :=
  [ {| threshold := 0; input_cost := 10%float; output_cost := 10%float |};
    {| threshold := 1000; input_cost := 5%float; output_cost := 5%float |} ].

(** The same tiers as a configuration: listed out of order, under the
    provider name of the configuration file. *)
Definition example_models : list (string * model_cfg) :=
  [ ("agent"%string,
     ModelCfg (Some "openai"%string) (Some "gpt-5"%string)
       (Some {| cfg_unit := Some 1000;
                cfg_tiers := Some
                  [ {| cfg_threshold := Some 1000;
                       cfg_tier_input_cost := Some 5%float;
                       cfg_tier_output_cost := Some 5%float |};
                    {| cfg_threshold := None;
                       cfg_tier_input_cost := Some 10%float;
                       cfg_tier_output_cost := Some 10%float |} ];
                cfg_input_cost := None;
                cfg_output_cost := None |})) ].

End Pricing.

(** ** The tiered pricing rule, in the words of the specification

    The second definition of the refinement statement: it follows the text of
    the specification, not the code. *)

Module TieredSpec.
Import Pricing.

(** "the tier [t] such that [threshold[t] ≤ cumulative < threshold[t+1]]";
    the last tier has no upper bound. *)
Definition falls_into (tiers : list tier) (cumulative : Z) (t : nat) : Prop :=
  (∃ tr, tiers !! t = Some tr ∧ threshold tr <= cumulative) ∧
  (∀ nx, tiers !! S t = Some nx → cumulative < threshold nx).

(** "charge [min(remaining, threshold[t+1] - cumulative)] tokens at
    [rate[t]]; advance cumulative and remaining; repeat into subsequent
    tiers until remaining tokens are exhausted or tiers run out (the final
    tier absorbs all remaining tokens)": the tokens charged to each tier,
    from the tier at the head of [tiers] on. *)
Fixpoint charges (tiers : list tier) (cumulative remaining : Z) : list (Z * tier) :=
  match tiers with
  | [] => []
  | t :: rest =>
      if remaining <=? 0 then []
      else
        match rest with
        | [] => [(remaining, t)]
        | next :: _ =>
            let n := Z.min remaining (threshold next - cumulative) in
            (n, t) :: charges rest (cumulative + n) (remaining - n)
        end
  end.

(** [n] tokens at a tier's rate cost [n / unit * rate]. *)
Definition charge (unit : Z) (ct : cost_type) (acc : float) (c : Z * tier) : float :=
  PrimFloat.add acc
    (PrimFloat.mul (PrimFloat.div (float_of_int c.1) (float_of_int unit))
                   (tier_get ct c.2)).

Definition cost (unit : Z) (ct : cost_type) (cs : list (Z * tier)) : float :=
  fold_left (charge unit ct) cs 0%float.

(** "tiers are sorted ascending by threshold". *)
Definition sorted (tiers : list tier) : Prop :=
  ∀ i j ti tj, (i <= j)%nat → tiers !! i = Some ti → tiers !! j = Some tj →
               threshold ti <= threshold tj.

End TieredSpec.

(** ** llm/token_tracker.py *)

Module TokenTracker.

(** The dataclass [TokenUsage]. *)
Record TokenUsage := {
  timestamp : string;
  provider : string;
  model : string;
  input_tokens : Z;
  output_tokens : Z;
  total_tokens : Z;
  profile : option string;
  input_cost : float;
  output_cost : float;
  total_cost : float;
}.

(** A value of [usage_by_model], and the ['total_usage'] of a summary. *)
Record aggregate := {
  agg_input_tokens : Z;
  agg_output_tokens : Z;
  agg_total_tokens : Z;
  agg_call_count : Z;
  agg_input_cost : float;
  agg_output_cost : float;
  agg_total_cost : float;
}.

(** A value of [_cumulative_tokens]. *)
Record cumulative := {
  cum_input_tokens : Z;
  cum_output_tokens : Z;
}.

(** The fields of a [TokenTracker]. [_lock] is a [threading.Lock]: [true]
    while it is held. *)
Record tracker := {
  usage_history : list TokenUsage;
  usage_by_model : gmap string aggregate;
  _lock : bool;
  _output_file : option string;
  _cumulative_tokens : gmap string cumulative;
}.

(** What [get_summary] returns and [json.dump] writes. *)
Record summary := {
  sum_total_usage : aggregate;
  sum_by_model : gmap string aggregate;
  sum_history : list TokenUsage;
}.

(** The files written so far, by path. *)
Definition files : Type := gmap string summary.

(** [TokenTracker()] *)
Definition init : tracker :=
  {| usage_history := [];
     usage_by_model := ∅;
     _lock := false;
     _output_file := None;
     _cumulative_tokens := ∅ |}.

Definition set_lock (b : bool) (t : tracker) : tracker :=
  {| usage_history := usage_history t;
     usage_by_model := usage_by_model t;
     _lock := b;
     _output_file := _output_file t;
     _cumulative_tokens := _cumulative_tokens t |}.

(** [self._lock.acquire()], as [with self._lock:] enters: a
    [threading.Lock] is not reentrant, and the caller waits while it is held.
    The tracker is driven by one thread, so nothing releases the lock while
    that thread waits: every unit of fuel finds the lock as it was. *)
Fixpoint acquire (fuel : nat) (t : tracker) : option tracker :=
  match fuel with
  | O => None
  | S fuel' => if _lock t then acquire fuel' t else Some (set_lock true t)
  end.

(** [self._lock.release()], as the [with] block exits. *)
Definition release (t : tracker) : tracker := set_lock false t.

Definition sum_int (f : TokenUsage → Z) (l : list TokenUsage) : Z :=
  fold_left (λ acc u, acc + f u) l 0.

Definition sum_float (f : TokenUsage → float) (l : list TokenUsage) : float :=
  fold_left (λ acc u, PrimFloat.add acc (f u)) l 0%float.

(** [get_summary]: the whole body runs under [with self._lock:]. *)
Definition get_summary (fuel : nat) (t : tracker) : option (summary * tracker) :=
  t1 ← acquire fuel t;
  let h := usage_history t1 in
  let data :=
    {| sum_total_usage :=
         {| agg_input_tokens := sum_int input_tokens h;
            agg_output_tokens := sum_int output_tokens h;
            agg_total_tokens := sum_int total_tokens h;
            agg_call_count := Z.of_nat (length h);
            agg_input_cost := sum_float input_cost h;
            agg_output_cost := sum_float output_cost h;
            agg_total_cost := sum_float total_cost h |};
       sum_by_model := usage_by_model t1;
       sum_history := h |} in
  Some (data, release t1).

(** [_save_to_file] *)
Definition _save_to_file (fuel : nat) (t : tracker) (fs : files)
  : option (tracker * files) :=
  match _output_file t with
  | None => Some (t, fs)
  | Some path =>
      '(data, t') ← get_summary fuel t;
      Some (t', <[ path := data ]> fs)
  end.

(** [set_output_file] *)
Definition set_output_file (fuel : nat) (file_path : string) (t : tracker) (fs : files)
  : option (tracker * files) :=
  let t1 := {| usage_history := usage_history t;
               usage_by_model := usage_by_model t;
               _lock := _lock t;
               _output_file := Some file_path;
               _cumulative_tokens := _cumulative_tokens t |} in
  _save_to_file fuel t1 fs.

Definition empty_aggregate : aggregate :=
  {| agg_input_tokens := 0; agg_output_tokens := 0; agg_total_tokens := 0;
     agg_call_count := 0; agg_input_cost := 0%float; agg_output_cost := 0%float;
     agg_total_cost := 0%float |}.

Definition add_usage (u : TokenUsage) (a : aggregate) : aggregate :=
  {| agg_input_tokens := agg_input_tokens a + input_tokens u;
     agg_output_tokens := agg_output_tokens a + output_tokens u;
     agg_total_tokens := agg_total_tokens a + (input_tokens u + output_tokens u);
     agg_call_count := agg_call_count a + 1;
     agg_input_cost := PrimFloat.add (agg_input_cost a) (input_cost u);
     agg_output_cost := PrimFloat.add (agg_output_cost a) (output_cost u);
     agg_total_cost := PrimFloat.add (agg_total_cost a) (total_cost u) |}.

Definition add_cumulative (u : TokenUsage) (c : cumulative) : cumulative :=
  {| cum_input_tokens := cum_input_tokens c + input_tokens u;
     cum_output_tokens := cum_output_tokens c + output_tokens u |}.

Definition model_key_of (provider model : string) : string :=
  (provider +:+ ":" +:+ model)%string.

(** The updates [track_usage] makes once it holds the lock, up to the
    save. *)
Definition record_usage (u : TokenUsage) (t : tracker) : tracker :=
  let model_key := model_key_of (provider u) (model u) in
  {| usage_history := usage_history t ++ [u];
     usage_by_model :=
       <[ model_key := add_usage u (default empty_aggregate (usage_by_model t !! model_key)) ]>
         (usage_by_model t);
     _lock := _lock t;
     _output_file := _output_file t;
     _cumulative_tokens :=
       <[ model_key := add_cumulative u
            (default {| cum_input_tokens := 0; cum_output_tokens := 0 |}
                     (_cumulative_tokens t !! model_key)) ]>
         (_cumulative_tokens t) |}.

(** [track_usage]; [now] is [datetime.now().isoformat()]. *)
Definition track_usage (fuel : nat) (now : string)
           (provider model : string) (input_tokens output_tokens : Z)
           (profile : option string) (input_cost output_cost total_cost : float)
           (t : tracker) (fs : files) : option (tracker * files) :=
  t1 ← acquire fuel t;
  let usage :=
    {| timestamp := now; provider := provider; model := model;
       input_tokens := input_tokens; output_tokens := output_tokens;
       total_tokens := input_tokens + output_tokens;
       profile := profile;
       input_cost := input_cost; output_cost := output_cost;
       total_cost := total_cost |} in
  let t2 := record_usage usage t1 in
  '(t3, fs') ← (if bool_decide (is_Some (_output_file t2))
                then _save_to_file fuel t2 fs
                else Some (t2, fs));
  Some (release t3, fs').

(** [get_cumulative_tokens] *)
Definition get_cumulative_tokens (fuel : nat) (model_key : string) (t : tracker)
  : option (Z * Z * tracker) :=
  t1 ← acquire fuel t;
  let r := match _cumulative_tokens t1 !! model_key with
           | None => (0, 0)
           | Some c => (cum_input_tokens c, cum_output_tokens c)
           end in
  Some (r, release t1).

(** [get_last_usage]: [to_dict] copies the ten fields of the record, so the
    dict is the record itself. *)
Definition get_last_usage (fuel : nat) (t : tracker)
  : option (option TokenUsage * tracker) :=
  t1 ← acquire fuel t;
  Some (last (usage_history t1), release t1).

(** The three [clear()] of [reset]. *)
Definition clear (t : tracker) : tracker :=
  {| usage_history := [];
     usage_by_model := ∅;
     _lock := _lock t;
     _output_file := _output_file t;
     _cumulative_tokens := ∅ |}.

(** [reset]: like [track_usage], it saves inside the critical section. *)
Definition reset (fuel : nat) (t : tracker) (fs : files) : option (tracker * files) :=
  t1 ← acquire fuel t;
  let t2 := clear t1 in
  '(t3, fs') ← (if bool_decide (is_Some (_output_file t2))
                then _save_to_file fuel t2 fs
                else Some (t2, fs));
  Some (release t3, fs').

(** The trackers a program gets by calling the methods of the class on a
    new [TokenTracker()], one call after the other. *)
Inductive reachable : tracker → Prop :=
| reach_init : reachable init
| reach_set_output_file fuel file_path t fs t' fs' :
    reachable t →
    set_output_file fuel file_path t fs = Some (t', fs') → reachable t'
| reach_track_usage fuel now provider model input_tokens output_tokens profile
                    input_cost output_cost total_cost t fs t' fs' :
    reachable t →
    track_usage fuel now provider model input_tokens output_tokens profile
      input_cost output_cost total_cost t fs = Some (t', fs') → reachable t'
| reach_get_summary fuel t data t' :
    reachable t → get_summary fuel t = Some (data, t') → reachable t'
| reach_get_last_usage fuel t r t' :
    reachable t → get_last_usage fuel t = Some (r, t') → reachable t'
| reach_get_cumulative_tokens fuel model_key t r t' :
    reachable t → get_cumulative_tokens fuel model_key t = Some (r, t') → reachable t'
| reach_reset fuel t fs t' fs' :
    reachable t → reset fuel t fs = Some (t', fs') → reachable t'.

(** The records of the history made under a model key. *)
Definition history_of (model_key : string) (t : tracker) : list TokenUsage :=
  filter (λ u, model_key_of (provider u) (model u) = model_key) (usage_history t).

(** The aggregate of a list of records, summed in the order of the list. *)
Definition aggregate_of (h : list TokenUsage) : aggregate :=
  {| agg_input_tokens := sum_int input_tokens h;
     agg_output_tokens := sum_int output_tokens h;
     agg_total_tokens := sum_int total_tokens h;
     agg_call_count := Z.of_nat (length h);
     agg_input_cost := sum_float input_cost h;
     agg_output_cost := sum_float output_cost h;
     agg_total_cost := sum_float total_cost h |}.

(** The sum of a field over the values of [usage_by_model]. *)
Definition sum_over_models (f : aggregate → Z) (m : gmap string aggregate) : Z :=
  map_fold (λ _ a acc, acc + f a) 0 m.

End TokenTracker.

(** ** commands/agent.py: the steering helpers *)

Module Steering.

#[local] Set Warnings "-register-all".

(** A value [json.loads] returns. A number carries its value as a float; the
    pairs of [JObj] are the items of the dict, each key once. *)
Inductive json :=
| JNull
| JBool (b : bool)
| JNum (f : float)
| JStr (s : string)
| JArr (l : list json)
| JObj (items : list (string * json)).

(** A line of [steering.jsonl]: its text, and what [json.loads] makes of the
    stripped text ([None] when it raises). *)
Record line := {
  raw : string;
  loads : option json;
}.

(** What the helpers see of the project directory: the steering log ([None]
    when the file is missing or cannot be read), the float stored in
    [steering.cursor] ([None] when the file is missing or does not hold one),
    whether that file can be written, and [float] on a [str] as the
    interpreter computes it. *)
Record disk := {
  steering_jsonl : option (list line);
  steering_cursor : option float;
  cursor_writable : bool;
  float_of_str : string → result float;
}.

(** An element of the list [_read_steering_entries] returns. *)
Record entry := {
  ts : float;
  text : string;
}.

(** Truth value of a float: it is not zero. *)
Definition float_truthy (f : float) : bool := negb (PrimFloat.eqb f 0%float).

(** Truth value of a JSON value. *)
Definition json_truthy (v : json) : bool :=
  match v with
  | JNull => false
  | JBool b => b
  | JNum f => float_truthy f
  | JStr s => truthy s
  | JArr l => match l with [] => false | _ => true end
  | JObj items => match items with [] => false | _ => true end
  end.

(** [obj.get(key)]: [AttributeError] unless [obj] is a dict; [JNull] for a
    missing key. *)
Definition json_get (obj : json) (key : string) : result json :=
  match obj with
  | JObj items =>
      Ok (default JNull
            ((λ r, r.2.2) <$> list_find (λ kv, bool_decide (kv.1 = key)) items))
  | _ => Raise AttributeError
  end.

(** [a or b] *)
Definition json_or (a b : json) : json := if json_truthy a then a else b.

(** [float(v)] *)
Definition json_float (d : disk) (v : json) : result float :=
  match v with
  | JNum f => Ok f
  | JBool b => Ok (if b then 1%float else 0%float)
  | JStr s => float_of_str d s
  | JNull | JArr _ | JObj _ => Raise TypeError
  end.

(** [v.strip()]: [AttributeError] unless [v] is a string. *)
Definition json_strip (v : json) : result string :=
  match v with
  | JStr s => Ok (strip s)
  | _ => Raise AttributeError
  end.

(** The body of the inner [try] of [_read_steering_entries] on a stripped,
    non-empty line: the entry to append, if any. *)
Definition parse_entry (d : disk) (l : line) : result (option entry) :=
  obj ← match loads l with Some v => Ok v | None => Raise JSONDecodeError end;
  v_ts ← json_get obj "ts";
  ts ← json_float d (json_or v_ts (JNum 0%float));
  v_text ← json_get obj "text";
  v_message ← json_get obj "message";
  v_note ← json_get obj "note";
  txt ← json_strip (json_or v_text (json_or v_message (json_or v_note (JStr ""))));
  Ok (if truthy txt then Some {| ts := ts; text := txt |} else None).

(** One turn of [for ln in f]: what it appends to [out]. *)
Definition read_line (d : disk) (l : line) : list entry :=
  let ln := strip (raw l) in
  if truthy ln then
    match parse_entry d l with
    | Ok (Some e) => [e]
    | Ok None => []
    | Raise _ => [ {| ts := 0%float; text := ln |} ]
    end
  else [].

(** [out[-limit:]] *)
Definition last_slice {A} (limit : Z) (out : list A) : list A :=
  if limit >? 0 then drop (length out - Z.to_nat limit) out
  else drop (Z.to_nat (- limit)) out.

(** [_read_steering_entries] *)
Definition _read_steering_entries (d : disk) (limit : Z) : list entry :=
  match steering_jsonl d with
  | None => []
  | Some lines => last_slice limit (lines ≫= read_line d)
  end.

(** [_get_last_consumed_steer_ts] *)
Definition _get_last_consumed_steer_ts (d : disk) : float :=
  default 0%float (steering_cursor d).

(** [_set_last_consumed_steer_ts]: a failed write is swallowed. *)
Definition _set_last_consumed_steer_ts (d : disk) (ts : float) : disk :=
  if cursor_writable d
  then {| steering_jsonl := steering_jsonl d;
          steering_cursor := Some ts;
          cursor_writable := cursor_writable d;
          float_of_str := float_of_str d |}
  else d.

(** [_consume_steer] *)
Definition _consume_steer (d : disk) (ts : float) : disk :=
  if float_truthy ts && PrimFloat.ltb (_get_last_consumed_steer_ts d) ts
  then _set_last_consumed_steer_ts d ts
  else d.

Definition verbs : list string :=
  [ "investigate"; "investtgate"; "investigate"; "check"; "look at"; "look into";
    "focus on"; "analyze"; "audit"; "review"; "examine"; "scan"; "probe"; "dig into";
    "right now"; "next"; "please investigate"; "please check" ]%string.

Definition globals : list string :=
  [ "whole app"; "entire app"; "entire codebase"; "whole codebase"; "all contracts";
    "every contract"; "system-wide"; "system wide"; "project-wide"; "project wide";
    "across the codebase"; "across the repo"; "across modules"; "end-to-end"; "e2e";
    "globally"; "everywhere"; "full audit"; "full review"; "scan the entire"; "scan all" ]%string.

(** [float(ent.get('ts') or 0.0)] on an entry. *)
Definition entry_ts (e : entry) : float :=
  if float_truthy (ts e) then ts e else 0%float.

(** The test one turn of the loop of [_find_latest_urgent_steer] makes: the
    entry is not skipped as consumed, and its text matches a keyword. *)
Definition is_candidate (last_ts : float) (e : entry) : bool :=
  negb (PrimFloat.leb (entry_ts e) last_ts)
  && (let low := lower (strip (text e)) in any_in verbs low || any_in globals low).

(** [_find_latest_urgent_steer] *)
Definition _find_latest_urgent_steer (d : disk) : option entry :=
  let last_ts := _get_last_consumed_steer_ts d in
  let entries := _read_steering_entries d 80 in
  (λ e, {| ts := entry_ts e; text := strip (text e) |})
    <$> (snd <$> list_find (λ e, is_candidate last_ts e = true) (reverse entries)).

(** The [_is_global_steer] of [run]. *)
Definition _is_global_steer (text : string) : bool :=
  let t := lower text in
  if negb (truthy t) then false
  else if any_in globals t then true
  else if contains t " across " || startswith t "across " then true
  else false.

(** A log for the examples: a targeted directive, a line that is not JSON,
    and a project-wide directive; [float] rejects every string (no line of
    the examples carries its timestamp as a string). *)
Definition directive (t : float) (s : string) : line :=
  {| raw := s; loads := Some (JObj [ ("ts"%string, JNum t); ("text"%string, JStr s) ]) |}.

Definition example_log : list line :=
  [ directive 5 "check the login function";
    {| raw := "not json"; loads := None |};
    directive 7 "  audit the Whole Codebase " ].

Definition example_disk (cursor : option float) : disk :=
  {| steering_jsonl := Some example_log;
     steering_cursor := cursor;
     cursor_writable := true;
     float_of_str := λ _, Raise ValueError |}.

End Steering.

(** ** analysis/plan_store.py, as [commands/agent.py] uses it

    The plan store is not among the sources at hand; the scheduler is
    modelled over its interface. *)

Module PlanStore.

Inductive PlanStatus := PLANNED | IN_PROGRESS | DONE | DROPPED.

#[global] Instance PlanStatus_eq_dec : EqDecision PlanStatus.
Proof. solve_decision. Defined.

(** A frame as [list] and [get] return it. *)
Record frame := {
  frame_id : option string;
  question : string;
  artifact_refs : list string;
  priority : Z;
  rationale : string;
  status : PlanStatus;
}.

(** The four operations the scheduler calls. Each may raise (a persistence
    error); a call that raises leaves the store as it was. *)
Class Store (S : Type) := {
  list_frames : S → string → PlanStatus → result (list frame);
  propose : S → string → string → list string → Z → string → string
            → result (bool * string * S);
  get : S → string → result (option frame);
  update_status : S → string → PlanStatus → string → result (bool * S);
}.

(** Modelled from the spec: [analysis/plan_store.py] is missing; this is the
    store of section 4.1, kept as the list of its frames in insertion order.
    The identity of a frame is computed from the session, the normalized
    question and the artifact references. *)
Definition spec_frame_id (session_id question : string) (refs : list string) : string :=
  (session_id +:+ "/" +:+ lower (strip question) +:+ "/"
   +:+ String.concat "," refs)%string.

(** Modelled from the spec: the frame is addressed by [fid]. *)
Definition has_id (fid : string) (f : frame) : bool :=
  bool_decide (frame_id f = Some fid).

(** Modelled from the spec: the valid transitions of [update_status]. *)
Definition valid_transition (from to : PlanStatus) : bool :=
  match from, to with
  | PLANNED, IN_PROGRESS => true
  | IN_PROGRESS, (DONE | DROPPED | PLANNED) => true
  | PLANNED, DROPPED => true
  | _, _ => false
  end.

(** Modelled from the spec: frames of a status, by descending priority,
    ties in insertion order. *)
Fixpoint insert_frame (f : frame) (sorted : list frame) : list frame :=
  match sorted with
  | [] => [f]
  | x :: rest =>
      if priority x <? priority f then f :: sorted
      else x :: insert_frame f rest
  end.

(** Modelled from the spec: [list(session_id, status)] of section 4.1. *)
Definition spec_list (frames : list frame) (st : PlanStatus) : list frame :=
  fold_left (λ acc f, insert_frame f acc)
            (filter (λ f, status f = st) frames) [].

(** Modelled from the spec: the frame with its status changed. *)
Definition set_status (st : PlanStatus) (f : frame) : frame :=
  {| frame_id := frame_id f; question := question f;
     artifact_refs := artifact_refs f; priority := priority f;
     rationale := rationale f; status := st |}.

(** Modelled from the spec: the store of section 4.1. It never raises. *)
#[global] Instance spec_store : Store (list frame) := {
  list_frames frames _ st := Ok (spec_list frames st);
  propose frames session_id question refs prio rationale _ :=
    let fid := spec_frame_id session_id question refs in
    if existsb (has_id fid) frames then Ok (false, fid, frames)
    else Ok (true, fid,
             frames ++ [ {| frame_id := Some fid; question := question;
                            artifact_refs := refs; priority := prio;
                            rationale := rationale; status := PLANNED |} ]);
  get frames fid := Ok (find (has_id fid) frames);
  update_status frames fid st _ :=
    match find (has_id fid) frames with
    | Some f =>
        if valid_transition (status f) st
        then Ok (true, (λ g, if has_id fid g then set_status st g else g) <$> frames)
        else Ok (false, frames)
    | None => Ok (false, frames)
    end;
}.

End PlanStore.

(** ** commands/agent.py: [AgentRunner]

    The planning and execution loop of [run], with what decides its control
    flow: the steering files, the plan store, the clock, the strategist and
    the worker.  Console output, telemetry, the session tracker, the coverage
    index and the plan ledger are written to but never read back by the
    loop, and are left out. *)

Module Agent.
Import Steering PlanStore.

(** An item of a batch: the [SimpleNamespace] of [_plan_investigations].
    [frame_id] is [None] too when the attribute is missing. *)
Record investigation := {
  goal : string;
  focus_areas : list string;
  inv_priority : Z;
  reasoning : string;
  category : string;
  expected_impact : string;
  inv_frame_id : option string;
}.

(** A candidate of the strategist, its keys read with their defaults. *)
Record proposal := {
  p_goal : string;
  p_focus_areas : list string;
  p_priority : Z;
  p_reasoning : string;
  p_category : string;
  p_expected_impact : string;
}.

(** The report [investigate] returns. *)
Record report := {
  iterations_completed : Z;
  hypotheses_total : Z;
}.

(** What happens during one call of [agent.investigate]: the worker reports
    progress through the callback, and meanwhile an operator may append a
    line to the steering log. *)
Inductive worker_step :=
| Progress (status : string)
| OperatorWrites (l : line).

Inductive worker_end :=
| Returns (r : report)
| Raises (e : exn).

Record script := {
  steps : list worker_step;
  ending : worker_end;
}.

(** The surroundings of a run, fixed once it starts: the options of the
    command, and what the clock, the strategist and the worker answer to
    their successive calls. *)
Record env := {
  session_id : string;
  agent_id : string;
  time_limit_minutes : option Z;
  clock : nat → float;
  strategist : nat → Z → result (list proposal);
  worker : nat → script;
}.

(** The state a run changes: fields of the runner and of its agent, the
    project directory, the store, and how many times the clock, the
    strategist and the worker were called; [investigated] lists the goals
    handed to the worker. *)
Record state (S : Type) := {
  disk_of : disk;
  plan_store : option S;
  _last_applied_steer : option string;
  _last_replan_steer : option string;
  _abort_requested : bool;
  completed_investigations : list string;
  ticks : nat;
  strategist_calls : nat;
  worker_calls : nat;
  investigated : list string;
}.
Arguments disk_of {S} _.
Arguments plan_store {S} _.
Arguments _last_applied_steer {S} _.
Arguments _last_replan_steer {S} _.
Arguments _abort_requested {S} _.
Arguments completed_investigations {S} _.
Arguments ticks {S} _.
Arguments strategist_calls {S} _.
Arguments worker_calls {S} _.
Arguments investigated {S} _.

Section Updates.
Context {S : Type}.

Definition with_disk (d : disk) (s : state S) : state S :=
  {| disk_of := d; plan_store := plan_store s;
     _last_applied_steer := _last_applied_steer s;
     _last_replan_steer := _last_replan_steer s;
     _abort_requested := _abort_requested s;
     completed_investigations := completed_investigations s;
     ticks := ticks s; strategist_calls := strategist_calls s;
     worker_calls := worker_calls s; investigated := investigated s |}.

Definition with_store (ps : option S) (s : state S) : state S :=
  {| disk_of := disk_of s; plan_store := ps;
     _last_applied_steer := _last_applied_steer s;
     _last_replan_steer := _last_replan_steer s;
     _abort_requested := _abort_requested s;
     completed_investigations := completed_investigations s;
     ticks := ticks s; strategist_calls := strategist_calls s;
     worker_calls := worker_calls s; investigated := investigated s |}.

Definition with_last_applied (v : option string) (s : state S) : state S :=
  {| disk_of := disk_of s; plan_store := plan_store s;
     _last_applied_steer := v;
     _last_replan_steer := _last_replan_steer s;
     _abort_requested := _abort_requested s;
     completed_investigations := completed_investigations s;
     ticks := ticks s; strategist_calls := strategist_calls s;
     worker_calls := worker_calls s; investigated := investigated s |}.

Definition with_last_replan (v : option string) (s : state S) : state S :=
  {| disk_of := disk_of s; plan_store := plan_store s;
     _last_applied_steer := _last_applied_steer s;
     _last_replan_steer := v;
     _abort_requested := _abort_requested s;
     completed_investigations := completed_investigations s;
     ticks := ticks s; strategist_calls := strategist_calls s;
     worker_calls := worker_calls s; investigated := investigated s |}.

Definition with_abort (b : bool) (s : state S) : state S :=
  {| disk_of := disk_of s; plan_store := plan_store s;
     _last_applied_steer := _last_applied_steer s;
     _last_replan_steer := _last_replan_steer s;
     _abort_requested := b;
     completed_investigations := completed_investigations s;
     ticks := ticks s; strategist_calls := strategist_calls s;
     worker_calls := worker_calls s; investigated := investigated s |}.

Definition with_completed (l : list string) (s : state S) : state S :=
  {| disk_of := disk_of s; plan_store := plan_store s;
     _last_applied_steer := _last_applied_steer s;
     _last_replan_steer := _last_replan_steer s;
     _abort_requested := _abort_requested s;
     completed_investigations := l;
     ticks := ticks s; strategist_calls := strategist_calls s;
     worker_calls := worker_calls s; investigated := investigated s |}.

Definition with_ticks (n : nat) (s : state S) : state S :=
  {| disk_of := disk_of s; plan_store := plan_store s;
     _last_applied_steer := _last_applied_steer s;
     _last_replan_steer := _last_replan_steer s;
     _abort_requested := _abort_requested s;
     completed_investigations := completed_investigations s;
     ticks := n; strategist_calls := strategist_calls s;
     worker_calls := worker_calls s; investigated := investigated s |}.

Definition with_strategist_calls (n : nat) (s : state S) : state S :=
  {| disk_of := disk_of s; plan_store := plan_store s;
     _last_applied_steer := _last_applied_steer s;
     _last_replan_steer := _last_replan_steer s;
     _abort_requested := _abort_requested s;
     completed_investigations := completed_investigations s;
     ticks := ticks s; strategist_calls := n;
     worker_calls := worker_calls s; investigated := investigated s |}.

Definition with_worker_call (g : string) (s : state S) : state S :=
  {| disk_of := disk_of s; plan_store := plan_store s;
     _last_applied_steer := _last_applied_steer s;
     _last_replan_steer := _last_replan_steer s;
     _abort_requested := _abort_requested s;
     completed_investigations := completed_investigations s;
     ticks := ticks s; strategist_calls := strategist_calls s;
     worker_calls := Datatypes.S (worker_calls s);
     investigated := investigated s ++ [g] |}.

(** [time.time()] *)
Definition time (e : env) (s : state S) : float * state S :=
  (clock e (ticks s), with_ticks (Datatypes.S (ticks s)) s).

(** [self._consume_steer(float(ent.get('ts') or 0.0))] *)
Definition consume (ent : entry) (s : state S) : state S :=
  with_disk (_consume_steer (disk_of s) (entry_ts ent)) s.

End Updates.

Section Scheduler.
Context {S : Type} `{!Store S}.

(** *** [_plan_investigations] *)

(** The frame synthesized for an urgent directive at planning time. *)
Definition steering_frame (urgent : string) : investigation :=
  {| goal := urgent; focus_areas := []; inv_priority := 10;
     reasoning := "User steering: prioritize immediately";
     category := "suspicion"; expected_impact := "high";
     inv_frame_id := None |}.

Definition frame_item (it : frame) : investigation :=
  {| goal := question it; focus_areas := artifact_refs it;
     inv_priority := priority it; reasoning := rationale it;
     category := "aspect"; expected_impact := "medium";
     inv_frame_id := frame_id it |}.

Definition proposal_item (d : proposal) (fid : option string) : investigation :=
  {| goal := p_goal d; focus_areas := p_focus_areas d;
     inv_priority := p_priority d; reasoning := p_reasoning d;
     category := p_category d; expected_impact := p_expected_impact d;
     inv_frame_id := fid |}.

(** A frame id that counts: [if frame_id:]. *)
Definition real_id (fid : option string) : option string :=
  if truthy_opt fid then fid else None.

(** Step 0: the newest urgent directive, if any, becomes the first item and
    is consumed. *)
Definition plan_urgent (s : state S) : list investigation * state S :=
  match _find_latest_urgent_steer (disk_of s) with
  | Some urgent_ent => ([steering_frame (text urgent_ent)], consume urgent_ent s)
  | None => ([], s)
  end.

(** Step 1: the first [n] PLANNED frames of the session, and their ids. *)
Definition plan_pending (e : env) (n : Z) (s : state S)
  : list investigation * gset string :=
  match plan_store s with
  | Some ps =>
      if truthy (session_id e) then
        match list_frames ps (session_id e) PLANNED with
        | Ok pending =>
            let its := slice_to n pending in
            (frame_item <$> its, list_to_set (omap (λ it, real_id (frame_id it)) its))
        | Raise _ => ([], ∅)
        end
      else ([], ∅)
  | None => ([], ∅)
  end.

(** What the loop of step 3 carries from one candidate to the next. *)
Record topup := {
  prepared : list investigation;
  existing_frame_ids : gset string;
  store : option S;
}.

(** The [try] of step 3 on one candidate: its frame id, whether to skip it,
    and the store after [propose]. *)
Definition propose_candidate (e : env) (ps : S) (existing : gset string) (d : proposal)
  : option string * bool * S :=
  let sid := if truthy (session_id e) then session_id e else agent_id e in
  match propose ps sid (p_goal d) (p_focus_areas d) (p_priority d)
                (p_reasoning d) "strategist" with
  | Raise _ => (None, false, ps)
  | Ok (ok, fid, ps') =>
      if ok then (Some fid, false, ps')
      else
        match get ps' fid with
        | Raise _ => (None, false, ps')
        | Ok found =>
            let st := default PLANNED (status <$> found) in
            if bool_decide (st = DONE ∨ st = IN_PROGRESS) then (Some fid, true, ps')
            else if bool_decide (st = PLANNED) && bool_decide (fid ∈ existing)
                 then (Some fid, true, ps')
                 else (Some fid, false, ps')
        end
  end.

(** Step 3: [for d in planned], stopping once [n] items are prepared. *)
Fixpoint top_up (e : env) (n : Z) (planned : list proposal) (acc : topup) : topup :=
  match planned with
  | [] => acc
  | d :: rest =>
      if Z.of_nat (length (prepared acc)) >=? n then acc
      else
        let '(fid, skip, ps') :=
          match store acc with
          | Some ps =>
              let '(fid, skip, ps') := propose_candidate e ps (existing_frame_ids acc) d in
              (fid, skip, Some ps')
          | None => (None, false, None)
          end in
        if skip then
          top_up e n rest {| prepared := prepared acc;
                             existing_frame_ids := existing_frame_ids acc;
                             store := ps' |}
        else
          top_up e n rest
            {| prepared := prepared acc ++ [proposal_item d fid];
               existing_frame_ids :=
                 match real_id fid with
                 | Some f => {[ f ]} ∪ existing_frame_ids acc
                 | None => existing_frame_ids acc
                 end;
               store := ps' |}
  end.

(** [_plan_investigations]: the batch, or the exception of the strategist. *)
Definition _plan_investigations (e : env) (n : Z) (s : state S)
  : result (list investigation) * state S :=
  let '(urgent, s1) := plan_urgent s in
  let '(pending, ids) := plan_pending e n s1 in
  let prepared0 := urgent ++ pending in
  if Z.of_nat (length prepared0) >=? n then (Ok (slice_to n prepared0), s1)
  else
    let need := Z.max 0 (n - Z.of_nat (length prepared0)) in
    let '(planned, s2) :=
      if need >? 0
      then (strategist e (strategist_calls s1) need,
            with_strategist_calls (Datatypes.S (strategist_calls s1)) s1)
      else (Ok [], s1) in
    match planned with
    | Raise ex => (Raise ex, s2)
    | Ok planned =>
        let r := top_up e n planned
                   {| prepared := prepared0; existing_frame_ids := ids;
                      store := plan_store s2 |} in
        (Ok (prepared r), with_store (store r) s2)
    end.

(** *** [run] *)

(** [if self.time_limit_minutes:] *)
Definition time_limit (e : env) : option Z :=
  match time_limit_minutes e with
  | Some m => if m =? 0 then None else Some m
  | None => None
  end.

(** [(time.time() - start_overall) / 60.0] *)
Definition elapsed_minutes (start_overall now : float) : float :=
  PrimFloat.div (PrimFloat.sub now start_overall) 60%float.

(** The statuses on which the callback looks at the steering log. *)
Definition is_milestone (status : string) : bool :=
  bool_decide (status ∈ ["analyzing"; "decision"; "executing"]%string).

(** The steering part of [_cb]: on a milestone, a new directive that is
    global marks the replan, asks the agent to abort and is consumed.
    [request_abort] belongs to the agent, which is not among the sources: it
    is taken to set the flag [_abort_requested] that [run] reads after the
    worker returns. *)
Definition steer_check (status : string) (s : state S) : state S :=
  if is_milestone status then
    match _find_latest_urgent_steer (disk_of s) with
    | Some ent =>
        let latest := text ent in
        if truthy latest && negb (bool_decide (Some latest = _last_replan_steer s)) then
          if _is_global_steer latest
          then consume ent (with_abort true (with_last_replan (Some latest) s))
          else s
        else s
    | None => s
    end
  else s.

(** [_cb]: the progress callback handed to the worker. *)
Definition _cb (e : env) (start_overall : float) (status : string) (s : state S)
  : result () * state S :=
  let '(up, s1) :=
    match time_limit e with
    | Some m =>
        let '(now, s') := time e s in
        (PrimFloat.leb (float_of_int m) (elapsed_minutes start_overall now), s')
    | None => (false, s)
    end in
  if up then (Raise TimeLimitReached, s1)
  else (Ok (), steer_check status s1).

(** An operator appends a line to [steering.jsonl]. *)
Definition append_line (l : line) (s : state S) : state S :=
  let d := disk_of s in
  with_disk {| steering_jsonl := Some (default [] (steering_jsonl d) ++ [l]);
               steering_cursor := steering_cursor d;
               cursor_writable := cursor_writable d;
               float_of_str := float_of_str d |} s.

(** The worker goes through its script; an exception of the callback
    unwinds it at once. *)
Fixpoint run_steps (e : env) (start_overall : float) (todo : list worker_step)
         (s : state S) : result () * state S :=
  match todo with
  | [] => (Ok (), s)
  | Progress status :: rest =>
      match _cb e start_overall status s with
      | (Ok _, s') => run_steps e start_overall rest s'
      | (Raise ex, s') => (Raise ex, s')
      end
  | OperatorWrites l :: rest => run_steps e start_overall rest (append_line l s)
  end.

(** [self.agent.investigate(inv.goal, ..., progress_callback=_cb)] *)
Definition investigate (e : env) (start_overall : float) (g : string) (s : state S)
  : result report * state S :=
  let sc := worker e (worker_calls s) in
  match run_steps e start_overall (steps sc) (with_worker_call g s) with
  | (Raise ex, s1) => (Raise ex, s1)
  | (Ok _, s1) =>
      match ending sc with
      | Returns r => (Ok r, s1)
      | Raises ex => (Raise ex, s1)
      end
  end.

(** The frame that replaces the current one on a steering override; it has
    no [frame_id] attribute. *)
Definition override_frame (urgent : string) : investigation :=
  {| goal := urgent; focus_areas := []; inv_priority := 10;
     reasoning := "User steering override";
     category := "suspicion"; expected_impact := "high";
     inv_frame_id := None |}.

(** The check at the head of each turn of [for idx, inv in enumerate(items)]. *)
Definition steer_override (inv : investigation) (s : state S)
  : investigation * state S :=
  match _find_latest_urgent_steer (disk_of s) with
  | Some urgent_ent =>
      let urgent := text urgent_ent in
      if truthy urgent
         && negb (bool_decide (Some urgent = _last_applied_steer s))
         && negb (bool_decide (goal inv = urgent))
      then (override_frame urgent,
            consume urgent_ent (with_last_applied (Some urgent) s))
      else (inv, s)
  | None => (inv, s)
  end.

(** [self.plan_store.update_status(fid, status, rationale=...)] inside its
    [try]: nothing happens without a store or when the call raises. *)
Definition mark (fid : string) (st : PlanStatus) (why : string) (s : state S) : state S :=
  match plan_store s with
  | Some ps =>
      match update_status ps fid st why with
      | Ok (_, ps') => with_store (Some ps') s
      | Raise _ => s
      end
  | None => s
  end.

(** The variables of [run] a batch changes. *)
Record locals := {
  results : list (investigation * report);
  time_up : bool;
  executed_frames : gset string;
}.

Inductive flow := Continue | Break.

(** After the worker returned: an abort leaves the frame as it is and breaks
    out to plan again; otherwise the outcome is recorded and the frame marked
    DONE. *)
Definition finish (inv : investigation) (r : report) (s : state S) (loc : locals)
  : result flow * state S * locals :=
  if _abort_requested s then (Ok Break, with_abort false s, loc)
  else
    let loc' := {| results := results loc ++ [(inv, r)];
                   time_up := time_up loc;
                   executed_frames :=
                     match real_id (inv_frame_id inv) with
                     | Some fid => {[ fid ]} ∪ executed_frames loc
                     | None => executed_frames loc
                     end |} in
    let s1 := with_completed (completed_investigations s ++ [goal inv]) s in
    let s2 := match real_id (inv_frame_id inv) with
              | Some fid => mark fid DONE "Completed investigation" s1
              | None => s1
              end in
    (Ok Continue, s2, loc').

Definition timed_out (loc : locals) : locals :=
  {| results := results loc; time_up := true;
     executed_frames := executed_frames loc |}.

(** The worker call with its handlers: a time limit raised by the callback
    sets [time_up] and breaks; another exception is retried once. *)
Definition attempt (e : env) (start_overall : float) (inv : investigation)
           (s : state S) (loc : locals) : result flow * state S * locals :=
  match investigate e start_overall (goal inv) s with
  | (Ok r, s1) => finish inv r s1 loc
  | (Raise TimeLimitReached, s1) => (Ok Break, s1, timed_out loc)
  | (Raise KeyboardInterrupt, s1) => (Raise KeyboardInterrupt, s1, loc)
  | (Raise _, s1) =>
      match investigate e start_overall (goal inv) s1 with
      | (Ok r, s2) => finish inv r s2 loc
      | (Raise TimeLimitReached, s2) => (Ok Break, s2, timed_out loc)
      | (Raise ex, s2) => (Raise ex, s2, loc)
      end
  end.

(** One turn of [for idx, inv in enumerate(items)]. *)
Definition frame_step (e : env) (start_overall : float) (inv0 : investigation)
           (s : state S) (loc : locals) : result flow * state S * locals :=
  let '(inv, s1) := steer_override inv0 s in
  let '(stop, s2) :=
    match time_limit e with
    | Some m =>
        let '(now, s') := time e s1 in
        let remaining_minutes :=
          PrimFloat.sub (float_of_int m) (elapsed_minutes start_overall now) in
        (PrimFloat.leb remaining_minutes 0, s')
    | None => (false, s1)
    end in
  if stop then (Ok Break, s2, loc)
  else
    match real_id (inv_frame_id inv) with
    | Some fid =>
        if bool_decide (fid ∈ executed_frames loc)
        then (Ok Continue, mark fid DROPPED "Skipped duplicate within run" s2, loc)
        else
          let s3 := mark fid IN_PROGRESS "Execution started" s2 in
          let '(_, s4) := time e s3 in
          attempt e start_overall inv s4 loc
    | None =>
        let '(_, s4) := time e s2 in
        attempt e start_overall inv s4 loc
    end.

(** [for idx, inv in enumerate(items)] *)
Fixpoint run_batch (e : env) (start_overall : float) (items : list investigation)
         (s : state S) (loc : locals) : result () * state S * locals :=
  match items with
  | [] => (Ok (), s, loc)
  | inv :: rest =>
      match frame_step e start_overall inv s loc with
      | (Ok Continue, s', loc') => run_batch e start_overall rest s' loc'
      | (Ok Break, s', loc') => (Ok (), s', loc')
      | (Raise ex, s', loc') => (Raise ex, s', loc')
      end
  end.

(** What [run] leaves: the status it finalizes the session with, or the
    exception it raises, and the investigations it completed. *)
Record outcome := {
  final_status : result string;
  final_state : state S;
  final_results : list (investigation * report);
}.

(** The end of [run]:
    [final_status = 'interrupted' if time_up else 'completed']. *)
Definition finalize (s : state S) (res : list (investigation * report)) (up : bool)
  : outcome :=
  {| final_status := Ok (if up then "interrupted" else "completed")%string;
     final_state := s; final_results := res |}.

(** The planning call of [run]: made under the console status, and made
    again without it when that raises. *)
Definition plan_batch (e : env) (n : Z) (s : state S)
  : result (list investigation) * state S :=
  match _plan_investigations e n s with
  | (Ok items, s1) => (Ok items, s1)
  | (Raise KeyboardInterrupt, s1) => (Raise KeyboardInterrupt, s1)
  | (Raise _, s1) => _plan_investigations e n s1
  end.

(** [while True:] of [run], one planning round per unit of fuel. *)
Fixpoint rounds (fuel : nat) (e : env) (plan_n : Z) (start_overall : float)
         (s : state S) (res : list (investigation * report)) : option outcome :=
  match fuel with
  | O => None
  | Datatypes.S fuel' =>
      let '(up, s1) :=
        match time_limit e with
        | Some m =>
            let '(now, s') := time e s in
            (PrimFloat.leb (float_of_int m) (elapsed_minutes start_overall now), s')
        | None => (false, s)
        end in
      if up then Some (finalize s1 res false)
      else
        match plan_batch e (Z.max 1 plan_n) s1 with
        | (Raise ex, s2) =>
            Some {| final_status := Raise ex; final_state := s2; final_results := res |}
        | (Ok [], s2) => Some (finalize s2 res false)
        | (Ok items, s2) =>
            match run_batch e start_overall items s2
                    {| results := res; time_up := false; executed_frames := ∅ |} with
            | (Raise ex, s3, loc) =>
                Some {| final_status := Raise ex; final_state := s3;
                        final_results := results loc |}
            | (Ok _, s3, loc) =>
                if time_up loc then Some (finalize s3 (results loc) true)
                else rounds fuel' e plan_n start_overall s3 (results loc)
            end
        end
  end.

(** [run] *)
Definition run (fuel : nat) (e : env) (plan_n : Z) (s : state S) : option outcome :=
  let '(start_overall, s0) := time e s in
  rounds fuel e plan_n start_overall s0 [].

(** The status the command [agent] leaves in the session: the one [run]
    finalized, ['interrupted'] on a keyboard interrupt, ['failed'] on any
    other exception. *)
Definition terminal_status (o : outcome) : string :=
  match final_status o with
  | Ok st => st
  | Raise KeyboardInterrupt => "interrupted"
  | Raise _ => "failed"
  end.

End Scheduler.

End Agent.

(** ** Notions the statements use *)

Module Notions.
Import Steering PlanStore Agent.

(** The invariant of the cursor file: it never holds a negative number (nor
    a NaN). It holds when the file is missing, and [_consume_steer], the only
    writer, keeps it. *)
Definition cursor_ok (d : disk) : Prop :=
  PrimFloat.leb 0 (_get_last_consumed_steer_ts d) = true.

(** The text of a directive matches the urgent classifier. *)
Definition urgent_text (t : string) : bool :=
  any_in verbs (lower t) || any_in globals (lower t).



Section WithStore.
Context {S : Type} `{!Store S}.


(** The state after the clock was read for a time check, if one is made. *)
Definition after_time_check (e : env) (s : state S) : state S :=
  match time_limit e with
  | Some _ => with_ticks (Datatypes.S (ticks s)) s
  | None => s
  end.

(** The deadline has not passed at the check made before a frame starts. *)
Definition frame_in_time (e : env) (start_overall : float) (s : state S) : Prop :=
  ∀ m, time_limit e = Some m →
       PrimFloat.leb
         (PrimFloat.sub (float_of_int m)
            (elapsed_minutes start_overall (clock e (ticks s)))) 0 = false.

End WithStore.

End Notions.

(** ** Runs for the examples *)

Module Examples.
Import Steering PlanStore Agent.

(** A frame of session [s1] in the store of the specification. *)
Definition planned_frame (g : string) (p : Z) (st : PlanStatus) : frame :=
  {| frame_id := Some (spec_frame_id "s1" g []); question := g;
     artifact_refs := []; priority := p; rationale := ""; status := st |}.

Definition candidate (g : string) : proposal :=
  {| p_goal := g; p_focus_areas := []; p_priority := 5; p_reasoning := "";
     p_category := "aspect"; p_expected_impact := "medium" |}.

(** A project directory without steering files. *)
Definition no_steering : disk :=
  {| steering_jsonl := None; steering_cursor := None;
     cursor_writable := true; float_of_str := λ _, Raise ValueError |}.

(** A steering log that holds one directive, written at time 100. *)
Definition one_directive (text : string) : disk :=
  {| steering_jsonl := Some [directive 100 text]; steering_cursor := None;
     cursor_writable := true; float_of_str := λ _, Raise ValueError |}.

(** A runner that has just been initialized on the given store. *)
Definition fresh (frames : list frame) (d : disk) : state (list frame) :=
  {| disk_of := d; plan_store := Some frames;
     _last_applied_steer := None; _last_replan_steer := None;
     _abort_requested := false; completed_investigations := [];
     ticks := 0; strategist_calls := 0; worker_calls := 0; investigated := [] |}.

Definition a_report : report := {| iterations_completed := 2; hypotheses_total := 1 |}.

(** A worker call that reports two steps and returns. *)
Definition quiet : script :=
  {| steps := [Progress "decision"; Progress "executing"]; ending := Returns a_report |}.

(** A worker call during which an operator writes a directive. *)
Definition steered (text : string) : script :=
  {| steps := [ Progress "decision"; OperatorWrites (directive 100 text);
                Progress "executing"; Progress "executing" ];
     ending := Returns a_report |}.

(** A run of session [s1] whose strategist proposes nothing. *)
Definition plain (limit : option Z) (clock : nat → float) (worker : nat → script) : env :=
  {| session_id := "s1"; agent_id := "agent"; time_limit_minutes := limit;
     clock := clock; strategist := λ _ _, Ok []; worker := worker |}.

(** One minute allowed; the clock reads 0 s when [run] starts and 61 s from
    its [k]-th reading on. *)
Definition late_from (k : nat) : env :=
  plain (Some 1) (λ n, if (n <? k)%nat then 0%float else 61%float) (λ _, quiet).

(** One minute allowed; the first investigation reports its two steps 30 s
    and 59 s after the start, and the clock reads 61 s afterwards. *)
Definition late_after_first_frame : env :=
  plain (Some 1)
        (λ n, if (n <? 4)%nat then 0%float
              else if (n =? 4)%nat then 30%float
              else if (n =? 5)%nat then 59%float
              else 61%float)
        (λ _, quiet).

(** No time limit; the strategist proposes the same goal twice in the first
    round and once more in the second. *)
Definition reproposing : env :=
  {| session_id := "s1"; agent_id := "agent"; time_limit_minutes := None;
     clock := λ _, 0%float;
     strategist := λ k _,
       match k with
       | O => Ok [candidate "audit token transfer"; candidate "audit token transfer"]
       | 1%nat => Ok [candidate "audit token transfer"]
       | _ => Ok []
       end;
     worker := λ _, quiet |}.

(** No time limit; an operator writes [text] during the first worker call. *)
Definition steered_run (text : string) : env :=
  plain None (λ _, 0%float) (λ k, match k with O => steered text | _ => quiet end).

(** A store on a disk that has become read-only: it lists and finds its
    frames as the store of the specification does, and raises on every
    write. *)
Definition read_only_store : Store (list frame) :=
  {| list_frames frames _ st := Ok (spec_list frames st);
     propose _ _ _ _ _ _ _ := Raise OSError;
     get frames fid := Ok (find (has_id fid) frames);
     update_status _ _ _ _ := Raise OSError |}.

(** What the examples look at in an outcome: the status, the goals handed to
    the worker, and the statuses in the store. *)
Definition summary (o : option (@outcome (list frame)))
  : option (string * list string * list PlanStatus) :=
  (λ o, (terminal_status o, investigated (final_state o),
         status <$> default [] (plan_store (final_state o)))) <$> o.

End Examples.

(** ** commands/agent.py: the helpers of the dashboard and of the live display *)

Module Dashboard.
Import Steering.

(** [s[:k]] on a string: a negative [k] counts from the end. *)
Definition str_slice_to (k : Z) (s : string) : string :=
  if k >=? 0 then substring 0 (Z.to_nat k) s
  else substring 0 (String.length s - Z.to_nat (- k)) s.

(** [_shorten] of [run_investigation], on a string or [None]. *)
Definition _shorten (s : option string) (n : Z) : string :=
  match s with
  | Some s =>
      if Z.of_nat (String.length s) >? n
      then (str_slice_to (n - 3) s +:+ "...")%string
      else s
  | None => ""%string
  end.

(** [obj.get(key, dflt)]: [AttributeError] unless [obj] is a dict. *)
Definition json_get_or (obj : json) (key : string) (dflt : json) : result json :=
  match obj with
  | JObj items =>
      Ok (default dflt
            ((λ r, r.2.2) <$> list_find (λ kv, bool_decide (kv.1 = key)) items))
  | _ => Raise AttributeError
  end.

(** [len(v)]: [TypeError] on [None], a bool and a number. *)
Definition json_len (v : json) : result Z :=
  match v with
  | JObj items => Ok (Z.of_nat (length items))
  | JArr l => Ok (Z.of_nat (length l))
  | JStr s => Ok (Z.of_nat (String.length s))
  | JNull | JBool _ | JNum _ => Raise TypeError
  end.

(** [v == s] for a string literal [s]. *)
Definition json_is (v : json) (s : string) : bool :=
  match v with
  | JStr t => bool_decide (t = s)
  | _ => false
  end.

(** The dict [_hypothesis_stats] returns. *)
Record stats := {
  total : Z;
  confirmed : Z;
  rejected : Z;
  uncertain : Z;
}.

(** One turn of [for _, h in hyps.items()]. *)
Definition count_status (h : json) (st : stats) : result stats :=
  v ← json_get_or h "status" (JStr "proposed");
  Ok (if json_is v "confirmed" then
        {| total := total st; confirmed := confirmed st + 1;
           rejected := rejected st; uncertain := uncertain st |}
      else if json_is v "rejected" then
        {| total := total st; confirmed := confirmed st;
           rejected := rejected st + 1; uncertain := uncertain st |}
      else
        {| total := total st; confirmed := confirmed st;
           rejected := rejected st; uncertain := uncertain st + 1 |}).

(** The loop, inside the [try]: an exception leaves [stats] as the turns
    before it made it. *)
Fixpoint count_statuses (items : list (string * json)) (st : stats) : stats :=
  match items with
  | [] => st
  | (_, h) :: rest =>
      match count_status h st with
      | Ok st' => count_statuses rest st'
      | Raise _ => st
      end
  end.

(** [_hypothesis_stats]. [hyp_file] is what the function finds on disk:
    [None] without a project directory or without [hypotheses.json], else
    what [json.loads] makes of the file ([None] when reading or decoding
    raises). *)
Definition _hypothesis_stats (hyp_file : option (option json)) : stats :=
  let stats := {| total := 0; confirmed := 0; rejected := 0; uncertain := 0 |} in
  match hyp_file with
  | Some (Some data) =>
      match json_get_or data "hypotheses" (JObj []) with
      | Ok hyps =>
          match json_len hyps with
          | Ok n =>
              let stats := {| total := n; confirmed := 0; rejected := 0;
                              uncertain := 0 |} in
              match hyps with
              | JObj items => count_statuses items stats
              | _ => stats
              end
          | Raise _ => stats
          end
      | Raise _ => stats
      end
  | _ => stats
  end.

(** An investigation of the session data, its keys read with their
    defaults: the goal, [iterations_completed] and the [total] of
    [hypotheses]. *)
Record session_investigation := {
  si_goal : string;
  si_iterations : Z;
  si_total_hyp : Z;
}.

(** [str(z)] on an int. *)
Definition str_of_int (z : Z) : string := NilZero.string_of_int (Z.to_int z).

(** [f"{goal} ({iterations} iterations, {total_hyp} hypotheses)"] *)
Definition result_str (inv : session_investigation) : string :=
  (si_goal inv +:+ " (" +:+ str_of_int (si_iterations inv) +:+ " iterations, "
   +:+ str_of_int (si_total_hyp inv) +:+ " hypotheses)")%string.

(** One turn of [for goal in self.completed_investigations]. *)
Definition add_missing (results : list string) (goal : string) : list string :=
  if existsb (λ r, contains r goal) results then results else results ++ [goal].

(** [_get_investigation_results_summary]; [session_tracker] holds the
    investigations of the session data, [None] without a tracker. *)
Definition _get_investigation_results_summary
           (session_tracker : option (list session_investigation))
           (completed_investigations : list string) : list string :=
  match session_tracker with
  | None => completed_investigations
  | Some investigations =>
      fold_left add_missing completed_investigations (result_str <$> investigations)
  end.

(** The status one turn of the loop of [_hypothesis_stats] reads from a
    hypothesis is the string [s]. *)
Definition has_status (s : string) (h : json) : bool :=
  match json_get_or h "status" (JStr "proposed") with
  | Ok v => json_is v s
  | Raise _ => false
  end.

End Dashboard.

(* ================================================================== *)
(** * Theorems *)
(* ================================================================== *)

(** ** Pricing *)

Module PricingFacts.
Import Pricing TieredSpec.

Lemma find_start_tier_spec cum ts i cur :
  let r := find_start_tier cum ts i cur in
  (r = cur ∧ (ts = [] ∨ ∃ t rest, ts = t :: rest ∧ cum < threshold t))
  ∨ (∃ k, r = (i + k)%nat ∧
          (∃ tr, ts !! k = Some tr ∧ threshold tr <= cum) ∧
          (∀ nx, ts !! S k = Some nx → cum < threshold nx)).
Proof.
  revert i cur. induction ts as [|t rest IH]; intros i cur; simpl.
  - left. split; [done | by left].
  - destruct (Z.geb_spec cum (threshold t)) as [Hge|Hlt].
    + right. destruct (IH (S i) i) as [[Hr Hcase]|(k & Hr & Hk & Hnx)].
      * exists 0%nat. rewrite Hr. split; [lia|]. split.
        -- exists t. split; [done | lia].
        -- intros nx Hnx. simpl in Hnx.
           destruct Hcase as [->|(t' & rest' & -> & Hlt)]; [done|].
           simpl in Hnx. by simplify_eq.
      * exists (S k). rewrite Hr. split; [lia|]. split; [done|].
        intros nx Hnx'. by apply Hnx.
    + left. split; [done|]. right. exists t, rest. split; [done | lia].
Qed.

(** Started on tiers whose first threshold the cumulative count has
    reached, the first loop stops on the tier the count falls into. *)
Lemma find_start_tier_falls_into cum t0 rest :
  threshold t0 <= cum →
  falls_into (t0 :: rest) cum (find_start_tier cum (t0 :: rest) 0 0).
Proof.
  intros H0.
  destruct (find_start_tier_spec cum (t0 :: rest) 0 0) as [[_ Hcase]|(k & Hr & Hk & Hnx)].
  - destruct Hcase as [?|(t & r & ? & ?)]; [done|]. simplify_eq. lia.
  - rewrite Hr. simpl. by split.
Qed.

(** On sorted tiers that tier is the only one. *)
Lemma falls_into_unique tiers cum t t' :
  sorted tiers → falls_into tiers cum t → falls_into tiers cum t' → t = t'.
Proof.
  intros Hs [(tr & Htr & Hle) Hup] [(tr' & Htr' & Hle') Hup'].
  destruct (lt_eq_lt_dec t t') as [[Hlt | -> ] | Hgt]; [|done|].
  - destruct (lookup_lt_is_Some_2 tiers (S t)) as [nx Hnx].
    { apply lookup_lt_Some in Htr'. lia. }
    specialize (Hup _ Hnx). specialize (Hs (S t) t' nx tr' ltac:(lia) Hnx Htr'). lia.
  - destruct (lookup_lt_is_Some_2 tiers (S t')) as [nx Hnx].
    { apply lookup_lt_Some in Htr. lia. }
    specialize (Hup' _ Hnx). specialize (Hs (S t') t nx tr ltac:(lia) Hnx Htr). lia.
Qed.

(** One iteration of the second loop. *)
Lemma loop_body_step tiers unit ct s t :
  unit ≠ 0 → tiers !! current_tier_idx s = Some t →
  let n := match tiers !! S (current_tier_idx s) with
           | Some next => Z.min (tokens_remaining s) (threshold next - current_cumulative s)
           | None => tokens_remaining s
           end in
  loop_body tiers unit ct s
  = Ok {| total_cost := charge unit ct (total_cost s) (n, t);
          tokens_remaining := tokens_remaining s - n;
          current_cumulative := current_cumulative s + n;
          current_tier_idx := S (current_tier_idx s) |}.
Proof.
  intros Hunit Hcur n. unfold loop_body. rewrite Hcur.
  unfold truediv. destruct (Z.eqb_spec unit 0) as [?|_]; [done|].
  reflexivity.
Qed.

(** The second loop, entered at index [idx], adds to [total_cost] the
    charges of the tiers from [idx] on. *)
Lemma while_loop_charges tiers unit ct :
  unit ≠ 0 →
  ∀ sfx fuel s,
    drop (current_tier_idx s) tiers = sfx →
    (length sfx < fuel)%nat →
    ∃ s', while fuel (loop_cond tiers) (loop_body tiers unit ct) s = Some (Ok s')
          ∧ total_cost s' =
              fold_left (charge unit ct)
                (charges sfx (current_cumulative s) (tokens_remaining s))
                (total_cost s).
Proof.
  intros Hunit. induction sfx as [|t rest IH]; intros fuel s Hdrop Hfuel.
  - destruct fuel as [|fuel]; [simpl in Hfuel; lia|]. simpl.
    assert (length tiers <= current_tier_idx s)%nat as Hlen.
    { apply (f_equal length) in Hdrop. rewrite length_drop in Hdrop. simpl in Hdrop. lia. }
    unfold loop_cond. replace (current_tier_idx s <? length tiers)%nat with false
      by (symmetry; apply Nat.ltb_ge; lia).
    rewrite andb_false_r. by exists s.
  - destruct fuel as [|fuel]; [simpl in Hfuel; lia|]. simpl in Hfuel.
    assert (tiers !! current_tier_idx s = Some t) as Hcur.
    { rewrite <- (Nat.add_0_r (current_tier_idx s)), <- lookup_drop, Hdrop. done. }
    assert (drop (S (current_tier_idx s)) tiers = rest) as Hrest.
    { rewrite (drop_S _ _ _ Hcur) in Hdrop. by simplify_eq. }
    cbn [while]. unfold loop_cond at 1.
    replace (current_tier_idx s <? length tiers)%nat with true
      by (symmetry; apply Nat.ltb_lt; by eapply lookup_lt_Some).
    rewrite andb_true_r. cbn [charges].
    destruct (Z.leb_spec (tokens_remaining s) 0) as [Hle|Hgt].
    + replace (tokens_remaining s >? 0) with false
        by (symmetry; rewrite Z.gtb_ltb; apply Z.ltb_ge; lia).
      by exists s.
    + replace (tokens_remaining s >? 0) with true
        by (symmetry; rewrite Z.gtb_ltb; apply Z.ltb_lt; lia).
      rewrite (loop_body_step _ _ _ _ _ Hunit Hcur).
      assert (tiers !! S (current_tier_idx s) = rest !! 0%nat) as ->.
      { rewrite <- Hrest, lookup_drop. f_equal. lia. }
      destruct rest as [|next rest']; cbn [lookup list_lookup].
      * edestruct (IH fuel) as (s' & Hrun & Htot); [| |rewrite Hrun].
        { cbn [current_tier_idx]. exact Hrest. }
        { simpl. lia. }
        exists s'. split; [done|]. rewrite Htot. done.
      * edestruct (IH fuel) as (s' & Hrun & Htot); [| |rewrite Hrun].
        { cbn [current_tier_idx]. exact Hrest. }
        { simpl in *. lia. }
        exists s'. split; [done|]. rewrite Htot. done.
Qed.

(** [_calculate_tiered_cost] refines the rule of the specification. *)
Lemma tiered_cost_refines fuel tokens cum tiers unit ct t0 :
  unit ≠ 0 → (length tiers < fuel)%nat →
  head tiers = Some t0 → threshold t0 <= cum →
  ∃ t, falls_into tiers cum t ∧
       _calculate_tiered_cost fuel tokens cum tiers unit ct
       = Some (Ok (cost unit ct (charges (drop t tiers) cum tokens))).
Proof.
  intros Hunit Hfuel Hhd H0.
  destruct tiers as [|t0' rest]; [done|]. simpl in Hhd. simplify_eq.
  exists (find_start_tier cum (t0 :: rest) 0 0).
  split; [by apply find_start_tier_falls_into|].
  unfold _calculate_tiered_cost. rewrite orb_false_r.
  destruct (Z.eqb_spec tokens 0) as [->|Hne].
  - f_equal. f_equal. unfold cost.
    destruct (drop _ _); [done|]. done.
  - set (s0 := {| total_cost := 0%float; tokens_remaining := tokens;
                  current_cumulative := cum;
                  current_tier_idx := find_start_tier cum (t0 :: rest) 0 0 |}).
    destruct (while_loop_charges (t0 :: rest) unit ct Hunit
                (drop (current_tier_idx s0) (t0 :: rest)) fuel s0 eq_refl)
      as (s' & Hrun & Htot).
    { rewrite length_drop. lia. }
    rewrite Hrun, Htot. done.
Qed.

(** The charges add up to the tokens of the call: the last tier takes what
    the tiers before it left. *)
Lemma charges_total tiers cum rem :
  tiers ≠ [] → 0 < rem →
  fold_right Z.add 0 (fst <$> charges tiers cum rem) = rem.
Proof.
  revert cum rem. induction tiers as [|t rest IH]; intros cum rem Hne Hpos; [done|].
  cbn [charges]. destruct (Z.leb_spec rem 0) as [?|_]; [lia|].
  destruct rest as [|next rest']; [simpl; lia|].
  cbv zeta. cbn [fmap list_fmap fold_right fst].
  set (n := Z.min rem (threshold next - cum)).
  destruct (Z.eq_dec n rem) as [Heq|Hlt].
  - rewrite Heq, Z.sub_diag. simpl. lia.
  - change (list_fmap _ _ fst ?l) with (fst <$> l).
    rewrite (IH (cum + n) (rem - n)); [lia|done|lia].
Qed.

(** *** The tiers of a loaded cache are sorted *)

Definition le_threshold (a b : tier) : Prop := threshold a <= threshold b.

Lemma insert_tier_Forall (P : tier → Prop) t l :
  P t → Forall P l → Forall P (insert_tier t l).
Proof.
  intros Ht. induction 1 as [|x r Hx Hr IH]; simpl.
  - by constructor.
  - destruct (threshold t <? threshold x); repeat constructor; done.
Qed.

Lemma insert_tier_sorted t l :
  StronglySorted le_threshold l → StronglySorted le_threshold (insert_tier t l).
Proof.
  induction 1 as [|x r Hr IH Hx]; simpl.
  - repeat constructor.
  - destruct (Z.ltb_spec (threshold t) (threshold x)) as [Hlt|Hge].
    + constructor; [by constructor|].
      constructor; [unfold le_threshold; lia|].
      eapply Forall_impl; [exact Hx|]. unfold le_threshold. intros; lia.
    + constructor; [done|]. by apply insert_tier_Forall.
Qed.

Lemma sort_tiers_sorted tiers : StronglySorted le_threshold (sort_tiers tiers).
Proof.
  unfold sort_tiers.
  assert (∀ acc, StronglySorted le_threshold acc →
                 StronglySorted le_threshold
                   (fold_left (λ acc t, insert_tier t acc) tiers acc)) as H.
  { induction tiers as [|t r IH]; intros acc Hacc; simpl; [done|].
    apply IH. by apply insert_tier_sorted. }
  apply H. constructor.
Qed.

Lemma StronglySorted_sorted l : StronglySorted le_threshold l → sorted l.
Proof.
  induction 1 as [|x r Hr IH Hx]; intros i j ti tj Hij Hi Hj.
  - done.
  - destruct i as [|i], j as [|j]; simpl in *; simplify_eq.
    + lia.
    + rewrite Forall_forall in Hx. apply Hx.
      by eapply list_elem_of_lookup_2.
    + lia.
    + eapply (IH i j); [lia|done..].
Qed.

Definition tiers_sorted (p : pricing) : Prop :=
  match p with
  | Tiered _ tiers => sorted tiers
  | _ => True
  end.

Lemma load_model_sorted cache m :
  map_Forall (λ _ p, tiers_sorted p) cache →
  map_Forall (λ _ p, tiers_sorted p) (load_model cache m).
Proof.
  intros Hc. destruct m as [|provider model [p|]]; simpl; [done| |done].
  destruct (pricing_cfg_empty p); [done|].
  destruct (cfg_tiers p) as [tiers|].
  - apply map_Forall_insert_2; [|done]. simpl.
    apply StronglySorted_sorted, sort_tiers_sorted.
  - by apply map_Forall_insert_2.
Qed.

Lemma _load_pricing_sorted models key unit tiers :
  _load_pricing models !! key = Some (Tiered unit tiers) → sorted tiers.
Proof.
  unfold _load_pricing.
  assert (∀ cache, map_Forall (λ _ p, tiers_sorted p) cache →
                   map_Forall (λ _ p, tiers_sorted p)
                     (fold_left (λ cache pm, load_model cache pm.2) models cache)) as H.
  { induction models as [|pm r IH]; intros cache Hc; simpl; [done|].
    apply IH. by apply load_model_sorted. }
  intros Hk. exact (H ∅ (map_Forall_empty _) key _ Hk).
Qed.

End PricingFacts.

Import Pricing TieredSpec PricingFacts.

(** C1. For every tiered-priced model loaded from the configuration,
    [calculate_cost] charges each side of the call tier by tier from the one
    tier the cumulative count falls into (the tier [t] with
    [threshold[t] <= cumulative < threshold[t+1]]): [min(remaining,
    threshold[t+1] - cumulative)] tokens at the rate of [t], then on into the
    later tiers, the last one taking all that remains.  And on the tiers
    [{0, $10}, {1000, $5}] per 1000 tokens, with 800 cumulative input tokens,
    500 new input tokens cost exactly $3.50. *)
Theorem calculate_cost_tiered_refines_spec :
  (∀ models model_key unit tiers first fuel
     input_tokens output_tokens cumulative_input cumulative_output,
      _load_pricing models !! model_key = Some (Tiered unit tiers) →
      unit ≠ 0 →
      (length tiers < fuel)%nat →
      head tiers = Some first →
      threshold first <= cumulative_input →
      threshold first <= cumulative_output →
      ∃ t_in t_out,
        (falls_into tiers cumulative_input t_in
         ∧ ∀ t, falls_into tiers cumulative_input t → t = t_in)
        ∧ (falls_into tiers cumulative_output t_out
           ∧ ∀ t, falls_into tiers cumulative_output t → t = t_out)
        ∧ let input_cost :=
            cost unit InputCost (charges (drop t_in tiers) cumulative_input input_tokens) in
          let output_cost :=
            cost unit OutputCost (charges (drop t_out tiers) cumulative_output output_tokens) in
          calculate_cost fuel (_load_pricing models) model_key
            input_tokens output_tokens cumulative_input cumulative_output
          = Some (Ok (input_cost, output_cost, PrimFloat.add input_cost output_cost)))
  ∧ calculate_cost 3 (_load_pricing example_models) "OpenAI:gpt-5" 500 0 800 0
    = Some (Ok (3.5%float, 0%float, 3.5%float)).
Proof.
  split; [|vm_compute; reflexivity].
  intros models model_key unit tiers first fuel it ot ci co Hkey Hunit Hfuel Hhd Hci Hco.
  pose proof (_load_pricing_sorted _ _ _ _ Hkey) as Hsorted.
  destruct (tiered_cost_refines fuel it ci tiers unit InputCost first)
    as (t_in & Hin & Hcin); [done..|].
  destruct (tiered_cost_refines fuel ot co tiers unit OutputCost first)
    as (t_out & Hout & Hcout); [done..|].
  exists t_in, t_out. split; [|split].
  - split; [done|]. intros t Ht. by eapply falls_into_unique.
  - split; [done|]. intros t Ht. by eapply falls_into_unique.
  - cbv zeta. unfold calculate_cost. rewrite Hkey, Hcin, Hcout. reflexivity.
Qed.

Lemma calculate_cost_tiered_refines_spec_witness :
  ∃ t_in t_out,
    (falls_into example_tiers 800 t_in ∧ ∀ t, falls_into example_tiers 800 t → t = t_in)
    ∧ (falls_into example_tiers 0 t_out ∧ ∀ t, falls_into example_tiers 0 t → t = t_out)
    ∧ let input_cost := cost 1000 InputCost (charges (drop t_in example_tiers) 800 500) in
      let output_cost := cost 1000 OutputCost (charges (drop t_out example_tiers) 0 0) in
      calculate_cost 3 (_load_pricing example_models) "OpenAI:gpt-5" 500 0 800 0
      = Some (Ok (input_cost, output_cost, PrimFloat.add input_cost output_cost)).
Proof.
  apply (proj1 calculate_cost_tiered_refines_spec example_models "OpenAI:gpt-5"%string
           1000 example_tiers
           {| threshold := 0; input_cost := 10%float; output_cost := 10%float |}
           3%nat 500 0 800 0).
  - vm_compute. reflexivity.
  - lia.
  - simpl. lia.
  - reflexivity.
  - simpl. lia.
  - simpl. lia.
Defined.

(** C10. A model key without configured pricing, and an entry whose type is
    neither simple nor tiered, are billed [(0.0, 0.0, 0.0)]: no error is
    raised, whatever the token counts.  [has_pricing] is false exactly on the
    keys without an entry. *)
Theorem calculate_cost_unknown_model_is_free :
  ∀ fuel (cache : gmap string pricing) model_key
    input_tokens output_tokens cumulative_input cumulative_output,
    (cache !! model_key = None
     ∨ ∃ type unit, cache !! model_key = Some (OtherType type unit)) →
    calculate_cost fuel cache model_key
      input_tokens output_tokens cumulative_input cumulative_output
    = Some (Ok (0%float, 0%float, 0%float))
    ∧ (has_pricing cache model_key = false ↔ cache !! model_key = None).
Proof.
  intros fuel cache model_key it ot ci co H. split.
  - unfold calculate_cost. destruct H as [->|(ty & u & ->)]; reflexivity.
  - unfold has_pricing. rewrite bool_decide_eq_false, <- eq_None_not_Some. done.
Qed.

Lemma calculate_cost_unknown_model_is_free_witness :
  calculate_cost 0 (_load_pricing example_models) "Mock:unpriced" 1200 300 0 0
  = Some (Ok (0%float, 0%float, 0%float))
  ∧ (has_pricing (_load_pricing example_models) "Mock:unpriced" = false
     ↔ _load_pricing example_models !! "Mock:unpriced"%string = None).
Proof.
  apply (calculate_cost_unknown_model_is_free 0 (_load_pricing example_models)
           "Mock:unpriced"%string 1200 300 0 0).
  left. vm_compute. reflexivity.
Defined.

(** ** Token tracker *)

Module TokenTrackerFacts.
Import TokenTracker.

Lemma acquire_free fuel t :
  _lock t = false → acquire (S fuel) t = Some (set_lock true t).
Proof. intros H. simpl. by rewrite H. Qed.

(** A held lock is never acquired, whatever the fuel. *)
Lemma acquire_held fuel t : _lock t = true → acquire fuel t = None.
Proof. intros H. induction fuel as [|fuel IH]; simpl; [done|]. by rewrite H. Qed.

Lemma acquire_Some fuel t t' :
  acquire fuel t = Some t' → _lock t = false ∧ t' = set_lock true t.
Proof.
  destruct (_lock t) eqn:Hl.
  - by rewrite acquire_held.
  - destruct fuel as [|fuel]; [done|]. rewrite acquire_free by done.
    intros; by simplify_eq.
Qed.

Lemma get_summary_held fuel t : _lock t = true → get_summary fuel t = None.
Proof. intros H. unfold get_summary. by rewrite acquire_held. Qed.

End TokenTrackerFacts.

Import TokenTracker TokenTrackerFacts.

(** C9. On a tracker with no output file, [track_usage] returns and has
    appended exactly one record.  Once [set_output_file] has configured a
    file, [track_usage] does not return: the save runs inside the critical
    section, and [get_summary] waits there for the lock its own caller
    holds. *)
Theorem track_usage_returns_only_without_output_file :
  ∀ now provider model input_tokens output_tokens profile
    input_cost output_cost total_cost file_path (t : tracker) (fs : files),
    _lock t = false →
    _output_file t = None →
    (∀ fuel, ∃ t',
       track_usage (S fuel) now provider model input_tokens output_tokens profile
         input_cost output_cost total_cost t fs = Some (t', fs)
       ∧ usage_history t'
         = usage_history t
           ++ [ {| timestamp := now; provider := provider; model := model;
                   input_tokens := input_tokens; output_tokens := output_tokens;
                   total_tokens := input_tokens + output_tokens;
                   profile := profile; input_cost := input_cost;
                   output_cost := output_cost; total_cost := total_cost |} ]
       ∧ length (usage_history t') = S (length (usage_history t))
       ∧ _lock t' = false)
    ∧ ∃ t1 fs1,
        set_output_file 1 file_path t fs = Some (t1, fs1)
        ∧ _lock t1 = false
        ∧ ∀ fuel,
            track_usage fuel now provider model input_tokens output_tokens profile
              input_cost output_cost total_cost t1 fs1 = None.
Proof.
  intros now provider model it ot profile ic oc tc file_path t fs Hfree Hnone. split.
  - intros fuel. eexists.
    unfold track_usage. rewrite acquire_free by done. cbn [mbind option_bind].
    rewrite bool_decide_eq_false_2.
    + cbn [mbind option_bind release set_lock record_usage usage_history _lock].
      split; [reflexivity|]. split; [reflexivity|]. split; [|reflexivity].
      cbn. rewrite length_app. simpl. lia.
    + cbn. rewrite Hnone. by intros [? ?].
  - eexists _, _. split; [|split].
    + unfold set_output_file, _save_to_file, get_summary. cbn [_output_file].
      rewrite acquire_free by done. cbn. reflexivity.
    + reflexivity.
    + intros fuel. unfold track_usage.
      destruct fuel as [|fuel]; [done|].
      rewrite acquire_free by done. cbn [mbind option_bind].
      rewrite bool_decide_eq_true_2 by (cbn; eauto).
      unfold _save_to_file. cbn [_output_file record_usage set_lock release].
      rewrite get_summary_held by done. reflexivity.
Qed.

Lemma track_usage_returns_only_without_output_file_witness :
  (∀ fuel, ∃ t',
     track_usage (S fuel) "2025-01-01T00:00:00" "OpenAI" "gpt-5" 10 5 None
       0%float 0%float 0%float init ∅ = Some (t', ∅)
     ∧ usage_history t'
       = usage_history init
         ++ [ {| timestamp := "2025-01-01T00:00:00"; provider := "OpenAI";
                 model := "gpt-5"; input_tokens := 10; output_tokens := 5;
                 total_tokens := 10 + 5; profile := None; input_cost := 0%float;
                 output_cost := 0%float; total_cost := 0%float |} ]
     ∧ length (usage_history t') = S (length (usage_history init))
     ∧ _lock t' = false)
  ∧ ∃ t1 fs1,
      set_output_file 1 "usage.json" init ∅ = Some (t1, fs1)
      ∧ _lock t1 = false
      ∧ ∀ fuel,
          track_usage fuel "2025-01-01T00:00:00" "OpenAI" "gpt-5" 10 5 None
            0%float 0%float 0%float t1 fs1 = None.
Proof.
  apply (track_usage_returns_only_without_output_file
           "2025-01-01T00:00:00" "OpenAI" "gpt-5" 10 5 None
           0%float 0%float 0%float "usage.json" init ∅).
  - reflexivity.
  - reflexivity.
Defined.

(** ** Floats: the order facts the steering cursor needs *)

Module FloatFacts.

Lemma SFcompare_antisym x y : SFcompare y x = option_map CompOpp (SFcompare x y).
Proof.
  destruct x as [sx|sx| |sx mx ex], y as [sy|sy| |sy my ey]; simpl; try reflexivity;
    try (destruct sx; reflexivity); try (destruct sy; reflexivity);
    try (destruct sx, sy; reflexivity).
  assert (PosDef.Pos.compare_cont Eq my mx = CompOpp (PosDef.Pos.compare_cont Eq mx my)) as Hm.
  { change (PosDef.Pos.compare_cont Eq my mx) with (Pos.compare_cont (CompOpp Eq) my mx).
    symmetry. apply Pos.compare_cont_antisym. }
  rewrite (Z.compare_antisym ex ey), Hm.
  destruct sx, sy, (ex ?= ey)%Z, (PosDef.Pos.compare_cont Eq mx my); reflexivity.
Qed.




Lemma zero_SF : Prim2SF 0%float = S754_zero false.
Proof. reflexivity. Qed.

(** Above a cursor that is not negative, a timestamp is not zero, and not
    negative either. *)
Lemma above_nonneg a b :
  PrimFloat.leb 0 a = true → PrimFloat.ltb a b = true →
  PrimFloat.eqb b 0 = false ∧ PrimFloat.leb 0 b = true.
Proof.
  rewrite !FloatAxioms.leb_spec, FloatAxioms.ltb_spec, FloatAxioms.eqb_spec, zero_SF. unfold SFleb, SFltb, SFeqb.
  destruct (Prim2SF a) as [sx|sx| |sx mx ex], (Prim2SF b) as [sy|sy| |sy my ey]; simpl;
    try destruct sx; try destruct sy; simpl; intros; split; congruence.
Qed.


End FloatFacts.

(** ** Steering *)

Module SteeringFacts.
Import Steering Notions FloatFacts.

Lemma cursor_ok_missing d : steering_cursor d = None → cursor_ok d.
Proof. unfold cursor_ok, _get_last_consumed_steer_ts. by intros ->. Qed.

Lemma consume_accepts d ts :
  cursor_writable d = true → cursor_ok d →
  PrimFloat.ltb (_get_last_consumed_steer_ts d) ts = true →
  _consume_steer d ts
  = {| steering_jsonl := steering_jsonl d;
       steering_cursor := Some ts;
       cursor_writable := true;
       float_of_str := float_of_str d |}.
Proof.
  intros Hw Hok Hlt. unfold _consume_steer, float_truthy.
  destruct (above_nonneg _ _ Hok Hlt) as [-> _]. rewrite Hlt. simpl.
  unfold _set_last_consumed_steer_ts. by rewrite Hw.
Qed.


Lemma consume_cursor_ok d ts : cursor_ok d → cursor_ok (_consume_steer d ts).
Proof.
  intros Hok. unfold _consume_steer.
  destruct (float_truthy ts && _) eqn:Hc; [|done].
  apply andb_true_iff in Hc as [_ Hlt].
  unfold _set_last_consumed_steer_ts. destruct (cursor_writable d); [|done].
  unfold cursor_ok, _get_last_consumed_steer_ts. simpl.
  by destruct (above_nonneg _ _ Hok Hlt).
Qed.

(** A line [json.loads] rejects is kept, as its own text at timestamp 0. *)
Lemma read_line_malformed d l :
  loads l = None → truthy (strip (raw l)) = true →
  read_line d l = [ {| ts := 0%float; text := strip (raw l) |} ].
Proof.
  intros Hl Ht. unfold read_line, parse_entry. by rewrite Ht, Hl.
Qed.

Lemma last_slice_length {A} (limit : Z) (out : list A) :
  0 < limit → Z.of_nat (length (last_slice limit out)) <= limit.
Proof.
  intros Hpos. unfold last_slice.
  destruct (Z.gtb_spec limit 0) as [_|?]; [|lia].
  rewrite length_drop. lia.
Qed.

Lemma last_slice_zero {A} (out : list A) : last_slice 0 out = out.
Proof. reflexivity. Qed.

(** The slice is an end of the list: the order of the file is kept, the
    newest entries last. *)
Lemma last_slice_suffix {A} (limit : Z) (out : list A) :
  ∃ older, out = older ++ last_slice limit out.
Proof.
  unfold last_slice. destruct (limit >? 0).
  - exists (take (length out - Z.to_nat limit) out). by rewrite take_drop.
  - exists (take (Z.to_nat (- limit)) out). by rewrite take_drop.
Qed.

End SteeringFacts.

Import Steering Notions FloatFacts SteeringFacts.




(** C5. Reading the steering log never fails and keeps the order of the
    file, but a line that is not valid JSON is not left out: it comes back as
    an entry with timestamp 0 and the line as its text.  A limit of at least
    one bounds the length of the result; a limit of zero returns every
    entry. *)
Theorem read_steering_entries_keeps_malformed_lines :
  (∀ d l, loads l = None → truthy (strip (raw l)) = true →
          read_line d l = [ {| ts := 0%float; text := strip (raw l) |} ])
  ∧ _read_steering_entries (example_disk None) 80
    = [ {| ts := 5%float; text := "check the login function" |};
        {| ts := 0%float; text := "not json" |};
        {| ts := 7%float; text := "audit the Whole Codebase" |} ]
  ∧ (∀ d limit, 0 < limit →
                Z.of_nat (length (_read_steering_entries d limit)) <= limit)
  ∧ (∀ d lines, steering_jsonl d = Some lines →
                ∀ limit, ∃ older,
                  lines ≫= read_line d = older ++ _read_steering_entries d limit)
  ∧ _read_steering_entries (example_disk None) 0
    = _read_steering_entries (example_disk None) 80.
Proof.
  split; [exact read_line_malformed|].
  split; [vm_compute; reflexivity|].
  split; [|split; [|vm_compute; reflexivity]].
  - intros d limit Hpos. unfold _read_steering_entries.
    destruct (steering_jsonl d); [by apply last_slice_length | simpl; lia].
  - intros d lines Hl limit. unfold _read_steering_entries. rewrite Hl.
    apply last_slice_suffix.
Qed.

(** ** Strings *)

Module StringFacts.

Lemma prefix_app k post : String.prefix k (k +:+ post) = true.
Proof.
  induction k as [|c k IH]; simpl; [by destruct post|].
  by destruct (ascii_dec c c).
Qed.

Lemma contains_unfold s k :
  contains s k
  = String.prefix k s
    || match s with EmptyString => false | String _ r => contains r k end.
Proof. by destruct s. Qed.

Lemma contains_here k post : contains (k +:+ post) k = true.
Proof. by rewrite contains_unfold, prefix_app. Qed.

(** A string contains what it was built around. *)
Lemma contains_app pre k post : contains (pre +:+ k +:+ post) k = true.
Proof.
  induction pre as [|c pre IH].
  - apply (contains_here k post).
  - change (String c pre +:+ k +:+ post) with (String c (pre +:+ k +:+ post)).
    rewrite contains_unfold, IH. apply orb_true_r.
Qed.


Lemma lower_app a b : lower (a +:+ b) = lower a +:+ lower b.
Proof. induction a as [|c a IH]; simpl; [done|]. by rewrite IH. Qed.




Lemma rstrip_cons c r :
  rstrip (String c r)
  = match rstrip r with
    | EmptyString => if is_space c then EmptyString else String c EmptyString
    | r' => String c r'
    end.
Proof. reflexivity. Qed.

Lemma rstrip_idem s : rstrip (rstrip s) = rstrip s.
Proof.
  induction s as [|c r IH]; [done|]. rewrite rstrip_cons.
  destruct (rstrip r) as [|c' r'] eqn:Hr.
  - destruct (is_space c) eqn:Hc; [done|]. rewrite rstrip_cons. simpl. by rewrite Hc.
  - by rewrite rstrip_cons, IH.
Qed.

Lemma lstrip_head s :
  lstrip s = EmptyString ∨ ∃ c r, lstrip s = String c r ∧ is_space c = false.
Proof.
  induction s as [|c r IH]; [by left|]. simpl.
  destruct (is_space c) eqn:Hc; [done|]. right. by exists c, r.
Qed.

Lemma rstrip_head c r :
  is_space c = false → ∃ r', rstrip (String c r) = String c r'.
Proof.
  intros Hc. rewrite rstrip_cons. destruct (rstrip r); [|by eexists].
  rewrite Hc. by eexists.
Qed.

(** [strip] changes nothing in a stripped string. *)
Lemma strip_idem s : strip (strip s) = strip s.
Proof.
  unfold strip. destruct (lstrip_head s) as [->|(c & r & -> & Hc)]; [done|].
  destruct (rstrip_head c r Hc) as [r' Hr]. rewrite Hr.
  cbn [lstrip]. rewrite Hc, <- Hr. apply rstrip_idem.
Qed.

End StringFacts.

(** ** The scheduler *)

Module AgentFacts.
Import Steering PlanStore Agent Notions StringFacts.

Section WithStore.
Context {S : Type} `{!Store S}.






End WithStore.

End AgentFacts.

Import Agent AgentFacts StringFacts Examples.



(** ** The batch planner and the loop of [run] *)

Module RunFacts.
Import Steering PlanStore Agent.

Section WithStore.
Context {S : Type} `{!Store S}.

Lemma slice_to_length {A} (n : Z) (l : list A) :
  0 <= n → Z.of_nat (length (slice_to n l)) <= n.
Proof.
  intros Hn. unfold slice_to. destruct (Z.geb_spec n 0) as [_|?]; [|lia].
  rewrite length_take. lia.
Qed.

(** Step 3 never takes the batch beyond [n]. *)
Lemma top_up_length e n planned acc :
  Z.of_nat (length (prepared acc)) <= n →
  Z.of_nat (length (prepared (top_up e n planned acc))) <= n.
Proof.
  revert acc. induction planned as [|d rest IH]; intros acc Hacc; [done|].
  cbn [top_up]. destruct (Z.geb_spec (Z.of_nat (length (prepared acc))) n) as [?|Hlt]; [done|].
  destruct (match store acc with
            | Some ps =>
                let '(fid, skip, ps') := propose_candidate e ps (existing_frame_ids acc) d in
                (fid, skip, Some ps')
            | None => (None, false, None)
            end) as [[fid skip] ps'].
  destruct skip; apply IH; cbn [prepared]; [done|].
  rewrite length_app. simpl. lia.
Qed.

Lemma _plan_investigations_length e n (s : state S) :
  0 <= n →
  match (_plan_investigations e n s).1 with
  | Ok items => Z.of_nat (length items) <= n
  | Raise _ => True
  end.
Proof.
  intros Hn. unfold _plan_investigations.
  destruct (plan_urgent s) as [urgent s1].
  destruct (plan_pending e n s1) as [pending ids].
  destruct (Z.geb_spec (Z.of_nat (length (urgent ++ pending))) n) as [?|Hlt].
  - cbn [fst]. by apply slice_to_length.
  - destruct (if Z.max 0 (n - Z.of_nat (length (urgent ++ pending))) >? 0
              then _ else _) as [[planned|ex] s2]; cbn [fst]; [|done].
    apply top_up_length. cbn [prepared]. lia.
Qed.

Lemma plan_batch_length e n (s : state S) :
  0 <= n →
  match (plan_batch e n s).1 with
  | Ok items => Z.of_nat (length items) <= n
  | Raise _ => True
  end.
Proof.
  intros Hn. unfold plan_batch.
  pose proof (_plan_investigations_length e n s Hn) as H1.
  destruct (_plan_investigations e n s) as [[items|ex] s1]; [done|].
  destruct ex; try done; apply (_plan_investigations_length e n s1 Hn).
Qed.

(** An empty batch ends the run, as completed. *)
Lemma rounds_empty_batch fuel e plan_n start_overall (s s' : state S) res :
  time_limit e = None →
  plan_batch e (Z.max 1 plan_n) s = (Ok [], s') →
  rounds (Datatypes.S fuel) e plan_n start_overall s res = Some (finalize s' res false).
Proof. intros Hl Hp. cbn [rounds]. by rewrite Hl, Hp. Qed.

(** The deadline has passed when the loop of [run] first checks it. *)
Lemma run_deadline_passed fuel e plan_n (s : state S) m :
  time_limit e = Some m →
  PrimFloat.leb (float_of_int m)
    (elapsed_minutes (clock e (ticks s)) (clock e (Datatypes.S (ticks s)))) = true →
  run (Datatypes.S fuel) e plan_n s
  = Some (finalize (with_ticks (Datatypes.S (Datatypes.S (ticks s))) s) [] false).
Proof.
  intros Hl Hup. unfold run, time. cbn [rounds]. rewrite Hl. unfold time.
  cbn [ticks with_ticks]. rewrite Hup. reflexivity.
Qed.

End WithStore.

End RunFacts.

Import RunFacts.

(** C2. When the time limit has already elapsed at the check that opens the
    loop of [run], the loop stops before any planning and before any frame
    starts, but the session is finalized as "completed"; so it is when the
    limit is first met at the check made before a frame starts.  Only a time
    limit met inside the progress callback of a running investigation sets
    [time_up] and gives "interrupted". *)
Theorem elapsed_time_limit_is_reported_completed :
  (∀ (S : Type) (St : PlanStore.Store S) fuel e plan_n (s : state S) m,
      time_limit e = Some m →
      PrimFloat.leb (float_of_int m)
        (elapsed_minutes (clock e (ticks s)) (clock e (Datatypes.S (ticks s)))) = true →
      ∃ o, run (Datatypes.S fuel) e plan_n s = Some o
           ∧ terminal_status o = "completed"%string
           ∧ investigated (final_state o) = investigated s
           ∧ strategist_calls (final_state o) = strategist_calls s
           ∧ plan_store (final_state o) = plan_store s)
  ∧ summary (run 5 (late_from 1) 5
               (fresh [planned_frame "audit token transfer" 5 PlanStore.PLANNED]
                      no_steering))
    = Some ("completed", [], [PlanStore.PLANNED])%string
  ∧ summary (run 5 (late_from 2) 5
               (fresh [planned_frame "audit token transfer" 5 PlanStore.PLANNED]
                      no_steering))
    = Some ("completed", [], [PlanStore.PLANNED])%string
  ∧ summary (run 5 late_after_first_frame 5
               (fresh [planned_frame "audit token transfer" 5 PlanStore.PLANNED;
                       planned_frame "check oracle" 3 PlanStore.PLANNED]
                      no_steering))
    = Some ("completed", ["audit token transfer"],
            [PlanStore.DONE; PlanStore.PLANNED])%string
  ∧ summary (run 5 (late_from 4) 5
               (fresh [planned_frame "audit token transfer" 5 PlanStore.PLANNED]
                      no_steering))
    = Some ("interrupted", ["audit token transfer"], [PlanStore.IN_PROGRESS])%string.
Proof.
  split; [|repeat split; vm_compute; reflexivity].
  intros S St fuel e plan_n s m Hl Hup.
  eexists. split; [by apply (run_deadline_passed fuel e plan_n s m)|].
  repeat split.
Qed.

Lemma elapsed_time_limit_is_reported_completed_witness :
  let s := fresh [planned_frame "audit token transfer" 5 PlanStore.PLANNED] no_steering in
  ∃ o, run 1 (late_from 1) 5 s = Some o
       ∧ terminal_status o = "completed"%string
       ∧ investigated (final_state o) = investigated s
       ∧ strategist_calls (final_state o) = strategist_calls s
       ∧ plan_store (final_state o) = plan_store s.
Proof.
  apply (proj1 elapsed_time_limit_is_reported_completed
           (list PlanStore.frame) PlanStore.spec_store 0%nat (late_from 1) 5
           (fresh [planned_frame "audit token transfer" 5 PlanStore.PLANNED] no_steering)
           1).
  - reflexivity.
  - vm_compute. reflexivity.
Defined.

(** C8. For a requested size [n >= 1] the batch planner returns at most [n]
    items, whatever the steering log, the store and the strategist hold: the
    urgent frame and the PLANNED frames are cut to [n], and candidates are
    added only while fewer than [n] items are prepared.  A batch of size 0
    ends the run, which is finalized as completed. *)
Theorem plan_investigations_at_most_n :
  ∀ (S : Type) (St : PlanStore.Store S) e n (s : state S),
    1 <= n →
    match (_plan_investigations e n s).1 with
    | Ok items => Z.of_nat (length items) <= n
    | Raise _ => True
    end
    ∧ match (plan_batch e n s).1 with
      | Ok items => Z.of_nat (length items) <= n
      | Raise _ => True
      end
    ∧ ∀ fuel plan_n start_overall res,
        match plan_batch e (Z.max 1 plan_n) (after_time_check e s) with
        | (Ok [], _) =>
            ∃ o, rounds (Datatypes.S fuel) e plan_n start_overall s res = Some o
                 ∧ terminal_status o = "completed"%string
                 ∧ final_results o = res
        | _ => True
        end.
Proof.
  intros S St e n s Hn. split; [|split].
  - apply _plan_investigations_length. lia.
  - apply plan_batch_length. lia.
  - intros fuel plan_n start_overall res.
    destruct (plan_batch e (Z.max 1 plan_n) (after_time_check e s))
      as [[[|inv items]|ex] s'] eqn:Hp; [|done..].
    cbn [rounds]. unfold after_time_check, time in *.
    destruct (time_limit e) as [m|].
    + destruct (PrimFloat.leb _ _); [by eexists|]. rewrite Hp. by eexists.
    + rewrite Hp. by eexists.
Qed.

(** The urgent frame and two PLANNED frames make three items; a batch of
    two keeps the first two. *)
Example batch_is_cut_to_n :
  (_plan_investigations reproposing 2
     (fresh [planned_frame "audit token transfer" 5 PlanStore.PLANNED;
             planned_frame "check oracle" 3 PlanStore.PLANNED]
            (one_directive "check the login function"))).1
  = Ok [ steering_frame "check the login function";
         frame_item (planned_frame "audit token transfer" 5 PlanStore.PLANNED) ].
Proof. vm_compute. reflexivity. Qed.

(** Nothing planned, nothing proposed: the first batch is empty and the run
    ends as completed, no worker call made. *)
Example empty_batch_completes :
  summary (run 1 (plain None (λ _, 0%float) (λ _, quiet)) 5 (fresh [] no_steering))
  = Some ("completed", [], [])%string.
Proof. vm_compute. reflexivity. Qed.

Lemma plan_investigations_at_most_n_witness :
  let e := plain None (λ _, 0%float) (λ _, quiet) in
  let s := fresh [] no_steering in
  match (_plan_investigations e 5 s).1 with
  | Ok items => Z.of_nat (length items) <= 5
  | Raise _ => True
  end
  ∧ match (plan_batch e 5 s).1 with
    | Ok items => Z.of_nat (length items) <= 5
    | Raise _ => True
    end
  ∧ ∀ fuel plan_n start_overall res,
      match plan_batch e (Z.max 1 plan_n) (after_time_check e s) with
      | (Ok [], _) =>
          ∃ o, rounds (Datatypes.S fuel) e plan_n start_overall s res = Some o
               ∧ terminal_status o = "completed"%string
               ∧ final_results o = res
      | _ => True
      end.
Proof.
  apply (plan_investigations_at_most_n (list PlanStore.frame) PlanStore.spec_store
           (plain None (λ _, 0%float) (λ _, quiet)) 5 (fresh [] no_steering)).
  lia.
Defined.

(** ** The newest unconsumed urgent directive *)

Module UrgentFacts.
Import Steering Notions FloatFacts SteeringFacts StringFacts.

(** A comparison that is not "at most", between two numbers, is "greater". *)
Lemma not_leb_ltb a b :
  PrimFloat.leb a b = false → PrimFloat.eqb a a = true → PrimFloat.leb 0 b = true →
  PrimFloat.ltb b a = true.
Proof.
  rewrite !FloatAxioms.leb_spec, FloatAxioms.ltb_spec, FloatAxioms.eqb_spec, zero_SF.
  unfold SFleb, SFltb, SFeqb.
  rewrite (SFcompare_antisym (Prim2SF a) (Prim2SF b)).
  destruct (SFcompare (Prim2SF a) (Prim2SF b)) as [[]|] eqn:E; simpl; try congruence.
  destruct (Prim2SF a), (Prim2SF b); simpl in *; congruence.
Qed.

(** Go past the first call of a sequence: it returned, or the sequence
    stops on its exception. *)
Ltac step_bind :=
  match goal with
  | |- context [Py.bind ?x _] => destruct x; [cbn [Py.bind] | done]
  end.

Lemma parse_entry_stripped d l e :
  parse_entry d l = Ok (Some e) → strip (text e) = text e.
Proof.
  unfold parse_entry, mbind, result_bind.
  do 6 step_bind.
  match goal with |- context [json_strip ?v] => destruct v; try done end.
  cbn [json_strip Py.bind].
  match goal with |- context [truthy ?t] => destruct (truthy t); [|done] end.
  intros [= <-]. apply strip_idem.
Qed.

Lemma read_line_stripped d l e : e ∈ read_line d l → strip (text e) = text e.
Proof.
  unfold read_line. destruct (truthy (strip (raw l))); [|by intros ?%elem_of_nil].
  destruct (parse_entry d l) as [[e'|]|ex] eqn:Hp.
  - intros ->%list_elem_of_singleton. by eapply parse_entry_stripped.
  - by intros ?%elem_of_nil.
  - intros ->%list_elem_of_singleton. apply strip_idem.
Qed.

(** The texts [_read_steering_entries] returns are stripped. *)
Lemma entries_stripped d limit e :
  e ∈ _read_steering_entries d limit → strip (text e) = text e.
Proof.
  unfold _read_steering_entries. destruct (steering_jsonl d) as [lines|];
    [|by intros ?%elem_of_nil].
  intros He. destruct (last_slice_suffix limit (lines ≫= read_line d)) as [older Ho].
  assert (e ∈ lines ≫= read_line d) as Hin
    by (rewrite Ho; apply elem_of_app; by right).
  apply list_elem_of_bind in Hin as (l & Hl & _). by eapply read_line_stripped.
Qed.

(** Scanning a list newest first finds its last element that qualifies. *)
Lemma find_newest {A} (P : A → bool) (l : list A) :
  match snd <$> list_find (λ x, P x = true) (reverse l) with
  | Some x => ∃ older newer,
      l = older ++ x :: newer ∧ P x = true ∧ Forall (λ y, P y = false) newer
  | None => Forall (λ y, P y = false) l
  end.
Proof.
  induction l as [|x l IH] using rev_ind; [by constructor|].
  rewrite reverse_app. cbn [reverse rev_append app list_find].
  change (rev_append [x] []) with [x]. cbn [app list_find].
  destruct (decide (P x = true)) as [Hx|Hx].
  - cbn. exists l, []. by repeat split.
  - apply not_true_is_false in Hx.
    destruct (list_find (λ x, P x = true) (reverse l)) as [[i y]|]; cbn in *.
    + destruct IH as (older & newer & -> & Hy & Hn).
      exists older, (newer ++ [x]). split; [by rewrite <- app_assoc|]. split; [done|].
      apply Forall_app. split; [done|]. by repeat constructor.
    + apply Forall_app. split; [done|]. by repeat constructor.
Qed.





End UrgentFacts.

(** ** Planning with an urgent directive, and duplicates in a batch *)

Module BatchFacts.
Import Steering PlanStore Agent Notions UrgentFacts SteeringFacts AgentFacts.

Section WithStore.
Context {S : Type} `{!Store S}.

Lemma top_up_prefix e n planned (acc : topup) :
  ∃ more, prepared (top_up e n planned acc) = prepared acc ++ more.
Proof.
  revert acc. induction planned as [|d rest IH]; intros acc.
  - exists []. by rewrite app_nil_r.
  - cbn [top_up]. destruct (_ >=? n); [exists []; by rewrite app_nil_r|].
    destruct (match store acc with
              | Some ps =>
                  let '(fid, skip, ps') := propose_candidate e ps (existing_frame_ids acc) d in
                  (fid, skip, Some ps')
              | None => (None, false, None)
              end) as [[fid skip] ps'].
    destruct skip.
    + destruct (IH {| prepared := prepared acc;
                      existing_frame_ids := existing_frame_ids acc;
                      store := ps' |}) as [more Hm].
      by exists more.
    + match goal with |- context [top_up e n rest ?a] => destruct (IH a) as [more Hm] end.
      exists (proposal_item d fid :: more). rewrite Hm. cbn [prepared].
      by rewrite <- app_assoc.
Qed.

Lemma slice_to_cons {A} (n : Z) (x : A) (l : list A) :
  1 <= n → ∃ rest, slice_to n (x :: l) = x :: rest.
Proof.
  intros Hn. unfold slice_to. destruct (Z.geb_spec n 0) as [_|?]; [|lia].
  destruct (Z.to_nat n) as [|k] eqn:Hk; [lia|]. by eexists.
Qed.

(** With an urgent directive found, the batch starts with its frame and the
    directive is consumed, whatever the store and the strategist do. *)
Lemma plan_with_urgent e n (s : state S) ent :
  1 <= n →
  _find_latest_urgent_steer (disk_of s) = Some ent →
  ∃ r s', _plan_investigations e n s = (r, s')
          ∧ disk_of s' = _consume_steer (disk_of s) (entry_ts ent)
          ∧ match r with
            | Ok items => ∃ rest, items = steering_frame (text ent) :: rest
            | Raise ex => ∃ need, strategist e (strategist_calls s) need = Raise ex
            end.
Proof.
  intros Hn Hfind. unfold _plan_investigations, plan_urgent. rewrite Hfind.
  destruct (plan_pending e n (consume ent s)) as [pending ids].
  destruct (_ >=? n).
  - eexists _, _. split; [done|]. split; [done|]. by apply slice_to_cons.
  - destruct (_ >? 0).
    + destruct (strategist e (strategist_calls (consume ent s)) _) as [planned|ex] eqn:Hs.
      * eexists _, _. split; [done|]. split; [done|].
        match goal with |- context [top_up e n planned ?a] =>
          destruct (top_up_prefix e n planned a) as [more ->] end.
        by eexists.
      * eexists _, _. split; [done|]. split; [done|]. by eexists.
    + eexists _, _. split; [done|]. split; [done|]. by eexists.
Qed.

Lemma mark_keeps_worker fid st why (s : state S) :
  worker_calls (mark fid st why s) = worker_calls s
  ∧ investigated (mark fid st why s) = investigated s.
Proof.
  unfold mark. destruct (plan_store s) as [ps|]; [|done].
  by destruct (update_status ps fid st why) as [[ok ps']|].
Qed.

(** A frame whose id is among the executed frames of the batch is skipped:
    the store is asked to mark it DROPPED and the worker is not called. *)
Lemma frame_step_duplicate e start_overall inv (s : state S) loc fid :
  _find_latest_urgent_steer (disk_of s) = None →
  frame_in_time e start_overall s →
  real_id (inv_frame_id inv) = Some fid →
  fid ∈ executed_frames loc →
  frame_step e start_overall inv s loc
  = (Ok Continue,
     mark fid DROPPED "Skipped duplicate within run" (after_time_check e s), loc).
Proof.
  intros Hfind Hin Hid Hex. unfold frame_step, steer_override, after_time_check, time.
  rewrite Hfind. destruct (time_limit e) as [m|] eqn:Hl.
  - rewrite (Hin m Hl), Hid. by rewrite bool_decide_eq_true_2.
  - rewrite Hid. by rewrite bool_decide_eq_true_2.
Qed.

(** The deadline has passed at the check made before a frame starts: the
    loop over the batch is left, [time_up] as it was. *)
Lemma frame_step_deadline e start_overall inv (s : state S) loc m :
  _find_latest_urgent_steer (disk_of s) = None →
  time_limit e = Some m →
  PrimFloat.leb
    (PrimFloat.sub (float_of_int m)
       (elapsed_minutes start_overall (clock e (ticks s)))) 0 = true →
  frame_step e start_overall inv s loc
  = (Ok Break, with_ticks (Datatypes.S (ticks s)) s, loc).
Proof.
  intros Hfind Hl Hup. unfold frame_step, steer_override, time.
  by rewrite Hfind, Hl, Hup.
Qed.

(** A completed frame is remembered for the rest of the batch. *)
Lemma finish_records inv r (s : state S) loc fid :
  _abort_requested s = false →
  real_id (inv_frame_id inv) = Some fid →
  fid ∈ executed_frames (finish inv r s loc).2.
Proof.
  intros Ha Hid. unfold finish. rewrite Ha, Hid. cbn. set_solver.
Qed.

End WithStore.

End BatchFacts.

Import UrgentFacts BatchFacts.




(** C6. Within a batch, a frame whose id was executed earlier in that batch
    is skipped: the store is asked to mark it DROPPED and the worker is not
    called; a frame that completed is remembered until the batch ends.  The
    set of executed frames is emptied at every planning round, so a frame
    executed in one batch of a run is handed to the worker again when a
    later batch of the same run holds it. *)
Theorem duplicate_frame_is_skipped_within_a_batch_only :
  (∀ (S : Type) (St : PlanStore.Store S) e start_overall inv (s : state S) loc fid,
      _find_latest_urgent_steer (disk_of s) = None →
      frame_in_time e start_overall s →
      real_id (inv_frame_id inv) = Some fid →
      fid ∈ executed_frames loc →
      ∃ s', frame_step e start_overall inv s loc = (Ok Continue, s', loc)
            ∧ s' = mark fid PlanStore.DROPPED "Skipped duplicate within run"
                     (after_time_check e s)
            ∧ worker_calls s' = worker_calls s
            ∧ investigated s' = investigated s)
  ∧ (∀ (S : Type) (St : PlanStore.Store S) inv r (s : state S) loc fid,
        _abort_requested s = false →
        real_id (inv_frame_id inv) = Some fid →
        fid ∈ executed_frames (finish inv r s loc).2)
  ∧ (let it := frame_item (planned_frame "audit token transfer" 5 PlanStore.PLANNED) in
     let out := run_batch (plain None (λ _, 0%float) (λ _, quiet)) 0 [it; it]
                  (fresh [planned_frame "audit token transfer" 5 PlanStore.PLANNED]
                         no_steering)
                  {| results := []; time_up := false; executed_frames := ∅ |} in
     investigated out.1.2 = ["audit token transfer"]%string
     ∧ length (results out.2) = 1%nat)
  ∧ summary (run 5 reproposing 5
               (fresh [planned_frame "audit token transfer" 5 PlanStore.DROPPED]
                      no_steering))
    = Some ("completed", ["audit token transfer"; "audit token transfer"],
            [PlanStore.DROPPED])%string
  ∧ summary (@run _ read_only_store 5 (late_from 11) 5
               (fresh [planned_frame "audit token transfer" 5 PlanStore.PLANNED]
                      no_steering))
    = Some ("completed", ["audit token transfer"; "audit token transfer"],
            [PlanStore.PLANNED])%string.
Proof.
  split; [|split; [|split; [|split]]].
  - intros S St e start_overall inv s loc fid Hfind Hin Hid Hex.
    eexists. split; [by apply frame_step_duplicate|]. split; [done|].
    destruct (mark_keeps_worker fid PlanStore.DROPPED "Skipped duplicate within run"
                (after_time_check e s)) as [-> ->].
    unfold after_time_check. by destruct (time_limit e).
  - intros S St inv r s loc fid. apply finish_records.
  - split; vm_compute; reflexivity.
  - vm_compute. reflexivity.
  - vm_compute. reflexivity.
Qed.

(* ================================================================== *)
(** * Further properties of the code *)
(* ================================================================== *)

(** ** Token tracker: what the maps hold *)

Module TrackerHistoryFacts.
Import TokenTracker TokenTrackerFacts.

Lemma sum_int_snoc f l u : sum_int f (l ++ [u]) = sum_int f l + f u.
Proof. unfold sum_int. by rewrite fold_left_app. Qed.

Lemma sum_float_snoc f l u :
  sum_float f (l ++ [u]) = PrimFloat.add (sum_float f l) (f u).
Proof. unfold sum_float. by rewrite fold_left_app. Qed.

Lemma aggregate_of_snoc h u :
  total_tokens u = input_tokens u + output_tokens u →
  aggregate_of (h ++ [u]) = add_usage u (aggregate_of h).
Proof.
  intros Htot. unfold aggregate_of, add_usage. cbn.
  rewrite !sum_int_snoc, !sum_float_snoc, length_app, Htot. cbn.
  f_equal. lia.
Qed.

(** What the two maps hold under a key, computed from the history. *)
Definition by_model_of (h : list TokenUsage) : option aggregate :=
  match h with [] => None | _ => Some (aggregate_of h) end.

Definition cumulative_of (h : list TokenUsage) : option cumulative :=
  match h with
  | [] => None
  | _ => Some {| cum_input_tokens := sum_int input_tokens h;
                 cum_output_tokens := sum_int output_tokens h |}
  end.

Definition follows_history (t : tracker) : Prop :=
  _lock t = false
  ∧ Forall (λ u, total_tokens u = input_tokens u + output_tokens u) (usage_history t)
  ∧ ∀ key, usage_by_model t !! key = by_model_of (history_of key t)
           ∧ _cumulative_tokens t !! key = cumulative_of (history_of key t).

Lemma follows_history_relock t :
  follows_history t → follows_history (release (set_lock true t)).
Proof. intros (Hl & Hf & Hk). split; [done|]. split; done. Qed.

Lemma history_of_record key u t :
  history_of key (record_usage u t)
  = history_of key t
    ++ (if decide (model_key_of (provider u) (model u) = key) then [u] else []).
Proof.
  unfold history_of, record_usage. cbn [usage_history].
  rewrite filter_app.
  destruct (decide (model_key_of (provider u) (model u) = key)) as [He|Hne].
  - rewrite filter_cons_True by done. done.
  - rewrite filter_cons_False by done. done.
Qed.

Lemma by_model_of_snoc h u :
  total_tokens u = input_tokens u + output_tokens u →
  by_model_of (h ++ [u]) = Some (add_usage u (default empty_aggregate (by_model_of h))).
Proof.
  intros Htot. destruct h as [|x h].
  - change (default empty_aggregate (by_model_of [])) with (aggregate_of []).
    by rewrite <- (aggregate_of_snoc [] u Htot).
  - change (default empty_aggregate (by_model_of (x :: h))) with (aggregate_of (x :: h)).
    by rewrite <- (aggregate_of_snoc (x :: h) u Htot).
Qed.

Lemma cumulative_of_snoc h u :
  cumulative_of (h ++ [u])
  = Some (add_cumulative u
            (default {| cum_input_tokens := 0; cum_output_tokens := 0 |}
                     (cumulative_of h))).
Proof.
  assert (cumulative_of (h ++ [u])
          = Some {| cum_input_tokens := sum_int input_tokens (h ++ [u]);
                    cum_output_tokens := sum_int output_tokens (h ++ [u]) |}) as ->.
  { by destruct h. }
  rewrite !sum_int_snoc. by destruct h.
Qed.

Lemma follows_history_record u t :
  total_tokens u = input_tokens u + output_tokens u →
  follows_history t → follows_history (record_usage u t).
Proof.
  intros Htot (Hl & Hf & Hk). split; [done|]. split.
  - cbn. apply Forall_app. split; [done|]. by constructor.
  - intros key. rewrite history_of_record.
    destruct (decide (model_key_of (provider u) (model u) = key)) as [<-|Hne].
    + cbn [record_usage usage_by_model _cumulative_tokens].
      rewrite !lookup_insert_eq.
      destruct (Hk (model_key_of (provider u) (model u))) as [-> ->].
      by rewrite by_model_of_snoc, cumulative_of_snoc.
    + cbn [record_usage usage_by_model _cumulative_tokens].
      rewrite !lookup_insert_ne by done. rewrite app_nil_r. apply Hk.
Qed.

Lemma follows_history_clear t : follows_history t → follows_history (clear t).
Proof.
  intros (Hl & _ & _). split; [done|]. split; [by constructor|].
  intros key. split; apply lookup_empty.
Qed.

(** A call that returns found the lock free and no output file to save
    to: the save would wait for the lock the caller holds. *)
Lemma save_under_lock fuel t fs :
  _lock t = true → is_Some (_output_file t) → _save_to_file fuel t fs = None.
Proof.
  intros Hl [path Hp]. unfold _save_to_file. rewrite Hp.
  by rewrite get_summary_held.
Qed.

Lemma track_usage_Some fuel now provider model it ot profile ic oc tc t fs t' fs' :
  track_usage fuel now provider model it ot profile ic oc tc t fs = Some (t', fs') →
  _lock t = false ∧ _output_file t = None ∧ fs' = fs
  ∧ t' = release
           (record_usage
              {| timestamp := now; provider := provider; model := model;
                 input_tokens := it; output_tokens := ot; total_tokens := it + ot;
                 profile := profile; input_cost := ic; output_cost := oc;
                 total_cost := tc |} (set_lock true t)).
Proof.
  unfold track_usage. intros H.
  destruct (acquire fuel t) as [t1|] eqn:Ha; [|done].
  apply acquire_Some in Ha as [Hl ->]. cbn [mbind option_bind] in H.
  destruct (_output_file t) as [path|] eqn:Hp.
  - rewrite bool_decide_eq_true_2 in H by (cbn; rewrite Hp; eauto).
    rewrite save_under_lock in H; [done|done|]. cbn. rewrite Hp. eauto.
  - rewrite bool_decide_eq_false_2 in H by (cbn; rewrite Hp; by intros [? ?]).
    cbn in H. by simplify_eq.
Qed.

Lemma reset_Some fuel t fs t' fs' :
  reset fuel t fs = Some (t', fs') →
  _lock t = false ∧ _output_file t = None ∧ fs' = fs
  ∧ t' = release (clear (set_lock true t)).
Proof.
  unfold reset. intros H.
  destruct (acquire fuel t) as [t1|] eqn:Ha; [|done].
  apply acquire_Some in Ha as [Hl ->]. cbn [mbind option_bind] in H.
  destruct (_output_file t) as [path|] eqn:Hp.
  - rewrite bool_decide_eq_true_2 in H by (cbn; rewrite Hp; eauto).
    rewrite save_under_lock in H; [done|done|]. cbn. rewrite Hp. eauto.
  - rewrite bool_decide_eq_false_2 in H by (cbn; rewrite Hp; by intros [? ?]).
    cbn in H. by simplify_eq.
Qed.

Lemma get_summary_Some fuel t data t' :
  get_summary fuel t = Some (data, t') →
  _lock t = false ∧ t' = release (set_lock true t).
Proof.
  unfold get_summary. intros H.
  destruct (acquire fuel t) as [t1|] eqn:Ha; [|done].
  apply acquire_Some in Ha as [Hl ->]. cbn in H. by simplify_eq.
Qed.

Lemma reachable_follows_history t : reachable t → follows_history t.
Proof.
  induction 1 as [|fuel path t fs t' fs' _ IH H
                  |fuel now provider model it ot profile ic oc tc t fs t' fs' _ IH H
                  |fuel t data t' _ IH H|fuel t r t' _ IH H|fuel key t r t' _ IH H
                  |fuel t fs t' fs' _ IH H].
  - split; [done|]. split; [by constructor|]. intros key. split; apply lookup_empty.
  - unfold set_output_file, _save_to_file in H. cbn [_output_file] in H.
    destruct (get_summary fuel _) as [[data t1]|] eqn:Hs; [|done].
    apply get_summary_Some in Hs as [_ ->]. cbn in H. simplify_eq.
    destruct IH as (Hl & Hf & Hk). split; [done|]. split; done.
  - apply track_usage_Some in H as (_ & _ & _ & ->).
    destruct IH as (Hl & Hf & Hk).
    pose proof (follows_history_record
                  {| timestamp := now; provider := provider; model := model;
                     input_tokens := it; output_tokens := ot; total_tokens := it + ot;
                     profile := profile; input_cost := ic; output_cost := oc;
                     total_cost := tc |} t eq_refl (conj Hl (conj Hf Hk)))
      as (_ & Hf' & Hk').
    split; [done|]. split; done.
  - apply get_summary_Some in H as [_ ->]. by apply follows_history_relock.
  - unfold get_last_usage in H.
    destruct (acquire fuel t) as [t1|] eqn:Ha; [|done].
    apply acquire_Some in Ha as [_ ->]. cbn in H. simplify_eq.
    by apply follows_history_relock.
  - unfold get_cumulative_tokens in H.
    destruct (acquire fuel t) as [t1|] eqn:Ha; [|done].
    apply acquire_Some in Ha as [_ ->]. cbn in H. simplify_eq.
    by apply follows_history_relock.
  - apply reset_Some in H as (_ & _ & _ & ->).
    destruct (follows_history_clear t IH) as (Hl & Hf & Hk).
    split; [done|]. split; done.
Qed.

Lemma release_acquired t : _lock t = false → release (set_lock true t) = t.
Proof. destruct t; cbn; intros ->; reflexivity. Qed.

End TrackerHistoryFacts.

Import TokenTracker TokenTrackerFacts TrackerHistoryFacts.

(** X1. On every tracker obtained from [TokenTracker()] through the methods
    of the class, the lock is free between two calls, and the two per-model
    maps are functions of the history: [usage_by_model] has an entry for a
    model key exactly when the history holds a record of that key, and the
    entry is the aggregate of those records (token sums, number of calls, and
    the costs added up in the order of the calls); [get_cumulative_tokens]
    returns the input and output token sums of those records, [(0, 0)] when
    there is none, and leaves the tracker as it was. *)
Theorem tracker_maps_follow_history :
  ∀ (t : tracker) (model_key : string),
    reachable t →
    let h := history_of model_key t in
    _lock t = false
    ∧ usage_by_model t !! model_key
      = match h with [] => None | _ => Some (aggregate_of h) end
    ∧ ∀ fuel,
        get_cumulative_tokens (S fuel) model_key t
        = Some (sum_int TokenTracker.input_tokens h,
                sum_int TokenTracker.output_tokens h, t).
Proof.
  intros t key Hr h. destruct (reachable_follows_history t Hr) as (Hl & _ & Hk).
  destruct (Hk key) as [Hby Hcum]. fold h in Hby, Hcum.
  split; [done|]. split; [exact Hby|].
  intros fuel. unfold get_cumulative_tokens. rewrite acquire_free by done.
  cbn [mbind option_bind set_lock _cumulative_tokens]. rewrite Hcum.
  rewrite release_acquired by done. by destruct h.
Qed.

Lemma tracker_maps_follow_history_witness :
  let u := {| timestamp := "2025-01-01T00:00:00"; provider := "OpenAI";
              model := "gpt-5"; TokenTracker.input_tokens := 10;
              TokenTracker.output_tokens := 5; total_tokens := 15;
              profile := None; TokenTracker.input_cost := 0%float;
              TokenTracker.output_cost := 0%float; total_cost := 0%float |} in
  let t := record_usage u init in
  let h := history_of "OpenAI:gpt-5" t in
  _lock t = false
  ∧ usage_by_model t !! "OpenAI:gpt-5"%string
    = match h with [] => None | _ => Some (aggregate_of h) end
  ∧ ∀ fuel,
      get_cumulative_tokens (S fuel) "OpenAI:gpt-5" t
      = Some (sum_int TokenTracker.input_tokens h,
              sum_int TokenTracker.output_tokens h, t).
Proof.
  apply (tracker_maps_follow_history
           (record_usage
              {| timestamp := "2025-01-01T00:00:00"; provider := "OpenAI";
                 model := "gpt-5"; TokenTracker.input_tokens := 10;
                 TokenTracker.output_tokens := 5; total_tokens := 15;
                 profile := None; TokenTracker.input_cost := 0%float;
                 TokenTracker.output_cost := 0%float; total_cost := 0%float |} init)
           "OpenAI:gpt-5"%string).
  apply (reach_track_usage 1 "2025-01-01T00:00:00" "OpenAI" "gpt-5" 10 5 None
           0%float 0%float 0%float init ∅ _ ∅ reach_init).
  reflexivity.
Defined.

(** X2. [get_last_usage] gives back the call [track_usage] has just
    recorded, with [total_tokens] the sum of the two counts, and leaves the
    tracker as it was; on a tracker without history it returns [None]. *)
Theorem get_last_usage_returns_the_call_just_tracked :
  ∀ now provider model input_tokens output_tokens profile
    input_cost output_cost total_cost (t : tracker) (fs : files) fuel,
    _lock t = false →
    _output_file t = None →
    (∃ t',
       track_usage (S fuel) now provider model input_tokens output_tokens profile
         input_cost output_cost total_cost t fs = Some (t', fs)
       ∧ get_last_usage (S fuel) t'
         = Some (Some {| timestamp := now; provider := provider; model := model;
                         TokenTracker.input_tokens := input_tokens;
                         TokenTracker.output_tokens := output_tokens;
                         total_tokens := input_tokens + output_tokens;
                         profile := profile;
                         TokenTracker.input_cost := input_cost;
                         TokenTracker.output_cost := output_cost;
                         total_cost := total_cost |}, t'))
    ∧ (usage_history t = [] → get_last_usage (S fuel) t = Some (None, t)).
Proof.
  intros now provider model it ot profile ic oc tc t fs fuel Hfree Hnone. split.
  - eexists. split.
    + unfold track_usage. rewrite acquire_free by done. cbn [mbind option_bind].
      rewrite bool_decide_eq_false_2; [reflexivity|].
      cbn. rewrite Hnone. by intros [? ?].
    + unfold get_last_usage. rewrite acquire_free by reflexivity.
      cbn [mbind option_bind]. rewrite release_acquired by reflexivity.
      cbn [release set_lock record_usage usage_history]. by rewrite last_snoc.
  - intros Hempty. unfold get_last_usage. rewrite acquire_free by done.
    cbn [mbind option_bind set_lock usage_history]. rewrite Hempty.
    by rewrite release_acquired.
Qed.

Lemma get_last_usage_returns_the_call_just_tracked_witness :
  (∃ t',
     track_usage 1 "2025-01-01T00:00:00" "OpenAI" "gpt-5" 10 5 (Some "agent")
       0.5%float 0.25%float 0.75%float init ∅ = Some (t', ∅)
     ∧ get_last_usage 1 t'
       = Some (Some {| timestamp := "2025-01-01T00:00:00"; provider := "OpenAI";
                       model := "gpt-5"; TokenTracker.input_tokens := 10;
                       TokenTracker.output_tokens := 5; total_tokens := 10 + 5;
                       profile := Some "agent"%string;
                       TokenTracker.input_cost := 0.5%float;
                       TokenTracker.output_cost := 0.25%float;
                       total_cost := 0.75%float |}, t'))
  ∧ (usage_history init = [] → get_last_usage 1 init = Some (None, init)).
Proof.
  apply (get_last_usage_returns_the_call_just_tracked
           "2025-01-01T00:00:00" "OpenAI" "gpt-5" 10 5 (Some "agent"%string)
           0.5%float 0.25%float 0.75%float init ∅ 0%nat).
  - reflexivity.
  - reflexivity.
Defined.

(** X3. [reset] on a tracker without output file returns with the history
    and both per-model maps emptied and the lock free.  Once an output file
    is set it does not return: like [track_usage], it saves inside the
    critical section, where [get_summary] waits for the lock that [reset]
    itself holds. *)
Theorem reset_returns_only_without_output_file :
  ∀ file_path (t : tracker) (fs : files),
    _lock t = false →
    _output_file t = None →
    (∀ fuel, ∃ t',
       reset (S fuel) t fs = Some (t', fs)
       ∧ usage_history t' = []
       ∧ usage_by_model t' = ∅
       ∧ _cumulative_tokens t' = ∅
       ∧ _output_file t' = None
       ∧ _lock t' = false)
    ∧ ∃ t1 fs1,
        set_output_file 1 file_path t fs = Some (t1, fs1)
        ∧ _lock t1 = false
        ∧ usage_history t1 = usage_history t
        ∧ ∀ fuel, reset fuel t1 fs1 = None.
Proof.
  intros file_path t fs Hfree Hnone. split.
  - intros fuel. eexists. unfold reset. rewrite acquire_free by done.
    cbn [mbind option_bind]. rewrite bool_decide_eq_false_2.
    + cbn [mbind option_bind]. split; [reflexivity|]. cbn. by rewrite Hnone.
    + cbn. rewrite Hnone. by intros [? ?].
  - eexists _, _. split; [|split; [|split]].
    + unfold set_output_file, _save_to_file, get_summary. cbn [_output_file].
      rewrite acquire_free by done. cbn. reflexivity.
    + reflexivity.
    + reflexivity.
    + intros fuel. unfold reset. destruct fuel as [|fuel]; [done|].
      rewrite acquire_free by done. cbn [mbind option_bind].
      rewrite bool_decide_eq_true_2 by (cbn; eauto).
      rewrite save_under_lock; [done|done|]. cbn. eauto.
Qed.

Lemma reset_returns_only_without_output_file_witness :
  let t := record_usage
             {| timestamp := "2025-01-01T00:00:00"; provider := "OpenAI";
                model := "gpt-5"; TokenTracker.input_tokens := 10;
                TokenTracker.output_tokens := 5; total_tokens := 15;
                profile := None; TokenTracker.input_cost := 0%float;
                TokenTracker.output_cost := 0%float; total_cost := 0%float |} init in
  (∀ fuel, ∃ t',
     reset (S fuel) t ∅ = Some (t', ∅)
     ∧ usage_history t' = []
     ∧ usage_by_model t' = ∅
     ∧ _cumulative_tokens t' = ∅
     ∧ _output_file t' = None
     ∧ _lock t' = false)
  ∧ ∃ t1 fs1,
      set_output_file 1 "usage.json" t ∅ = Some (t1, fs1)
      ∧ _lock t1 = false
      ∧ usage_history t1 = usage_history t
      ∧ ∀ fuel, reset fuel t1 fs1 = None.
Proof.
  apply (reset_returns_only_without_output_file "usage.json"
           (record_usage
              {| timestamp := "2025-01-01T00:00:00"; provider := "OpenAI";
                 model := "gpt-5"; TokenTracker.input_tokens := 10;
                 TokenTracker.output_tokens := 5; total_tokens := 15;
                 profile := None; TokenTracker.input_cost := 0%float;
                 TokenTracker.output_cost := 0%float; total_cost := 0%float |} init)
           ∅).
  - reflexivity.
  - reflexivity.
Defined.

(** ** Pricing: edges of the tiered computation and of the loader *)

Module TierEdgeFacts.
Import Pricing TieredSpec PricingFacts.

Lemma find_start_tier_lt cum tiers :
  tiers ≠ [] → (find_start_tier cum tiers 0 0 < length tiers)%nat.
Proof.
  intros Hne.
  destruct (find_start_tier_spec cum tiers 0 0) as [[-> _]|(k & -> & (tr & Hk & _) & _)].
  - destruct tiers; [done|simpl; lia].
  - apply lookup_lt_Some in Hk. lia.
Qed.

Lemma find_start_tier_below cum t0 rest :
  cum < threshold t0 → find_start_tier cum (t0 :: rest) 0 0 = 0%nat.
Proof.
  intros Hlt. simpl. destruct (Z.geb_spec cum (threshold t0)); [lia|done].
Qed.

Lemma loop_cond_true tiers s :
  0 < tokens_remaining s → (current_tier_idx s < length tiers)%nat →
  loop_cond tiers s = true.
Proof.
  intros Hpos Hidx. unfold loop_cond. apply andb_true_iff. split.
  - rewrite Z.gtb_ltb. apply Z.ltb_lt. lia.
  - by apply Nat.ltb_lt.
Qed.

Lemma loop_cond_done tiers s : tokens_remaining s <= 0 → loop_cond tiers s = false.
Proof.
  intros Hle. unfold loop_cond.
  replace (tokens_remaining s >? 0) with false; [done|].
  symmetry. rewrite Z.gtb_ltb. apply Z.ltb_ge. lia.
Qed.

(** The second loop ends: each turn moves to the next tier. *)
Lemma while_loop_ends tiers unit ct fuel s :
  (length tiers - current_tier_idx s < fuel)%nat →
  is_Some (while fuel (loop_cond tiers) (loop_body tiers unit ct) s).
Proof.
  revert s. induction fuel as [|fuel IH]; intros s Hfuel; [lia|].
  cbn [while]. destruct (loop_cond tiers s) eqn:Hc; [|eauto].
  apply andb_true_iff in Hc as [_ Hidx]. apply Nat.ltb_lt in Hidx.
  destruct (loop_body tiers unit ct s) as [s'|ex] eqn:Hb; [|eauto].
  apply IH.
  assert (current_tier_idx s' = S (current_tier_idx s)) as ->; [|lia].
  unfold loop_body in Hb.
  destruct (tiers !! current_tier_idx s) as [t|] eqn:Ht.
  - destruct (truediv _ unit); cbn in Hb; by simplify_eq.
  - apply lookup_ge_None in Ht. lia.
Qed.

Lemma tiered_cost_ends fuel tokens cum tiers unit ct :
  (length tiers < fuel)%nat →
  is_Some (_calculate_tiered_cost fuel tokens cum tiers unit ct).
Proof.
  intros Hfuel. unfold _calculate_tiered_cost.
  destruct ((tokens =? 0) || _); [eauto|].
  match goal with |- context [while fuel ?c ?b ?s] =>
    destruct (while_loop_ends tiers unit ct fuel s) as [r Hr] end.
  { cbn [current_tier_idx]. lia. }
  rewrite Hr. destruct r; eauto.
Qed.

(** A call that stays within the tier it starts in. *)
Lemma within_one_tier fuel tokens cum tiers unit ct t :
  unit ≠ 0 → 0 < tokens →
  tiers !! find_start_tier cum tiers 0 0 = Some t →
  (∀ nx, tiers !! S (find_start_tier cum tiers 0 0) = Some nx →
         tokens <= threshold nx - cum) →
  _calculate_tiered_cost (S (S fuel)) tokens cum tiers unit ct
  = Some (Ok (PrimFloat.add 0
                (PrimFloat.mul
                   (PrimFloat.div (float_of_int tokens) (float_of_int unit))
                   (tier_get ct t)))).
Proof.
  intros Hunit Hpos Ht Hnx. unfold _calculate_tiered_cost.
  destruct (Z.eqb_spec tokens 0) as [?|_]; [lia|].
  destruct tiers as [|t0 rest]; [done|]. cbn [orb].
  set (s0 := {| total_cost := 0%float; tokens_remaining := tokens;
                current_cumulative := cum;
                current_tier_idx := find_start_tier cum (t0 :: rest) 0 0 |}).
  cbn [while]. rewrite loop_cond_true.
  2: { done. }
  2: { cbn [s0 current_tier_idx]. by eapply lookup_lt_Some. }
  rewrite (loop_body_step _ _ _ _ t Hunit) by done.
  cbn [s0 current_tier_idx tokens_remaining current_cumulative total_cost].
  assert (match (t0 :: rest) !! S (find_start_tier cum (t0 :: rest) 0 0) with
          | Some next => Z.min tokens (threshold next - cum)
          | None => tokens
          end = tokens) as ->.
  { destruct ((t0 :: rest) !! S _) as [nx|] eqn:Hn; [|done].
    specialize (Hnx nx eq_refl). lia. }
  rewrite loop_cond_done by (cbn; lia). reflexivity.
Qed.

(** Sorting keeps the tiers. *)
Lemma insert_tier_perm t l : insert_tier t l ≡ₚ t :: l.
Proof.
  induction l as [|x r IH]; simpl; [done|].
  destruct (threshold t <? threshold x); [done|].
  rewrite IH. apply Permutation_swap.
Qed.

Lemma sort_tiers_perm tiers : sort_tiers tiers ≡ₚ tiers.
Proof.
  unfold sort_tiers.
  assert (∀ acc, fold_left (λ acc t, insert_tier t acc) tiers acc ≡ₚ acc ++ tiers) as H.
  { induction tiers as [|t r IH]; intros acc; simpl.
    - by rewrite app_nil_r.
    - rewrite IH, insert_tier_perm. simpl. apply Permutation_middle. }
  apply (H []).
Qed.

Lemma _load_pricing_snoc models pm :
  _load_pricing (models ++ [pm]) = load_model (_load_pricing models) pm.2.
Proof. unfold _load_pricing. by rewrite fold_left_app. Qed.

(** Where an entry of the cache comes from. *)
Definition loaded_from (models : list (string * model_cfg)) (key : string)
           (entry : pricing) : Prop :=
  ∃ profile provider model p,
    (profile, ModelCfg provider model (Some p)) ∈ models
    ∧ pricing_cfg_empty p = false
    ∧ Pricing.model_key_of provider model = key
    ∧ match cfg_tiers p with
      | Some cfg =>
          ∃ tiers, entry = Tiered (default 1000000 (cfg_unit p)) tiers
                   ∧ tiers ≡ₚ load_tier <$> cfg
      | None =>
          entry = Simple (default 1000000 (cfg_unit p))
                         (default 0%float (cfg_input_cost p))
                         (default 0%float (cfg_output_cost p))
      end.

Lemma loaded_from_mono models pm key entry :
  loaded_from models key entry → loaded_from (models ++ [pm]) key entry.
Proof.
  intros (profile & provider & model & p & Hin & H).
  exists profile, provider, model, p. split; [|done].
  apply elem_of_app. by left.
Qed.

Lemma _load_pricing_loaded_from models key entry :
  _load_pricing models !! key = Some entry → loaded_from models key entry.
Proof.
  revert key entry. induction models as [|[profile m] models IH] using rev_ind;
    intros key entry H.
  - unfold _load_pricing in H. cbn [fold_left] in H. by rewrite lookup_empty in H.
  - rewrite _load_pricing_snoc in H. cbn [snd] in H.
    destruct m as [|provider model [p|]]; cbn [load_model] in H;
      try (apply loaded_from_mono; by apply IH).
    destruct (pricing_cfg_empty p) eqn:He; [apply loaded_from_mono; by apply IH|].
    destruct (decide (Pricing.model_key_of provider model = key)) as [Hk|Hk].
    + exists profile, provider, model, p.
      split; [apply elem_of_app; right; by apply list_elem_of_singleton|].
      split; [done|]. split; [done|].
      destruct (cfg_tiers p) as [cfg|].
      * rewrite Hk, lookup_insert_eq in H. simplify_eq.
        eexists. split; [done|]. apply sort_tiers_perm.
      * rewrite Hk, lookup_insert_eq in H. by simplify_eq.
    + apply loaded_from_mono, IH.
      destruct (cfg_tiers p); by rewrite lookup_insert_ne in H.
Qed.

End TierEdgeFacts.

Import Pricing TieredSpec PricingFacts TierEdgeFacts.

(** X4. [_calculate_tiered_cost] returns [0.0] without dividing when the
    call has no tokens (zero, or a negative count) or the tier list is empty:
    no error is raised even when [unit] is zero. *)
Theorem tiered_cost_without_tokens_or_tiers_is_zero :
  ∀ fuel tokens cumulative_tokens (tiers : list tier) unit (ct : cost_type),
    tokens <= 0 ∨ tiers = [] →
    _calculate_tiered_cost (S fuel) tokens cumulative_tokens tiers unit ct
    = Some (Ok 0%float).
Proof.
  intros fuel tokens cum tiers unit ct H. unfold _calculate_tiered_cost.
  destruct ((tokens =? 0) || _) eqn:Hshort; [done|].
  apply orb_false_iff in Hshort as [Hz Ht].
  destruct H as [Hle| ->]; [|done].
  cbn [while]. rewrite loop_cond_done; [done|]. cbn. lia.
Qed.

Lemma tiered_cost_without_tokens_or_tiers_is_zero_witness :
  _calculate_tiered_cost 1 (-5) 800 example_tiers 0 InputCost = Some (Ok 0%float).
Proof.
  apply (tiered_cost_without_tokens_or_tiers_is_zero 0 (-5) 800 example_tiers 0 InputCost).
  left. lia.
Defined.

(** X5. A pricing entry whose [unit] is zero makes [calculate_cost] raise
    [ZeroDivisionError]: always for simple pricing (even for a call without
    tokens), and for tiered pricing as soon as the call has input tokens. *)
Theorem zero_unit_raises_ZeroDivisionError :
  ∀ fuel (cache : gmap string pricing) model_key
    input_tokens output_tokens cumulative_input cumulative_output,
    ((∃ ic oc, cache !! model_key = Some (Simple 0 ic oc))
     ∨ (∃ tiers, cache !! model_key = Some (Tiered 0 tiers)
                 ∧ tiers ≠ [] ∧ 0 < input_tokens)) →
    calculate_cost (S fuel) cache model_key
      input_tokens output_tokens cumulative_input cumulative_output
    = Some (Raise ZeroDivisionError).
Proof.
  intros fuel cache key it ot ci co [(ic & oc & Hk)|(tiers & Hk & Hne & Hpos)];
    unfold calculate_cost; rewrite Hk; [reflexivity|].
  assert (_calculate_tiered_cost (S fuel) it ci tiers 0 InputCost
          = Some (Raise ZeroDivisionError)) as ->; [|done].
  unfold _calculate_tiered_cost.
  destruct (Z.eqb_spec it 0) as [?|_]; [lia|].
  destruct tiers as [|t0 rest]; [done|]. cbn [orb while].
  rewrite loop_cond_true.
  - unfold loop_body. cbn [current_tier_idx].
    destruct (lookup_lt_is_Some_2 (t0 :: rest) (find_start_tier ci (t0 :: rest) 0 0))
      as [t ->]; [by apply find_start_tier_lt|].
    reflexivity.
  - done.
  - cbn [current_tier_idx]. by apply find_start_tier_lt.
Qed.

Lemma zero_unit_raises_ZeroDivisionError_witness :
  calculate_cost 1 {[ "Mock:m"%string := Simple 0 1%float 2%float ]} "Mock:m" 0 0 0 0
  = Some (Raise ZeroDivisionError).
Proof.
  apply (zero_unit_raises_ZeroDivisionError 0
           {[ "Mock:m"%string := Simple 0 1%float 2%float ]} "Mock:m"%string 0 0 0 0).
  left. exists 1%float, 2%float. reflexivity.
Defined.

(** X6. While the cumulative count is still below the threshold of the
    first tier, the call is charged at the rate of the first tier: if it does
    not reach the threshold of the second tier (or there is none), its cost
    is [0.0 + tokens / unit * rate] of the first tier. *)
Theorem tokens_below_first_threshold_pay_first_tier :
  ∀ fuel tokens cumulative_tokens (tiers : list tier) unit (ct : cost_type) first,
    unit ≠ 0 →
    0 < tokens →
    head tiers = Some first →
    cumulative_tokens < threshold first →
    (∀ next, tiers !! 1%nat = Some next → tokens <= threshold next - cumulative_tokens) →
    _calculate_tiered_cost (S (S fuel)) tokens cumulative_tokens tiers unit ct
    = Some (Ok (PrimFloat.add 0
                  (PrimFloat.mul
                     (PrimFloat.div (float_of_int tokens) (float_of_int unit))
                     (tier_get ct first)))).
Proof.
  intros fuel tokens cum tiers unit ct first Hunit Hpos Hhd Hlt Hnx.
  destruct tiers as [|t0 rest]; [done|]. cbn in Hhd. simplify_eq.
  apply within_one_tier; try done.
  - by rewrite find_start_tier_below.
  - by rewrite find_start_tier_below.
Qed.

Lemma tokens_below_first_threshold_pay_first_tier_witness :
  _calculate_tiered_cost 2 50 0
    [ {| threshold := 100; Pricing.input_cost := 10%float; Pricing.output_cost := 10%float |};
      {| threshold := 1000; Pricing.input_cost := 5%float; Pricing.output_cost := 5%float |} ]
    1000 InputCost
  = Some (Ok (PrimFloat.add 0
                (PrimFloat.mul (PrimFloat.div (float_of_int 50) (float_of_int 1000))
                               10%float))).
Proof.
  apply (tokens_below_first_threshold_pay_first_tier 0 50 0
           [ {| threshold := 100; Pricing.input_cost := 10%float;
                Pricing.output_cost := 10%float |};
             {| threshold := 1000; Pricing.input_cost := 5%float;
                Pricing.output_cost := 5%float |} ]
           1000 InputCost
           {| threshold := 100; Pricing.input_cost := 10%float;
              Pricing.output_cost := 10%float |}).
  - lia.
  - lia.
  - reflexivity.
  - simpl. lia.
  - intros next Hn. cbn in Hn. simplify_eq. simpl. lia.
Defined.

(** X7. With a single tier the cumulative count plays no role: every call
    with tokens costs [0.0 + tokens / unit * rate] of that tier, whatever its
    threshold. *)
Theorem single_tier_ignores_cumulative_count :
  ∀ fuel tokens cumulative_tokens (t : tier) unit (ct : cost_type),
    unit ≠ 0 →
    0 < tokens →
    _calculate_tiered_cost (S (S fuel)) tokens cumulative_tokens [t] unit ct
    = Some (Ok (PrimFloat.add 0
                  (PrimFloat.mul
                     (PrimFloat.div (float_of_int tokens) (float_of_int unit))
                     (tier_get ct t)))).
Proof.
  intros fuel tokens cum t unit ct Hunit Hpos.
  assert (find_start_tier cum [t] 0 0 = 0%nat) as Hs.
  { simpl. by destruct (cum >=? threshold t). }
  apply within_one_tier; [done|done|by rewrite Hs|].
  rewrite Hs. intros nx Hn. done.
Qed.

Lemma single_tier_ignores_cumulative_count_witness :
  _calculate_tiered_cost 2 500 123456
    [ {| threshold := 1000; Pricing.input_cost := 5%float; Pricing.output_cost := 7%float |} ]
    1000 OutputCost
  = Some (Ok (PrimFloat.add 0
                (PrimFloat.mul (PrimFloat.div (float_of_int 500) (float_of_int 1000))
                               7%float))).
Proof.
  apply (single_tier_ignores_cumulative_count 0 500 123456
           {| threshold := 1000; Pricing.input_cost := 5%float;
              Pricing.output_cost := 7%float |} 1000 OutputCost).
  - lia.
  - lia.
Defined.

(** X8. [calculate_cost] always returns or raises: the loop of
    [_calculate_tiered_cost] moves one tier further at each turn, so one more
    unit of fuel than the entry has tiers is enough, for all token counts,
    cumulative counts, thresholds and units. *)
Theorem calculate_cost_always_ends :
  ∀ fuel (cache : gmap string pricing) model_key
    input_tokens output_tokens cumulative_input cumulative_output,
    (∀ unit tiers, cache !! model_key = Some (Tiered unit tiers) →
                   (length tiers < fuel)%nat) →
    is_Some (calculate_cost fuel cache model_key
               input_tokens output_tokens cumulative_input cumulative_output).
Proof.
  intros fuel cache key it ot ci co Hfuel. unfold calculate_cost.
  destruct (cache !! key) as [[unit ic oc|unit tiers|ty unit]|] eqn:Hk; [eauto| |eauto..].
  specialize (Hfuel unit tiers eq_refl).
  destruct (tiered_cost_ends fuel it ci tiers unit InputCost Hfuel) as [[a|e] ->]; [|eauto].
  destruct (tiered_cost_ends fuel ot co tiers unit OutputCost Hfuel) as [[b|e] ->]; eauto.
Qed.

Lemma calculate_cost_always_ends_witness :
  is_Some (calculate_cost 3 (_load_pricing example_models) "OpenAI:gpt-5"
             1200 (-7) 990 5000).
Proof.
  apply (calculate_cost_always_ends 3 (_load_pricing example_models)
           "OpenAI:gpt-5"%string 1200 (-7) 990 5000).
  intros unit tiers H. vm_compute in H. simplify_eq. simpl. lia.
Defined.

(** X9. Every entry [_load_pricing] puts in the cache comes from a profile
    of the configuration that is a dict with a non-empty [pricing]: its key is
    the normalized provider name and the model name of that profile, its unit
    the configured one (one million by default).  The entry is simple or
    tiered, never of another type; a tiered entry holds exactly the configured
    tiers (with their defaults), none lost or repeated, in ascending order of
    threshold. *)
Theorem load_pricing_entries_come_from_the_configuration :
  ∀ (models : list (string * model_cfg)) model_key (entry : pricing),
    _load_pricing models !! model_key = Some entry →
    ∃ profile provider model p,
      (profile, ModelCfg provider model (Some p)) ∈ models
      ∧ pricing_cfg_empty p = false
      ∧ Pricing.model_key_of provider model = model_key
      ∧ match cfg_tiers p with
        | Some cfg =>
            ∃ tiers,
              entry = Tiered (default 1000000 (cfg_unit p)) tiers
              ∧ tiers ≡ₚ load_tier <$> cfg
              ∧ ∀ i j ti tj, (i <= j)%nat → tiers !! i = Some ti →
                             tiers !! j = Some tj → threshold ti <= threshold tj
        | None =>
            entry = Simple (default 1000000 (cfg_unit p))
                           (default 0%float (cfg_input_cost p))
                           (default 0%float (cfg_output_cost p))
        end.
Proof.
  intros models key entry H.
  destruct (_load_pricing_loaded_from models key entry H)
    as (profile & provider & model & p & Hin & He & Hk & Hentry).
  exists profile, provider, model, p. do 3 (split; [done|]).
  destruct (cfg_tiers p) as [cfg|]; [|done].
  destruct Hentry as (tiers & -> & Hperm).
  exists tiers. split; [done|]. split; [done|].
  by apply (_load_pricing_sorted models key (default 1000000 (cfg_unit p))).
Qed.

Lemma load_pricing_entries_come_from_the_configuration_witness :
  ∃ profile provider model p,
    (profile, ModelCfg provider model (Some p)) ∈ example_models
    ∧ pricing_cfg_empty p = false
    ∧ Pricing.model_key_of provider model = "OpenAI:gpt-5"%string
    ∧ match cfg_tiers p with
      | Some cfg =>
          ∃ tiers,
            Tiered 1000 example_tiers = Tiered (default 1000000 (cfg_unit p)) tiers
            ∧ tiers ≡ₚ load_tier <$> cfg
            ∧ ∀ i j ti tj, (i <= j)%nat → tiers !! i = Some ti →
                           tiers !! j = Some tj → threshold ti <= threshold tj
      | None =>
          Tiered 1000 example_tiers
          = Simple (default 1000000 (cfg_unit p))
                   (default 0%float (cfg_input_cost p))
                   (default 0%float (cfg_output_cost p))
      end.
Proof.
  apply (load_pricing_entries_come_from_the_configuration example_models
           "OpenAI:gpt-5"%string (Tiered 1000 example_tiers)).
  vm_compute. reflexivity.
Defined.

(** ** Steering: what is read, and what counts as urgent *)

Module SteeringMoreFacts.
Import Steering Notions FloatFacts SteeringFacts StringFacts UrgentFacts.

Lemma parse_entry_truthy d l e :
  parse_entry d l = Ok (Some e) → truthy (text e) = true.
Proof.
  unfold parse_entry, mbind, result_bind.
  do 6 step_bind.
  match goal with |- context [json_strip ?v] => destruct v; try done end.
  cbn [json_strip Py.bind].
  match goal with |- context [truthy ?t] => destruct (truthy t) eqn:Ht; [|done] end.
  by intros [= <-].
Qed.

Lemma read_line_truthy d l e : e ∈ read_line d l → truthy (text e) = true.
Proof.
  unfold read_line. destruct (truthy (strip (raw l))) eqn:Hl; [|by intros ?%elem_of_nil].
  destruct (parse_entry d l) as [[e'|]|ex] eqn:Hp.
  - intros ->%list_elem_of_singleton. by eapply parse_entry_truthy.
  - by intros ?%elem_of_nil.
  - by intros ->%list_elem_of_singleton.
Qed.

Lemma read_line_length d l : (length (read_line d l) <= 1)%nat.
Proof.
  unfold read_line. destruct (truthy _); [|simpl; lia].
  destruct (parse_entry d l) as [[e|]|ex]; simpl; lia.
Qed.

Lemma bind_read_line_length d lines :
  (length (lines ≫= read_line d) <= length lines)%nat.
Proof.
  induction lines as [|l r IH]; [done|].
  cbn [mbind list_bind]. rewrite length_app.
  pose proof (read_line_length d l). simpl. change (list_bind _ _ _ r) with (r ≫= read_line d). lia.
Qed.

Lemma last_slice_le {A} (limit : Z) (out : list A) :
  (length (last_slice limit out) <= length out)%nat.
Proof.
  destruct (last_slice_suffix limit out) as [older Ho].
  rewrite Ho at 2. rewrite length_app. lia.
Qed.

Lemma entry_in_bind d limit e lines :
  steering_jsonl d = Some lines →
  e ∈ _read_steering_entries d limit → ∃ l, l ∈ lines ∧ e ∈ read_line d l.
Proof.
  intros Hl He. unfold _read_steering_entries in He. rewrite Hl in He.
  destruct (last_slice_suffix limit (lines ≫= read_line d)) as [older Ho].
  assert (e ∈ lines ≫= read_line d) as Hin
    by (rewrite Ho; apply elem_of_app; by right).
  apply list_elem_of_bind in Hin as (l & Hin & Hl'). eauto.
Qed.

(** What [_find_latest_urgent_steer] returns is an entry of the window that
    passed the test of the loop. *)
Lemma find_latest_spec d e :
  cursor_ok d → _find_latest_urgent_steer d = Some e →
  e ∈ _read_steering_entries d 80
  ∧ PrimFloat.leb (ts e) (_get_last_consumed_steer_ts d) = false
  ∧ PrimFloat.eqb (ts e) 0 = false
  ∧ urgent_text (text e) = true.
Proof.
  intros Hok. unfold _find_latest_urgent_steer. cbv zeta.
  pose proof (find_newest (is_candidate (_get_last_consumed_steer_ts d))
                (_read_steering_entries d 80)) as Hf.
  destruct (snd <$> list_find _ (reverse (_read_steering_entries d 80))) as [x|];
    [|done].
  destruct Hf as (older & newer & Heq & Hx & _).
  assert (x ∈ _read_steering_entries d 80) as Hin
    by (rewrite Heq; apply elem_of_app; right; apply elem_of_cons; by left).
  cbn. intros [= <-]. cbn [ts text].
  apply andb_true_iff in Hx as [Hts Hu]. apply negb_true_iff in Hts.
  rewrite (entries_stripped _ _ _ Hin) in Hu |- *.
  unfold entry_ts, float_truthy in *.
  destruct (PrimFloat.eqb (ts x) 0) eqn:Hz; cbn [negb] in *.
  - unfold cursor_ok in Hok. congruence.
  - split; [by destruct x|]. done.
Qed.

(** Nothing is below a NaN. *)
Lemma ltb_nan a b : PrimFloat.eqb b b = false → PrimFloat.ltb a b = false.
Proof.
  rewrite FloatAxioms.eqb_spec, FloatAxioms.ltb_spec. unfold SFeqb, SFltb.
  destruct (Prim2SF b) as [s|s| |s m e]; simpl.
  - by destruct s.
  - by destruct s.
  - intros _. by destruct (Prim2SF a).
  - rewrite Z.compare_refl.
    assert (PosDef.Pos.compare_cont Eq m m = Eq) as ->.
    { change (PosDef.Pos.compare_cont Eq m m) with (Pos.compare m m).
      apply Pos.compare_refl. }
    by destruct s.
Qed.

Lemma leb_nan a b : PrimFloat.eqb a a = false → PrimFloat.leb a b = false.
Proof.
  rewrite FloatAxioms.eqb_spec, FloatAxioms.leb_spec. unfold SFeqb, SFleb.
  destruct (Prim2SF a) as [s|s| |s m e]; simpl.
  - by destruct s.
  - by destruct s.
  - done.
  - rewrite Z.compare_refl.
    assert (PosDef.Pos.compare_cont Eq m m = Eq) as ->.
    { change (PosDef.Pos.compare_cont Eq m m) with (Pos.compare m m).
      apply Pos.compare_refl. }
    by destruct s.
Qed.

End SteeringMoreFacts.

Import Steering Notions FloatFacts SteeringFacts StringFacts UrgentFacts SteeringMoreFacts.

(** X10. Every entry [_read_steering_entries] returns carries a text that
    is not empty and has no surrounding whitespace (blank lines and objects
    without text give no entry), and a line never gives more than one entry:
    the result is not longer than the file has lines. *)
Theorem steering_entries_have_stripped_nonempty_text :
  ∀ (d : disk) (limit : Z) (e : entry),
    e ∈ _read_steering_entries d limit →
    truthy (text e) = true
    ∧ strip (text e) = text e
    ∧ (length (_read_steering_entries d limit)
       <= length (default [] (steering_jsonl d)))%nat.
Proof.
  intros d limit e He. split; [|split].
  - destruct (steering_jsonl d) as [lines|] eqn:Hl.
    + destruct (entry_in_bind d limit e lines Hl He) as (l & _ & Hin).
      by eapply read_line_truthy.
    + unfold _read_steering_entries in He. rewrite Hl in He. by apply elem_of_nil in He.
  - by eapply entries_stripped.
  - unfold _read_steering_entries. destruct (steering_jsonl d) as [lines|]; [|done].
    cbn [default]. etrans; [apply last_slice_le|]. apply bind_read_line_length.
Qed.

Lemma steering_entries_have_stripped_nonempty_text_witness :
  truthy "audit the Whole Codebase" = true
  ∧ strip "audit the Whole Codebase" = "audit the Whole Codebase"%string
  ∧ (length (_read_steering_entries (example_disk None) 2)
     <= length (default [] (steering_jsonl (example_disk None))))%nat.
Proof.
  apply (steering_entries_have_stripped_nonempty_text (example_disk None) 2
           {| ts := 7%float; text := "audit the Whole Codebase" |}).
  vm_compute. constructor 2. constructor 1.
Defined.

(** X11. On a cursor file that holds no negative number, the directive
    [_find_latest_urgent_steer] returns is an entry of the window whose
    timestamp is not at or below the cursor and is not zero, and whose text
    matches the urgent classifier: a consumed directive, and an entry without
    timestamp, are never returned. *)
Theorem urgent_steer_is_unconsumed_and_timestamped :
  ∀ (d : disk) (e : entry),
    cursor_ok d →
    _find_latest_urgent_steer d = Some e →
    e ∈ _read_steering_entries d 80
    ∧ PrimFloat.leb (ts e) (_get_last_consumed_steer_ts d) = false
    ∧ PrimFloat.eqb (ts e) 0 = false
    ∧ urgent_text (text e) = true.
Proof. intros d e Hok Hf. by apply find_latest_spec. Qed.

Lemma urgent_steer_is_unconsumed_and_timestamped_witness :
  let d := example_disk (Some 5%float) in
  let e := {| ts := 7%float; text := "audit the Whole Codebase" |} in
  e ∈ _read_steering_entries d 80
  ∧ PrimFloat.leb (ts e) (_get_last_consumed_steer_ts d) = false
  ∧ PrimFloat.eqb (ts e) 0 = false
  ∧ urgent_text (text e) = true.
Proof.
  apply (urgent_steer_is_unconsumed_and_timestamped (example_disk (Some 5%float))
           {| ts := 7%float; text := "audit the Whole Codebase" |}).
  - reflexivity.
  - vm_compute. reflexivity.
Defined.

(** X12. A steering log that holds only lines [json.loads] rejects never
    yields an urgent directive, whatever the lines say: each is read back as
    an entry with timestamp 0, which the consumed-cursor test skips. *)
Theorem undecodable_lines_are_never_urgent :
  ∀ (d : disk) (lines : list line),
    cursor_ok d →
    steering_jsonl d = Some lines →
    (∀ l, l ∈ lines → loads l = None) →
    _find_latest_urgent_steer d = None.
Proof.
  intros d lines Hok Hl Hbad.
  destruct (_find_latest_urgent_steer d) as [e|] eqn:Hf; [|done]. exfalso.
  destruct (find_latest_spec d e Hok Hf) as (Hin & _ & Hz & _).
  destruct (entry_in_bind d 80 e lines Hl Hin) as (l & Hlin & He).
  unfold read_line, parse_entry in He. rewrite (Hbad l Hlin) in He.
  destruct (truthy (strip (raw l))); cbn in He.
  - apply list_elem_of_singleton in He. subst e. cbn in Hz. done.
  - by apply elem_of_nil in He.
Qed.

Lemma undecodable_lines_are_never_urgent_witness :
  _find_latest_urgent_steer
    {| steering_jsonl := Some [ {| raw := "investigate the vault now"; loads := None |} ];
       steering_cursor := None; cursor_writable := true;
       float_of_str := λ _, Raise ValueError |}
  = None.
Proof.
  apply (undecodable_lines_are_never_urgent
           {| steering_jsonl :=
                Some [ {| raw := "investigate the vault now"; loads := None |} ];
              steering_cursor := None; cursor_writable := true;
              float_of_str := λ _, Raise ValueError |}
           [ {| raw := "investigate the vault now"; loads := None |} ]).
  - reflexivity.
  - reflexivity.
  - intros l Hl. apply list_elem_of_singleton in Hl. by subst l.
Defined.

(** X13. A directive is handed out once: after the directive
    [_find_latest_urgent_steer] returned has been consumed (writable cursor
    file, timestamp a number), the cursor holds its timestamp, and whatever a
    later call returns on the same or a longer log is another entry, with a
    timestamp that is not at or below the consumed one. *)
Theorem consumed_directive_is_not_found_again :
  ∀ (d : disk) (e : entry) (more : list line),
    cursor_writable d = true →
    cursor_ok d →
    _find_latest_urgent_steer d = Some e →
    PrimFloat.eqb (ts e) (ts e) = true →
    let consumed := _consume_steer d (entry_ts e) in
    let later := {| steering_jsonl := Some (default [] (steering_jsonl consumed) ++ more);
                    steering_cursor := steering_cursor consumed;
                    cursor_writable := cursor_writable consumed;
                    float_of_str := float_of_str consumed |} in
    steering_cursor consumed = Some (ts e)
    ∧ steering_jsonl consumed = steering_jsonl d
    ∧ ∀ e', _find_latest_urgent_steer later = Some e' →
            PrimFloat.leb (ts e') (ts e) = false ∧ e' ≠ e.
Proof.
  intros d e more Hw Hok Hf Hnum consumed later.
  destruct (find_latest_spec d e Hok Hf) as (_ & Hnew & Hz & _).
  assert (entry_ts e = ts e) as Hts.
  { unfold entry_ts, float_truthy. by rewrite Hz. }
  assert (PrimFloat.ltb (_get_last_consumed_steer_ts d) (ts e) = true) as Hlt.
  { by apply not_leb_ltb. }
  assert (consumed = {| steering_jsonl := steering_jsonl d;
                        steering_cursor := Some (ts e);
                        cursor_writable := true;
                        float_of_str := float_of_str d |}) as Hc.
  { unfold consumed. rewrite Hts. by apply consume_accepts. }
  split; [by rewrite Hc|]. split; [by rewrite Hc|].
  intros e' Hf'.
  assert (cursor_ok later) as Hok'.
  { unfold later, cursor_ok, _get_last_consumed_steer_ts. cbn [steering_cursor].
    rewrite Hc. cbn. by destruct (above_nonneg _ _ Hok Hlt). }
  destruct (find_latest_spec later e' Hok' Hf') as (_ & Hnew' & _).
  assert (_get_last_consumed_steer_ts later = ts e) as Hcur.
  { unfold later, _get_last_consumed_steer_ts. cbn [steering_cursor]. by rewrite Hc. }
  rewrite Hcur in Hnew'. split; [done|].
  intros ->. revert Hnum Hnew'.
  rewrite FloatAxioms.eqb_spec, FloatAxioms.leb_spec. unfold SFeqb, SFleb.
  by destruct (SFcompare _ _) as [[]|].
Qed.

Lemma consumed_directive_is_not_found_again_witness :
  let d := example_disk None in
  let e := {| ts := 7%float; text := "audit the Whole Codebase" |} in
  let consumed := _consume_steer d (entry_ts e) in
  let later := {| steering_jsonl :=
                    Some (default [] (steering_jsonl consumed)
                          ++ [directive 6 "check the vault"]);
                  steering_cursor := steering_cursor consumed;
                  cursor_writable := cursor_writable consumed;
                  float_of_str := float_of_str consumed |} in
  steering_cursor consumed = Some (ts e)
  ∧ steering_jsonl consumed = steering_jsonl d
  ∧ ∀ e', _find_latest_urgent_steer later = Some e' →
          PrimFloat.leb (ts e') (ts e) = false ∧ e' ≠ e.
Proof.
  apply (consumed_directive_is_not_found_again (example_disk None)
           {| ts := 7%float; text := "audit the Whole Codebase" |}
           [directive 6 "check the vault"]).
  - reflexivity.
  - reflexivity.
  - vm_compute. reflexivity.
  - reflexivity.
Defined.

(** X14. Consuming fails silently in two cases, and the directive is then
    found again by the next call: when the cursor file cannot be written, and
    when the timestamp of the directive is NaN (which [json.loads] accepts),
    since no cursor is below a NaN. *)
Theorem unconsumable_directive_is_found_again :
  ∀ (d : disk) (e : entry),
    _find_latest_urgent_steer d = Some e →
    cursor_writable d = false ∨ PrimFloat.eqb (ts e) (ts e) = false →
    _consume_steer d (entry_ts e) = d
    ∧ _find_latest_urgent_steer (_consume_steer d (entry_ts e)) = Some e.
Proof.
  intros d e Hf Hcase.
  assert (_consume_steer d (entry_ts e) = d) as Hd; [|by rewrite Hd].
  unfold _consume_steer.
  destruct (float_truthy (entry_ts e) && _) eqn:Hc; [|done].
  apply andb_true_iff in Hc as [Ht Hlt].
  destruct Hcase as [Hw|Hnan].
  - unfold _set_last_consumed_steer_ts. by rewrite Hw.
  - exfalso. unfold entry_ts in Ht, Hlt.
    destruct (float_truthy (ts e)); [|done].
    rewrite ltb_nan in Hlt; done.
Qed.

Lemma unconsumable_directive_is_found_again_witness :
  let d := {| steering_jsonl := Some [directive PrimFloat.nan "investigate the vault"];
              steering_cursor := None; cursor_writable := true;
              float_of_str := λ _, Raise ValueError |} in
  let e := {| ts := PrimFloat.nan; text := "investigate the vault" |} in
  _consume_steer d (entry_ts e) = d
  ∧ _find_latest_urgent_steer (_consume_steer d (entry_ts e)) = Some e.
Proof.
  apply (unconsumable_directive_is_found_again
           {| steering_jsonl := Some [directive PrimFloat.nan "investigate the vault"];
              steering_cursor := None; cursor_writable := true;
              float_of_str := λ _, Raise ValueError |}
           {| ts := PrimFloat.nan; text := "investigate the vault" |}).
  - vm_compute. reflexivity.
  - right. reflexivity.
Defined.

(** ** The run: what every batch keeps *)

Module RunInvariantFacts.
Import Steering PlanStore Agent Notions SteeringFacts.

Section WithStore.
Context {S : Type} `{!Store S}.

(** What a step of the run may do to the state: it leaves the list of
    completed goals alone, keeps the cursor valid, and only adds to the goals
    handed to the worker. *)
Definition extends (s s' : state S) : Prop :=
  completed_investigations s' = completed_investigations s
  ∧ (cursor_ok (disk_of s) → cursor_ok (disk_of s'))
  ∧ ∃ more, investigated s' = investigated s ++ more.

Lemma extends_refl s : extends s s.
Proof. split; [done|]. split; [done|]. exists []. by rewrite app_nil_r. Qed.

Lemma extends_trans s1 s2 s3 : extends s1 s2 → extends s2 s3 → extends s1 s3.
Proof.
  intros (Hc1 & Hk1 & m1 & Hm1) (Hc2 & Hk2 & m2 & Hm2).
  split; [congruence|]. split; [tauto|].
  exists (m1 ++ m2). by rewrite Hm2, Hm1, app_assoc.
Qed.

Lemma extends_same (s s' : state S) :
  completed_investigations s' = completed_investigations s →
  disk_of s' = disk_of s →
  investigated s' = investigated s →
  extends s s'.
Proof.
  intros Hc Hd Hi. split; [done|]. split; [by rewrite Hd|].
  exists []. by rewrite app_nil_r.
Qed.

Lemma extends_consume ent (s : state S) : extends s (consume ent s).
Proof.
  split; [done|]. split; [apply consume_cursor_ok|].
  exists []. by rewrite app_nil_r.
Qed.

Lemma extends_append_line l (s : state S) : extends s (append_line l s).
Proof. split; [done|]. split; [done|]. exists []. by rewrite app_nil_r. Qed.

Lemma extends_worker_call g (s : state S) : extends s (with_worker_call g s).
Proof. split; [done|]. split; [done|]. by exists [g]. Qed.

Lemma extends_mark fid st why (s : state S) : extends s (mark fid st why s).
Proof.
  unfold mark. destruct (plan_store s) as [ps|]; [|apply extends_refl].
  destruct (update_status ps fid st why) as [[ok ps']|ex]; [|apply extends_refl].
  by apply extends_same.
Qed.

Lemma extends_steer_check status (s : state S) : extends s (steer_check status s).
Proof.
  unfold steer_check. destruct (is_milestone status); [|apply extends_refl].
  destruct (_find_latest_urgent_steer (disk_of s)) as [ent|]; [|apply extends_refl].
  destruct (truthy (text ent) && _); [|apply extends_refl].
  destruct (_is_global_steer (text ent)); [|apply extends_refl].
  eapply extends_trans; [|apply extends_consume]. by apply extends_same.
Qed.

Lemma extends__cb e start_overall status (s : state S) :
  extends s (_cb e start_overall status s).2.
Proof.
  unfold _cb, time. destruct (time_limit e) as [m|].
  - destruct (PrimFloat.leb _ _); cbn [snd].
    + by apply extends_same.
    + eapply extends_trans; [|apply extends_steer_check]. by apply extends_same.
  - apply extends_steer_check.
Qed.

Lemma _cb_no_limit e start_overall status (s : state S) :
  time_limit e = None → (_cb e start_overall status s).1 = Ok ().
Proof. intros Hl. unfold _cb. by rewrite Hl. Qed.

Lemma extends_run_steps e start_overall todo (s : state S) :
  extends s (run_steps e start_overall todo s).2.
Proof.
  revert s. induction todo as [|[status|l] rest IH]; intros s; cbn [run_steps].
  - apply extends_refl.
  - pose proof (extends__cb e start_overall status s) as Hcb.
    destruct (_cb e start_overall status s) as [[u|ex] s']; cbn [snd] in *.
    + eapply extends_trans; [exact Hcb|apply IH].
    + done.
  - eapply extends_trans; [apply extends_append_line|apply IH].
Qed.

Lemma run_steps_no_limit e start_overall todo (s : state S) :
  time_limit e = None → (run_steps e start_overall todo s).1 = Ok ().
Proof.
  intros Hl. revert s. induction todo as [|[status|l] rest IH]; intros s;
    cbn [run_steps]; [done| |apply IH].
  pose proof (_cb_no_limit e start_overall status s Hl) as Hcb.
  destruct (_cb e start_overall status s) as [[u|ex] s']; cbn [fst] in *; [apply IH|done].
Qed.

(** A call of the worker: the goal is on the list of goals handed out. *)
Lemma investigate_spec e start_overall g (s : state S) :
  extends s (investigate e start_overall g s).2
  ∧ g ∈ investigated (investigate e start_overall g s).2
  ∧ ∃ more, investigated (investigate e start_overall g s).2
            = investigated s ++ g :: more.
Proof.
  unfold investigate.
  pose proof (extends_run_steps e start_overall (steps (worker e (worker_calls s)))
                (with_worker_call g s)) as Hrs.
  assert (extends s (run_steps e start_overall (steps (worker e (worker_calls s)))
                       (with_worker_call g s)).2
          ∧ ∃ more, investigated (run_steps e start_overall
                                    (steps (worker e (worker_calls s)))
                                    (with_worker_call g s)).2
                    = investigated s ++ g :: more) as [Hext [more Hmore]].
  { split; [eapply extends_trans; [apply extends_worker_call|exact Hrs]|].
    destruct Hrs as (_ & _ & more & ->). exists more.
    cbn [with_worker_call investigated]. by rewrite <- app_assoc. }
  assert (g ∈ investigated (run_steps e start_overall
                              (steps (worker e (worker_calls s)))
                              (with_worker_call g s)).2) as Hin.
  { rewrite Hmore. apply elem_of_app. right. apply elem_of_cons. by left. }
  destruct (run_steps _ _ _ _) as [[u|ex] s1]; cbn [snd] in *.
  - destruct (ending _); cbn [snd]; eauto.
  - eauto.
Qed.

(** Without a time limit the callback never raises, so a call of the
    worker ends as the worker ends. *)
Lemma investigate_no_limit e start_overall g (s : state S) :
  time_limit e = None →
  (investigate e start_overall g s).1
  = match ending (worker e (worker_calls s)) with
    | Returns r => Ok r
    | Raises ex => Raise ex
    end.
Proof.
  intros Hl. unfold investigate.
  pose proof (run_steps_no_limit e start_overall (steps (worker e (worker_calls s)))
                (with_worker_call g s) Hl) as Hrs.
  destruct (run_steps _ _ _ _) as [[u|ex] s1]; cbn [fst] in *; [|done].
  by destruct (ending _).
Qed.

Lemma investigate_calls e start_overall g (s : state S) :
  worker_calls (investigate e start_overall g s).2 = Datatypes.S (worker_calls s).
Proof.
  assert (∀ todo (s0 : state S),
            worker_calls (run_steps e start_overall todo s0).2 = worker_calls s0) as Hrs.
  { induction todo as [|[status|l] rest IH]; intros s0; cbn [run_steps]; [done| |].
    - assert (worker_calls (_cb e start_overall status s0).2 = worker_calls s0) as Hcb.
      { unfold _cb, time, steer_check, consume.
        repeat case_match; simplify_eq; reflexivity. }
      destruct (_cb e start_overall status s0) as [[u|ex] s']; cbn [snd] in *.
      + by rewrite IH.
      + done.
    - by rewrite IH. }
  unfold investigate.
  specialize (Hrs (steps (worker e (worker_calls s))) (with_worker_call g s)).
  destruct (run_steps _ _ _ _) as [[u|ex] s1]; cbn [snd] in *.
  - by destruct (ending _).
  - done.
Qed.

Lemma investigate_investigated e start_overall g (s : state S) :
  investigated (investigate e start_overall g s).2 = investigated s ++ [g].
Proof.
  assert (∀ todo (s0 : state S),
            investigated (run_steps e start_overall todo s0).2 = investigated s0) as Hrs.
  { induction todo as [|[status|l] rest IH]; intros s0; cbn [run_steps]; [done| |].
    - assert (investigated (_cb e start_overall status s0).2 = investigated s0) as Hcb.
      { unfold _cb, time, steer_check, consume.
        repeat case_match; simplify_eq; reflexivity. }
      destruct (_cb e start_overall status s0) as [[u|ex] s']; cbn [snd] in *.
      + by rewrite IH.
      + done.
    - by rewrite IH. }
  unfold investigate.
  specialize (Hrs (steps (worker e (worker_calls s))) (with_worker_call g s)).
  destruct (run_steps _ _ _ _) as [[u|ex] s1]; cbn [snd] in *.
  - by destruct (ending _).
  - done.
Qed.

Lemma extends_steer_override inv (s : state S) :
  extends s (steer_override inv s).2.
Proof.
  unfold steer_override.
  destruct (_find_latest_urgent_steer (disk_of s)) as [ent|]; [|apply extends_refl].
  destruct (truthy (text ent) && _ && _); [|apply extends_refl]. cbn [snd].
  eapply extends_trans; [|apply extends_consume]. by apply extends_same.
Qed.

(** What a batch may do to the state and to the variables of [run]: the
    results it adds are the goals it adds to the completed list, each of
    them handed to the worker before; and [time_up] changes only when a time
    limit is set. *)
Definition batch_ok (e : env) (s : state S) (loc : locals)
           (s' : state S) (loc' : locals) : Prop :=
  (cursor_ok (disk_of s) → cursor_ok (disk_of s'))
  ∧ (∃ more, investigated s' = investigated s ++ more)
  ∧ (∃ new, results loc' = results loc ++ new
            ∧ completed_investigations s'
              = completed_investigations s ++ ((λ x, goal x.1) <$> new)
            ∧ ∀ x, x ∈ new → goal x.1 ∈ investigated s')
  ∧ (time_limit e = None →
     (∀ k, ending (worker e k) ≠ Raises TimeLimitReached) →
     time_up loc' = time_up loc).

Lemma batch_ok_extends e s loc s' : extends s s' → batch_ok e s loc s' loc.
Proof.
  intros (Hc & Hk & Hm). split; [done|]. split; [done|]. split; [|done].
  exists []. rewrite app_nil_r. split; [done|]. split.
  - by rewrite Hc, app_nil_r.
  - by intros x ?%elem_of_nil.
Qed.

Lemma batch_ok_trans e s1 l1 s2 l2 s3 l3 :
  batch_ok e s1 l1 s2 l2 → batch_ok e s2 l2 s3 l3 → batch_ok e s1 l1 s3 l3.
Proof.
  intros (Hk1 & [m1 Hm1] & (n1 & Hr1 & Hc1 & Hg1) & Ht1)
         (Hk2 & [m2 Hm2] & (n2 & Hr2 & Hc2 & Hg2) & Ht2).
  split; [tauto|]. split; [exists (m1 ++ m2); by rewrite Hm2, Hm1, app_assoc|].
  split.
  - exists (n1 ++ n2). split; [by rewrite Hr2, Hr1, app_assoc|]. split.
    + by rewrite Hc2, Hc1, fmap_app, app_assoc.
    + intros x [Hx|Hx]%elem_of_app.
      * rewrite Hm2. apply elem_of_app. left. by apply Hg1.
      * by apply Hg2.
  - intros Hl Hw. by rewrite Ht2, Ht1.
Qed.

Lemma batch_ok_extends_l e s0 s loc s' loc' :
  extends s0 s → batch_ok e s loc s' loc' → batch_ok e s0 loc s' loc'.
Proof.
  intros Hext Hb. eapply batch_ok_trans; [|exact Hb]. by apply batch_ok_extends.
Qed.

Lemma batch_ok_finish e inv r (s0 s : state S) loc :
  goal inv ∈ investigated s →
  batch_ok e s loc (finish inv r s loc).1.2 (finish inv r s loc).2.
Proof.
  intros Hin. unfold finish. destruct (_abort_requested s); cbn [fst snd].
  - apply batch_ok_extends. by apply extends_same.
  - assert (∀ s2 : state S,
              extends (with_completed (completed_investigations s ++ [goal inv]) s) s2 →
              batch_ok e s loc s2
                {| results := results loc ++ [(inv, r)]; time_up := time_up loc;
                   executed_frames :=
                     match real_id (inv_frame_id inv) with
                     | Some fid => {[fid]} ∪ executed_frames loc
                     | None => executed_frames loc
                     end |}) as Hgen.
    { intros s2 (Hc & Hk & [m Hm]). split; [done|]. split; [by exists m|].
      split; [|done]. exists [(inv, r)]. split; [done|]. split; [done|].
      intros x ->%list_elem_of_singleton. cbn [fst].
      rewrite Hm. apply elem_of_app. by left. }
    apply Hgen. destruct (real_id (inv_frame_id inv)); [apply extends_mark|apply extends_refl].
Qed.

Lemma investigate_time_limit e start_overall g (s : state S) :
  (investigate e start_overall g s).1 = Raise TimeLimitReached →
  time_limit e = None →
  (∀ k, ending (worker e k) ≠ Raises TimeLimitReached) → False.
Proof.
  intros Hi Hl Hw. rewrite (investigate_no_limit e start_overall g s Hl) in Hi.
  destruct (ending (worker e (worker_calls s))) eqn:He; [done|].
  simplify_eq. by eapply Hw.
Qed.

Lemma batch_ok_timed_out e (s : state S) loc s1 :
  extends s s1 →
  (time_limit e = None →
   (∀ k, ending (worker e k) ≠ Raises TimeLimitReached) → False) →
  batch_ok e s loc s1 (timed_out loc).
Proof.
  intros (Hc & Hk & Hm) Hno. split; [done|]. split; [done|]. split.
  - exists []. rewrite app_nil_r. split; [done|]. split.
    + by rewrite Hc, app_nil_r.
    + by intros x ?%elem_of_nil.
  - intros Hl Hw. destruct (Hno Hl Hw).
Qed.

(** The second call of the worker, after the first one failed. *)
Lemma batch_ok_retry e start_overall inv (s s1 : state S) loc :
  extends s s1 →
  let out := match investigate e start_overall (goal inv) s1 with
             | (Ok r, s2) => finish inv r s2 loc
             | (Raise TimeLimitReached, s2) => (Ok Break, s2, timed_out loc)
             | (Raise ex, s2) => (Raise ex, s2, loc)
             end in
  batch_ok e s loc out.1.2 out.2.
Proof.
  intros Hext1.
  destruct (investigate_spec e start_overall (goal inv) s1) as (Hext2 & Hin2 & _).
  pose proof (investigate_time_limit e start_overall (goal inv) s1) as Ht2.
  destruct (investigate e start_overall (goal inv) s1) as [[r2|ex2] s2];
    cbn [fst snd] in *; cbv zeta.
  - eapply batch_ok_extends_l; [eapply extends_trans; [exact Hext1|exact Hext2]|].
    by apply (batch_ok_finish e inv r2 s).
  - pose proof (extends_trans _ _ _ Hext1 Hext2) as Hext.
    destruct ex2; cbn [fst snd];
      first [ apply batch_ok_timed_out; [exact Hext | by apply Ht2]
            | by apply batch_ok_extends ].
Qed.

Lemma batch_ok_attempt e start_overall inv (s : state S) loc :
  batch_ok e s loc (attempt e start_overall inv s loc).1.2
                   (attempt e start_overall inv s loc).2.
Proof.
  unfold attempt.
  destruct (investigate_spec e start_overall (goal inv) s) as (Hext1 & Hin1 & _).
  pose proof (investigate_time_limit e start_overall (goal inv) s) as Ht1.
  destruct (investigate e start_overall (goal inv) s) as [[r|ex] s1];
    cbn [fst snd] in *.
  - eapply batch_ok_extends_l; [exact Hext1|]. by apply (batch_ok_finish e inv r s).
  - destruct ex;
      first [ apply batch_ok_timed_out; [exact Hext1 | by apply Ht1]
            | by apply batch_ok_extends
            | by apply (batch_ok_retry e start_overall inv s s1 loc) ].
Qed.

Lemma batch_ok_frame_step e start_overall inv (s : state S) loc :
  batch_ok e s loc (frame_step e start_overall inv s loc).1.2
                   (frame_step e start_overall inv s loc).2.
Proof.
  unfold frame_step.
  pose proof (extends_steer_override inv s) as Hso.
  destruct (steer_override inv s) as [inv1 s1]. cbn [snd] in Hso.
  assert (∃ stop s2, extends s s2 ∧
            match time_limit e with
            | Some m =>
                let '(now, s') := time e s1 in
                (PrimFloat.leb
                   (PrimFloat.sub (float_of_int m) (elapsed_minutes start_overall now)) 0,
                 s')
            | None => (false, s1)
            end = (stop, s2)) as (stop & s2 & Hext2 & ->).
  { destruct (time_limit e); unfold time; eexists _, _; (split; [|reflexivity]).
    - eapply extends_trans; [exact Hso|]. by apply extends_same.
    - done. }
  destruct stop; cbn [fst snd]; [by apply batch_ok_extends|].
  destruct (real_id (inv_frame_id inv1)) as [fid|].
  - destruct (bool_decide (fid ∈ executed_frames loc)); cbn [fst snd].
    + apply batch_ok_extends. eapply extends_trans; [exact Hext2|apply extends_mark].
    + unfold time. eapply batch_ok_extends_l; [|apply batch_ok_attempt].
      eapply extends_trans; [exact Hext2|].
      eapply extends_trans; [apply extends_mark|]. by apply extends_same.
  - unfold time. eapply batch_ok_extends_l; [|apply batch_ok_attempt].
    eapply extends_trans; [exact Hext2|]. by apply extends_same.
Qed.

Lemma batch_ok_run_batch e start_overall items (s : state S) loc :
  batch_ok e s loc (run_batch e start_overall items s loc).1.2
                   (run_batch e start_overall items s loc).2.
Proof.
  revert s loc. induction items as [|inv rest IH]; intros s loc; cbn [run_batch].
  - apply batch_ok_extends, extends_refl.
  - pose proof (batch_ok_frame_step e start_overall inv s loc) as Hf.
    destruct (frame_step e start_overall inv s loc) as [[[[]|ex] s1] loc1];
      cbn [fst snd] in *; [|done..].
    eapply batch_ok_trans; [exact Hf|apply IH].
Qed.

Lemma extends__plan_investigations e n (s : state S) :
  extends s (_plan_investigations e n s).2.
Proof.
  unfold _plan_investigations, plan_urgent.
  assert (∃ urgent s1, extends s s1 ∧
            match _find_latest_urgent_steer (disk_of s) with
            | Some urgent_ent =>
                ([steering_frame (text urgent_ent)], consume urgent_ent s)
            | None => ([], s)
            end = (urgent, s1)) as (urgent & s1 & Hext1 & ->).
  { destruct (_find_latest_urgent_steer (disk_of s)); eexists _, _;
      (split; [|reflexivity]); [apply extends_consume|apply extends_refl]. }
  destruct (plan_pending e n s1) as [pending ids].
  destruct (_ >=? n); cbn [snd]; [done|].
  destruct (_ >? 0).
  - destruct (strategist e _ _) as [planned|ex]; cbn [snd].
    + eapply extends_trans; [exact Hext1|]. by apply extends_same.
    + eapply extends_trans; [exact Hext1|]. by apply extends_same.
  - cbn [snd]. eapply extends_trans; [exact Hext1|]. by apply extends_same.
Qed.

Lemma extends_plan_batch e n (s : state S) : extends s (plan_batch e n s).2.
Proof.
  unfold plan_batch.
  pose proof (extends__plan_investigations e n s) as H1.
  destruct (_plan_investigations e n s) as [[items|ex] s1]; cbn [snd] in *; [done|].
  destruct ex; cbn [snd]; try done.
  all: eapply extends_trans; [exact H1|apply extends__plan_investigations].
Qed.

(** What a run leaves, from any planning round on. *)
Definition run_ok (e : env) (s : state S) (res : list (investigation * report))
           (o : @outcome S) : Prop :=
  (cursor_ok (disk_of s) → cursor_ok (disk_of (final_state o)))
  ∧ (∃ more, investigated (final_state o) = investigated s ++ more)
  ∧ (∃ new, final_results o = res ++ new
            ∧ completed_investigations (final_state o)
              = completed_investigations s ++ ((λ x, goal x.1) <$> new)
            ∧ ∀ x, x ∈ new → goal x.1 ∈ investigated (final_state o))
  ∧ (time_limit e = None →
     (∀ k, ending (worker e k) ≠ Raises TimeLimitReached) →
     final_status o ≠ Ok "interrupted"%string).

Lemma run_ok_final e (s s1 : state S) res st :
  extends s s1 → st ≠ Ok "interrupted"%string →
  run_ok e s res {| final_status := st; final_state := s1; final_results := res |}.
Proof.
  intros (Hc & Hk & Hm) Hst. split; [done|]. split; [done|]. split; [|done].
  exists []. rewrite app_nil_r. split; [done|]. split.
  - cbn. by rewrite Hc, app_nil_r.
  - by intros x ?%elem_of_nil.
Qed.

Lemma run_ok_batch e (s s1 : state S) res loc st :
  batch_ok e s {| results := res; time_up := false; executed_frames := ∅ |} s1 loc →
  (time_up loc = false → st ≠ Ok "interrupted"%string) →
  run_ok e s res {| final_status := st; final_state := s1;
                    final_results := results loc |}.
Proof.
  intros (Hk & Hm & (new & Hr & Hc & Hg) & Ht) Hst. split; [done|]. split; [done|].
  split.
  - by exists new.
  - intros Hl Hw. cbn. apply Hst. by rewrite (Ht Hl Hw).
Qed.

Lemma run_ok_trans e (s s1 : state S) res loc o :
  batch_ok e s {| results := res; time_up := false; executed_frames := ∅ |} s1 loc →
  run_ok e s1 (results loc) o → run_ok e s res o.
Proof.
  intros (Hk & [m Hm] & (new & Hr & Hc & Hg) & Ht)
         (Hk2 & [m2 Hm2] & (new2 & Hr2 & Hc2 & Hg2) & Hs).
  split; [tauto|]. split; [exists (m ++ m2); by rewrite Hm2, Hm, app_assoc|].
  split; [|done].
  exists (new ++ new2). cbn [results] in Hr. split; [by rewrite Hr2, Hr, app_assoc|].
  split.
  - by rewrite Hc2, Hc, fmap_app, app_assoc.
  - intros x [Hx|Hx]%elem_of_app; [|by apply Hg2].
    rewrite Hm2. apply elem_of_app. left. by apply Hg.
Qed.

Lemma run_ok_extends_l e (s0 s : state S) res o :
  extends s0 s → run_ok e s res o → run_ok e s0 res o.
Proof.
  intros (Hc & Hk & [m Hm]) (Hk2 & [m2 Hm2] & (new & Hr & Hc2 & Hg) & Hs).
  split; [tauto|]. split; [exists (m ++ m2); by rewrite Hm2, Hm, app_assoc|].
  split; [|done]. exists new. split; [done|]. split; [by rewrite Hc2, Hc|done].
Qed.

Lemma rounds_ok fuel e plan_n start_overall (s : state S) res o :
  rounds fuel e plan_n start_overall s res = Some o → run_ok e s res o.
Proof.
  revert s res. induction fuel as [|fuel IH]; intros s res; [done|].
  cbn [rounds].
  assert (∃ up s1, extends s s1 ∧
            match time_limit e with
            | Some m =>
                let '(now, s') := time e s in
                (PrimFloat.leb (float_of_int m) (elapsed_minutes start_overall now), s')
            | None => (false, s)
            end = (up, s1)) as (up & s1 & Hext1 & ->).
  { destruct (time_limit e); unfold time; eexists _, _; (split; [|reflexivity]).
    - by apply extends_same.
    - apply extends_refl. }
  destruct up.
  { intros [= <-]. by apply run_ok_final. }
  pose proof (extends_plan_batch e (Z.max 1 plan_n) s1) as Hpb.
  destruct (plan_batch e (Z.max 1 plan_n) s1) as [[items|ex] s2]; cbn [snd] in Hpb.
  2: { intros [= <-]. apply run_ok_final; [by eapply extends_trans|done]. }
  destruct items as [|inv rest].
  { intros [= <-]. apply run_ok_final; [by eapply extends_trans|done]. }
  pose proof (batch_ok_run_batch e start_overall (inv :: rest) s2
                {| results := res; time_up := false; executed_frames := ∅ |}) as Hb.
  destruct (run_batch e start_overall (inv :: rest) s2 _) as [[[u|ex] s3] loc];
    cbn [fst snd] in Hb.
  - destruct (time_up loc) eqn:Hup.
    + intros [= <-]. eapply run_ok_extends_l; [by eapply extends_trans|].
      apply run_ok_batch; [done|]. congruence.
    + intros Hr. eapply run_ok_extends_l; [by eapply extends_trans|].
      eapply run_ok_trans; [exact Hb|]. by apply IH.
  - intros [= <-]. eapply run_ok_extends_l; [by eapply extends_trans|].
    by apply run_ok_batch.
Qed.

Lemma worker_calls__plan_investigations e n (s : state S) :
  worker_calls (_plan_investigations e n s).2 = worker_calls s.
Proof.
  unfold _plan_investigations, plan_urgent, consume.
  repeat case_match; simplify_eq; reflexivity.
Qed.

Lemma worker_calls_plan_batch e n (s : state S) :
  worker_calls (plan_batch e n s).2 = worker_calls s.
Proof.
  unfold plan_batch.
  pose proof (worker_calls__plan_investigations e n s) as H1.
  destruct (_plan_investigations e n s) as [[items|ex] s1]; cbn [snd] in *; [done|].
  destruct ex; cbn [snd]; try done.
  all: by rewrite worker_calls__plan_investigations.
Qed.

Lemma worker_calls_mark fid st why (s : state S) :
  worker_calls (mark fid st why s) = worker_calls s.
Proof. unfold mark. by repeat case_match. Qed.

Lemma worker_calls_steer_override inv (s : state S) :
  worker_calls (steer_override inv s).2 = worker_calls s.
Proof. unfold steer_override, consume. by repeat case_match. Qed.

(** A keyboard interrupt of the worker ends the first frame of a batch. *)
Lemma frame_step_keyboard_interrupt e start_overall inv (s : state S) loc :
  time_limit e = None →
  ending (worker e (worker_calls s)) = Raises KeyboardInterrupt →
  executed_frames loc = ∅ →
  ∃ s', frame_step e start_overall inv s loc = (Raise KeyboardInterrupt, s', loc)
        ∧ worker_calls s' = Datatypes.S (worker_calls s).
Proof.
  intros Hl He Hex. unfold frame_step.
  pose proof (worker_calls_steer_override inv s) as Hso.
  destruct (steer_override inv s) as [inv1 s1]. cbn [snd] in Hso.
  rewrite Hl.
  assert (∀ s4 : state S, worker_calls s4 = worker_calls s →
            ∃ s', attempt e start_overall inv1 s4 loc = (Raise KeyboardInterrupt, s', loc)
                  ∧ worker_calls s' = Datatypes.S (worker_calls s)) as Hat.
  { intros s4 Hw. unfold attempt.
    pose proof (investigate_no_limit e start_overall (goal inv1) s4 Hl) as H1.
    pose proof (investigate_calls e start_overall (goal inv1) s4) as Hc1.
    rewrite Hw, He in H1. rewrite Hw in Hc1.
    destruct (investigate e start_overall (goal inv1) s4) as [r1 s5].
    cbn [fst snd] in *. subst r1. eauto. }
  destruct (real_id (inv_frame_id inv1)) as [fid|].
  - rewrite Hex. rewrite bool_decide_eq_false_2 by set_solver.
    unfold time. apply Hat. cbn. by rewrite worker_calls_mark.
  - unfold time. apply Hat. done.
Qed.

Lemma run_ok_run fuel e plan_n (s : state S) o :
  run fuel e plan_n s = Some o → run_ok e s [] o.
Proof.
  unfold run, time. intros Hr. eapply run_ok_extends_l; [|by eapply rounds_ok].
  by apply extends_same.
Qed.

End WithStore.



End RunInvariantFacts.

Import Steering PlanStore Agent Notions Examples RunInvariantFacts.



(** X16. Without a time limit (none given, or 0 minutes), and with a worker
    that does not itself raise the exception private to the callback, [run]
    never finalizes the session as "interrupted": it ends as "completed" or
    with an exception. *)
Theorem run_without_time_limit_is_never_interrupted :
  ∀ (S : Type) (St : PlanStore.Store S) fuel e plan_n (s : state S) (o : outcome),
    time_limit e = None →
    (∀ k, ending (worker e k) ≠ Raises TimeLimitReached) →
    run fuel e plan_n s = Some o →
    final_status o ≠ Ok "interrupted"%string
    ∧ (terminal_status o = "interrupted"%string →
       final_status o = Raise KeyboardInterrupt).
Proof.
  intros S St fuel e plan_n s o Hl Hw Hr.
  destruct (run_ok_run fuel e plan_n s o Hr) as (_ & _ & _ & Hs).
  specialize (Hs Hl Hw). split; [done|].
  unfold terminal_status. destruct (final_status o) as [st|ex].
  - intros ->. done.
  - by destruct ex.
Qed.

Lemma run_without_time_limit_is_never_interrupted_witness :
  let s := fresh [planned_frame "audit token transfer" 5 PlanStore.PLANNED;
                  planned_frame "check oracle" 3 PlanStore.PLANNED] no_steering in
  let o := default (finalize s [] false)
             (run 5 (steered_run "audit the whole codebase") 5 s) in
  final_status o ≠ Ok "interrupted"%string
  ∧ (terminal_status o = "interrupted"%string →
     final_status o = Raise KeyboardInterrupt).
Proof.
  apply (run_without_time_limit_is_never_interrupted (list PlanStore.frame)
           PlanStore.spec_store 5%nat (steered_run "audit the whole codebase") 5
           (fresh [planned_frame "audit token transfer" 5 PlanStore.PLANNED;
                   planned_frame "check oracle" 3 PlanStore.PLANNED] no_steering)).
  - reflexivity.
  - intros [|k]; discriminate.
  - vm_compute. reflexivity.
Defined.

(** X17. A run keeps the steering cursor valid: if the cursor file held no
    negative number (and no NaN) when [run] started, it holds none when [run]
    ends, whatever the operator wrote to the log meanwhile. *)
Theorem run_keeps_the_cursor_valid :
  ∀ (S : Type) (St : PlanStore.Store S) fuel e plan_n (s : state S) (o : outcome),
    cursor_ok (disk_of s) →
    run fuel e plan_n s = Some o →
    cursor_ok (disk_of (final_state o)).
Proof.
  intros S St fuel e plan_n s o Hok Hr.
  destruct (run_ok_run fuel e plan_n s o Hr) as (Hk & _). by apply Hk.
Qed.

Lemma run_keeps_the_cursor_valid_witness :
  let s := fresh [planned_frame "audit token transfer" 5 PlanStore.PLANNED;
                  planned_frame "check oracle" 3 PlanStore.PLANNED] no_steering in
  let o := default (finalize s [] false)
             (run 5 (steered_run "audit the whole codebase") 5 s) in
  cursor_ok (disk_of (final_state o)).
Proof.
  apply (run_keeps_the_cursor_valid (list PlanStore.frame)
           PlanStore.spec_store 5%nat (steered_run "audit the whole codebase") 5
           (fresh [planned_frame "audit token transfer" 5 PlanStore.PLANNED;
                   planned_frame "check oracle" 3 PlanStore.PLANNED] no_steering)).
  - reflexivity.
  - vm_compute. reflexivity.
Defined.

(** X18. A worker call that fails with an exception other than a keyboard
    interrupt is made a second time, once: the worker is called exactly twice
    on the goal, and the outcome of the frame is the outcome of the second
    call (recorded if it returns, propagated if it raises again). *)
Theorem failed_worker_call_is_retried_once :
  ∀ (S : Type) (St : PlanStore.Store S) e start_overall inv (s : state S) loc ex,
    time_limit e = None →
    ending (worker e (worker_calls s)) = Raises ex →
    ex ≠ KeyboardInterrupt →
    ex ≠ TimeLimitReached →
    let first := investigate e start_overall (goal inv) s in
    let second := investigate e start_overall (goal inv) first.2 in
    worker_calls second.2 = Datatypes.S (Datatypes.S (worker_calls s))
    ∧ investigated second.2 = investigated s ++ [goal inv; goal inv]
    ∧ attempt e start_overall inv s loc
      = match ending (worker e (Datatypes.S (worker_calls s))) with
        | Returns r => finish inv r second.2 loc
        | Raises TimeLimitReached => (Ok Break, second.2, timed_out loc)
        | Raises ex2 => (Raise ex2, second.2, loc)
        end.
Proof.
  intros S St e start_overall inv s loc ex Hl He Hki Htl first second.
  pose proof (investigate_no_limit e start_overall (goal inv) s Hl) as H1.
  pose proof (investigate_calls e start_overall (goal inv) s) as Hc1.
  pose proof (investigate_investigated e start_overall (goal inv) s) as Hi1.
  pose proof (investigate_no_limit e start_overall (goal inv) first.2 Hl) as H2.
  pose proof (investigate_calls e start_overall (goal inv) first.2) as Hc2.
  pose proof (investigate_investigated e start_overall (goal inv) first.2) as Hi2.
  fold first in H1, Hc1, Hi1. fold second in H2, Hc2, Hi2.
  rewrite He in H1. rewrite Hc1 in H2, Hc2. rewrite Hi1, <- app_assoc in Hi2.
  split; [done|]. split; [done|].
  unfold attempt. fold first. destruct first as [r1 s1]. cbn [fst snd] in *.
  subst r1. fold second. destruct second as [r2 s2]. cbn [fst snd] in *. subst r2.
  destruct ex; try done; by destruct (ending (worker e (Datatypes.S (worker_calls s)))).
Qed.

Lemma failed_worker_call_is_retried_once_witness :
  let e := plain None (λ _, 0%float)
             (λ k, match k with
                   | O => {| steps := [Progress "analyzing"]; ending := Raises RuntimeError |}
                   | _ => quiet
                   end) in
  let inv := frame_item (planned_frame "audit token transfer" 5 PlanStore.PLANNED) in
  let s := fresh [planned_frame "audit token transfer" 5 PlanStore.PLANNED] no_steering in
  let loc := {| results := []; time_up := false; executed_frames := ∅ |} in
  let first := investigate e 0 (goal inv) s in
  let second := investigate e 0 (goal inv) first.2 in
  worker_calls second.2 = Datatypes.S (Datatypes.S (worker_calls s))
  ∧ investigated second.2 = investigated s ++ [goal inv; goal inv]
  ∧ attempt e 0 inv s loc
    = match ending (worker e (Datatypes.S (worker_calls s))) with
      | Returns r => finish inv r second.2 loc
      | Raises TimeLimitReached => (Ok Break, second.2, timed_out loc)
      | Raises ex2 => (Raise ex2, second.2, loc)
      end.
Proof.
  apply (failed_worker_call_is_retried_once (list PlanStore.frame) PlanStore.spec_store
           (plain None (λ _, 0%float)
              (λ k, match k with
                    | O => {| steps := [Progress "analyzing"]; ending := Raises RuntimeError |}
                    | _ => quiet
                    end))
           0%float
           (frame_item (planned_frame "audit token transfer" 5 PlanStore.PLANNED))
           (fresh [planned_frame "audit token transfer" 5 PlanStore.PLANNED] no_steering)
           {| results := []; time_up := false; executed_frames := ∅ |}
           RuntimeError).
  - reflexivity.
  - reflexivity.
  - discriminate.
  - discriminate.
Defined.

(** X19. A keyboard interrupt raised by the worker during the first frame
    of a batch is not retried and not swallowed: [run] raises it after that
    single call, the results collected so far are left as they were, and the
    command reports the session as "interrupted". *)
Theorem keyboard_interrupt_is_not_retried :
  ∀ (S : Type) (St : PlanStore.Store S) fuel e plan_n start_overall (s : state S)
    res inv rest,
    time_limit e = None →
    (plan_batch e (Z.max 1 plan_n) s).1 = Ok (inv :: rest) →
    ending (worker e (worker_calls s)) = Raises KeyboardInterrupt →
    ∃ o, rounds (Datatypes.S fuel) e plan_n start_overall s res = Some o
         ∧ final_status o = Raise KeyboardInterrupt
         ∧ final_results o = res
         ∧ worker_calls (final_state o) = Datatypes.S (worker_calls s)
         ∧ terminal_status o = "interrupted"%string.
Proof.
  intros S St fuel e plan_n start_overall s res inv rest Hl Hp He.
  cbn [rounds]. rewrite Hl.
  pose proof (worker_calls_plan_batch e (Z.max 1 plan_n) s) as Hw.
  destruct (plan_batch e (Z.max 1 plan_n) s) as [r s2]. cbn [fst snd] in *. subst r.
  cbn [run_batch].
  destruct (frame_step_keyboard_interrupt e start_overall inv s2
              {| results := res; time_up := false; executed_frames := ∅ |})
    as (s3 & -> & Hc); [done|by rewrite Hw|done|].
  eexists. split; [reflexivity|]. cbn. rewrite Hc, Hw. done.
Qed.

Lemma keyboard_interrupt_is_not_retried_witness :
  let e := plain None (λ _, 0%float)
             (λ _, {| steps := [Progress "analyzing"];
                      ending := Raises KeyboardInterrupt |}) in
  let s := fresh [planned_frame "audit token transfer" 5 PlanStore.PLANNED] no_steering in
  ∃ o, rounds 1 e 5 0 s [] = Some o
       ∧ final_status o = Raise KeyboardInterrupt
       ∧ final_results o = []
       ∧ worker_calls (final_state o) = Datatypes.S (worker_calls s)
       ∧ terminal_status o = "interrupted"%string.
Proof.
  apply (keyboard_interrupt_is_not_retried (list PlanStore.frame) PlanStore.spec_store
           0%nat
           (plain None (λ _, 0%float)
              (λ _, {| steps := [Progress "analyzing"];
                       ending := Raises KeyboardInterrupt |}))
           5 0%float
           (fresh [planned_frame "audit token transfer" 5 PlanStore.PLANNED] no_steering)
           []
           (frame_item (planned_frame "audit token transfer" 5 PlanStore.PLANNED))
           []).
  - reflexivity.
  - vm_compute. reflexivity.
  - reflexivity.
Defined.

(** ** The helpers of the dashboard *)

Module DashboardFacts.
Import Steering Dashboard StringFacts.

Lemma length_append (a b : string) :
  String.length (a +:+ b) = (String.length a + String.length b)%nat.
Proof.
  induction a as [|c a IH]; [done|].
  change (String c a +:+ b)%string with (String c (a +:+ b)). simpl. by rewrite IH.
Qed.

Lemma length_substring_0 k (s : string) :
  String.length (substring 0 k s) = Nat.min k (String.length s).
Proof.
  revert k. induction s as [|c s IH]; intros [|k]; simpl; try done.
  by rewrite IH.
Qed.

Lemma prefix_refl (r : string) : String.prefix r r = true.
Proof. induction r as [|c r IH]; [done|]. simpl. by destruct (ascii_dec c c). Qed.

Lemma contains_refl (r : string) : contains r r = true.
Proof. rewrite contains_unfold. by rewrite prefix_refl. Qed.

Lemma count_status_spec h st st' :
  count_status h st = Ok st' →
  total st' = total st
  ∧ confirmed st' = confirmed st + (if has_status "confirmed" h then 1 else 0)
  ∧ rejected st' = rejected st + (if has_status "rejected" h then 1 else 0)
  ∧ uncertain st <= uncertain st'
  ∧ confirmed st' + rejected st' + uncertain st'
    = confirmed st + rejected st + uncertain st + 1.
Proof.
  unfold count_status, has_status, mbind, result_bind.
  destruct (json_get_or h "status" (JStr "proposed")) as [v|ex]; [|done].
  cbn [Py.bind]. intros [= <-].
  destruct v as [| | |t| |]; cbn [json_is]; try (cbn; repeat split; lia).
  destruct (bool_decide (t = "confirmed"%string)) eqn:H1,
           (bool_decide (t = "rejected"%string)) eqn:H2;
    try (cbn; repeat split; lia).
  apply bool_decide_eq_true in H1, H2. by subst.
Qed.

Lemma count_statuses_bounds items st :
  let st' := count_statuses items st in
  total st' = total st
  ∧ confirmed st <= confirmed st'
  ∧ rejected st <= rejected st'
  ∧ uncertain st <= uncertain st'
  ∧ confirmed st' + rejected st' + uncertain st'
    <= confirmed st + rejected st + uncertain st + Z.of_nat (length items).
Proof.
  revert st. induction items as [|[k h] rest IH]; intros st; cbn [count_statuses].
  - cbn. lia.
  - destruct (count_status h st) as [st1|ex] eqn:Hc.
    + destruct (count_status_spec h st st1 Hc) as (Ht & Hcf & Hrj & Hun & Hsum).
      specialize (IH st1). cbv zeta in IH. cbv zeta.
      destruct IH as (IHt & IHc & IHr & IHu & IHs).
      assert (confirmed st <= confirmed st1)
        by (destruct (has_status "confirmed" h); lia).
      assert (rejected st <= rejected st1)
        by (destruct (has_status "rejected" h); lia).
      cbn [length]. lia.
    + cbn [length]. cbv zeta. lia.
Qed.

Lemma count_statuses_dicts items st :
  (∀ k h, (k, h) ∈ items → ∃ d, h = JObj d) →
  let st' := count_statuses items st in
  confirmed st'
  = confirmed st
    + Z.of_nat (length (filter (λ kv, has_status "confirmed" kv.2 = true) items))
  ∧ rejected st'
    = rejected st
      + Z.of_nat (length (filter (λ kv, has_status "rejected" kv.2 = true) items))
  ∧ confirmed st' + rejected st' + uncertain st'
    = confirmed st + rejected st + uncertain st + Z.of_nat (length items).
Proof.
  revert st. induction items as [|[k h] rest IH]; intros st Hd; cbn [count_statuses].
  - cbn. lia.
  - destruct (Hd k h) as [d ->]; [apply elem_of_cons; by left|].
    destruct (count_status (JObj d) st) as [st1|ex] eqn:Hc; [|done].
    destruct (count_status_spec _ st st1 Hc) as (Ht & Hcf & Hrj & _ & Hsum).
    specialize (IH st1). cbv zeta in IH. cbv zeta.
    destruct IH as (IHc & IHr & IHs).
    { intros k' h' Hin. apply (Hd k' h'). apply elem_of_cons. by right. }
    rewrite IHc, IHr, Hcf, Hrj. cbn [length].
    rewrite !filter_cons. cbn [snd].
    destruct (has_status "confirmed" (JObj d)) eqn:H1,
             (has_status "rejected" (JObj d)) eqn:H2;
      repeat (destruct (decide _) as [?|?]; try done); cbn [length]; lia.
Qed.

Lemma add_missing_spec results goal :
  (∃ more, add_missing results goal = results ++ more
           ∧ ∀ g, g ∈ more → g = goal)
  ∧ ∃ r, r ∈ add_missing results goal ∧ contains r goal = true.
Proof.
  unfold add_missing. destruct (existsb _ results) eqn:He.
  - split; [exists []; split; [by rewrite app_nil_r|by intros g ?%elem_of_nil]|].
    apply existsb_exists in He as (r & Hin & Hr). exists r.
    split; [by apply list_elem_of_In|done].
  - split; [exists [goal]; split; [done|by intros g ->%list_elem_of_singleton]|].
    exists goal. split; [|apply contains_refl].
    apply elem_of_app. right. by apply list_elem_of_singleton.
Qed.

Lemma fold_add_missing completed results :
  (∃ more, fold_left add_missing completed results = results ++ more
           ∧ ∀ g, g ∈ more → g ∈ completed)
  ∧ ∀ g, g ∈ completed →
         ∃ r, r ∈ fold_left add_missing completed results ∧ contains r g = true.
Proof.
  revert results. induction completed as [|goal rest IH]; intros results;
    cbn [fold_left].
  - split; [exists []; split; [by rewrite app_nil_r|by intros g ?%elem_of_nil]|].
    by intros g ?%elem_of_nil.
  - destruct (add_missing_spec results goal) as ((m1 & Hm1 & Hg1) & r1 & Hr1 & Hc1).
    destruct (IH (add_missing results goal)) as ((m2 & Hm2 & Hg2) & Hall).
    split.
    + exists (m1 ++ m2). split; [by rewrite Hm2, Hm1, app_assoc|].
      intros g [Hg|Hg]%elem_of_app; apply elem_of_cons.
      * left. by apply Hg1.
      * right. by apply Hg2.
    + intros g [->|Hg]%elem_of_cons; [|by apply Hall].
      exists r1. split; [|done]. rewrite Hm2. apply elem_of_app. by left.
Qed.

End DashboardFacts.

Import Steering Dashboard StringFacts DashboardFacts.

(** X20. [_shorten] with a bound of at least 3 never returns more than [n]
    characters: a string of at most [n] characters comes back unchanged
    ([None] as the empty string), a longer one is cut to its first [n - 3]
    characters followed by ["..."], which makes exactly [n]. *)
Theorem shorten_result_fits_the_bound :
  ∀ (s : option string) (n : Z),
    3 <= n →
    Z.of_nat (String.length (_shorten s n)) <= n
    ∧ (∀ t, s = Some t → Z.of_nat (String.length t) <= n → _shorten s n = t)
    ∧ (∀ t, s = Some t → n < Z.of_nat (String.length t) →
            _shorten s n = (substring 0 (Z.to_nat (n - 3)) t +:+ "...")%string
            ∧ Z.of_nat (String.length (_shorten s n)) = n).
Proof.
  intros s n Hn.
  assert (∀ t, n < Z.of_nat (String.length t) →
               _shorten (Some t) n = (substring 0 (Z.to_nat (n - 3)) t +:+ "...")%string
               ∧ Z.of_nat (String.length (_shorten (Some t) n)) = n) as Hlong.
  { intros t Hlt. unfold _shorten, str_slice_to.
    destruct (Z.gtb_spec (Z.of_nat (String.length t)) n) as [_|?]; [|lia].
    destruct (Z.geb_spec (n - 3) 0) as [_|?]; [|lia].
    split; [done|]. rewrite length_append, length_substring_0. cbn [String.length]. lia. }
  assert (∀ t, Z.of_nat (String.length t) <= n → _shorten (Some t) n = t) as Hshort.
  { intros t Hle. unfold _shorten.
    destruct (Z.gtb_spec (Z.of_nat (String.length t)) n) as [?|_]; [lia|done]. }
  split; [|split].
  - destruct s as [t|]; [|cbn; lia].
    destruct (Z.le_gt_cases (Z.of_nat (String.length t)) n) as [Hle|Hgt].
    + rewrite Hshort by done. done.
    + destruct (Hlong t Hgt) as [_ ->]. lia.
  - intros t -> Hle. by apply Hshort.
  - intros t -> Hlt. by apply Hlong.
Qed.

Lemma shorten_result_fits_the_bound_witness :
  Z.of_nat (String.length (_shorten (Some "check the login function"%string) 10)) <= 10
  ∧ (∀ t, Some "check the login function"%string = Some t →
          Z.of_nat (String.length t) <= 10 →
          _shorten (Some "check the login function"%string) 10 = t)
  ∧ (∀ t, Some "check the login function"%string = Some t →
          10 < Z.of_nat (String.length t) →
          _shorten (Some "check the login function"%string) 10
          = (substring 0 (Z.to_nat (10 - 3)) t +:+ "...")%string
          ∧ Z.of_nat (String.length (_shorten (Some "check the login function"%string) 10))
            = 10).
Proof.
  apply (shorten_result_fits_the_bound (Some "check the login function"%string) 10).
  lia.
Defined.

(** X21. [_hypothesis_stats] never fails, and on every input the three
    status counts are not negative and add up to at most [total]: a missing
    or undecodable file, or a file of another shape, gives counts of zero,
    and an entry that is not a dict stops the count where it stands. *)
Theorem hypothesis_stats_counts_never_exceed_total :
  ∀ (hyp_file : option (option json)),
    let st := _hypothesis_stats hyp_file in
    0 <= confirmed st ∧ 0 <= rejected st ∧ 0 <= uncertain st
    ∧ confirmed st + rejected st + uncertain st <= total st.
Proof.
  intros [[data|]|]; cbv zeta; unfold _hypothesis_stats; try (cbn; lia).
  destruct (json_get_or data "hypotheses" (JObj [])) as [hyps|ex]; [|cbn; lia].
  destruct hyps as [|b|f|t|l|items]; cbn [json_len];
    try (cbn [total confirmed rejected uncertain]; lia).
  pose proof (count_statuses_bounds items
                  {| total := Z.of_nat (length items); confirmed := 0;
                     rejected := 0; uncertain := 0 |}) as H.
    cbv zeta in H. cbn [total confirmed rejected uncertain] in H. lia.
Qed.

(** X22. When [hypotheses.json] holds a dict under ["hypotheses"] whose
    values are all dicts, [total] is the number of hypotheses, [confirmed] and
    [rejected] count the entries with that status, and every other entry
    (any other status, or none) is counted as uncertain: the three counts add
    up to [total]. *)
Theorem hypothesis_stats_counts_add_up :
  ∀ (data : json) (hyps : list (string * json)),
    json_get_or data "hypotheses" (JObj []) = Ok (JObj hyps) →
    (∀ k h, (k, h) ∈ hyps → ∃ d, h = JObj d) →
    let st := _hypothesis_stats (Some (Some data)) in
    total st = Z.of_nat (length hyps)
    ∧ confirmed st
      = Z.of_nat (length (filter (λ kv, has_status "confirmed" kv.2 = true) hyps))
    ∧ rejected st
      = Z.of_nat (length (filter (λ kv, has_status "rejected" kv.2 = true) hyps))
    ∧ uncertain st = total st - confirmed st - rejected st.
Proof.
  intros data hyps Hget Hd. cbv zeta. unfold _hypothesis_stats. rewrite Hget.
  cbn [json_len].
  pose proof (count_statuses_bounds hyps
                {| total := Z.of_nat (length hyps); confirmed := 0;
                   rejected := 0; uncertain := 0 |}) as (Ht & _).
  pose proof (count_statuses_dicts hyps
                {| total := Z.of_nat (length hyps); confirmed := 0;
                   rejected := 0; uncertain := 0 |} Hd) as (Hc & Hr & Hs).
  cbn [total confirmed rejected uncertain] in *. lia.
Qed.

Lemma hypothesis_stats_counts_add_up_witness :
  let hyps := [ ("h1"%string, JObj [ ("status"%string, JStr "confirmed") ]);
                ("h2"%string, JObj [ ("severity"%string, JStr "high") ]);
                ("h3"%string, JObj [ ("status"%string, JStr "rejected") ]);
                ("h4"%string, JObj [ ("status"%string, JNull) ]) ] in
  let st := _hypothesis_stats (Some (Some (JObj [ ("hypotheses"%string, JObj hyps) ]))) in
  total st = Z.of_nat (length hyps)
  ∧ confirmed st
    = Z.of_nat (length (filter (λ kv, has_status "confirmed" kv.2 = true) hyps))
  ∧ rejected st
    = Z.of_nat (length (filter (λ kv, has_status "rejected" kv.2 = true) hyps))
  ∧ uncertain st = total st - confirmed st - rejected st.
Proof.
  apply (hypothesis_stats_counts_add_up
           (JObj [ ("hypotheses"%string,
                    JObj [ ("h1"%string, JObj [ ("status"%string, JStr "confirmed") ]);
                           ("h2"%string, JObj [ ("severity"%string, JStr "high") ]);
                           ("h3"%string, JObj [ ("status"%string, JStr "rejected") ]);
                           ("h4"%string, JObj [ ("status"%string, JNull) ]) ]) ])
           [ ("h1"%string, JObj [ ("status"%string, JStr "confirmed") ]);
             ("h2"%string, JObj [ ("severity"%string, JStr "high") ]);
             ("h3"%string, JObj [ ("status"%string, JStr "rejected") ]);
             ("h4"%string, JObj [ ("status"%string, JNull) ]) ]).
  - reflexivity.
  - intros k h Hin. repeat (apply elem_of_cons in Hin as [Hin|Hin]; [simplify_eq; eauto|]).
    by apply elem_of_nil in Hin.
Defined.

(** X23. In the summary [_get_investigation_results_summary] hands to the
    strategist, the lines of the session come first, and every completed goal
    occurs in some line: a goal is appended as a line of its own unless an
    earlier line already contains it, and nothing else is appended. *)
Theorem results_summary_mentions_every_completed_goal :
  ∀ (session_tracker : option (list session_investigation))
    (completed_investigations : list string) (goal : string),
    goal ∈ completed_investigations →
    (∃ r, r ∈ _get_investigation_results_summary session_tracker completed_investigations
          ∧ contains r goal = true)
    ∧ ∃ more,
        _get_investigation_results_summary session_tracker completed_investigations
        = (result_str <$> default [] session_tracker) ++ more
        ∧ ∀ g, g ∈ more → g ∈ completed_investigations.
Proof.
  intros [investigations|] completed goal Hin; cbn [_get_investigation_results_summary default].
  - destruct (fold_add_missing completed (result_str <$> investigations))
      as (Hmore & Hall).
    split; [by apply Hall|exact Hmore].
  - split; [exists goal; split; [done|apply contains_refl]|].
    exists completed. done.
Qed.

Lemma results_summary_mentions_every_completed_goal_witness :
  let tracker := Some [ {| si_goal := "audit token transfer"; si_iterations := 3;
                           si_total_hyp := 1 |} ] in
  let completed := ["audit token transfer"; "check oracle"; "oracle"]%string in
  (∃ r, r ∈ _get_investigation_results_summary tracker completed
        ∧ contains r "oracle" = true)
  ∧ ∃ more,
      _get_investigation_results_summary tracker completed
      = (result_str <$> default [] tracker) ++ more
      ∧ ∀ g, g ∈ more → g ∈ completed.
Proof.
  apply (results_summary_mentions_every_completed_goal
           (Some [ {| si_goal := "audit token transfer"; si_iterations := 3;
                      si_total_hyp := 1 |} ])
           ["audit token transfer"; "check oracle"; "oracle"]%string
           "oracle"%string).
  apply elem_of_cons. right. apply elem_of_cons. right. apply elem_of_cons. by left.
Defined.

(** ** Token tracker: the per-model sums and the totals *)

Module TrackerSumFacts.
Import TokenTracker TokenTrackerFacts TrackerHistoryFacts.

Lemma sum_over_models_insert_new f (m : gmap string aggregate) k a :
  m !! k = None → sum_over_models f (<[k := a]> m) = sum_over_models f m + f a.
Proof.
  intros Hk. unfold sum_over_models.
  rewrite map_fold_insert_L; [done| |done].
  intros. lia.
Qed.

Lemma sum_over_models_insert f (m : gmap string aggregate) k a :
  sum_over_models f (<[k := a]> m)
  = sum_over_models f m + f a - match m !! k with Some a0 => f a0 | None => 0 end.
Proof.
  destruct (m !! k) as [a0|] eqn:Hk.
  - rewrite <- (insert_delete_eq m k a).
    rewrite <- (insert_delete_id m k a0 Hk) at 2.
    rewrite !sum_over_models_insert_new by apply lookup_delete_eq. lia.
  - rewrite sum_over_models_insert_new by done. lia.
Qed.

Definition sums_agree (f : aggregate → Z) (g : TokenUsage → Z) (t : tracker) : Prop :=
  sum_over_models f (usage_by_model t) = sum_int g (usage_history t).

Lemma sums_agree_record f g u t :
  f empty_aggregate = 0 →
  (∀ a, f (add_usage u a) = f a + g u) →
  sums_agree f g t → sums_agree f g (record_usage u t).
Proof.
  intros H0 Hadd Hs. unfold sums_agree, record_usage in *.
  cbn [usage_by_model usage_history].
  rewrite sum_over_models_insert, sum_int_snoc, Hadd, Hs.
  destruct (usage_by_model t !! _); cbn [default id]; [lia|]. rewrite H0. lia.
Qed.

Lemma reachable_sums_agree f g :
  f empty_aggregate = 0 →
  (∀ u a, total_tokens u = TokenTracker.input_tokens u + TokenTracker.output_tokens u →
          f (add_usage u a) = f a + g u) →
  ∀ t, reachable t → sums_agree f g t.
Proof.
  intros H0 Hadd.
  induction 1 as [|fuel path t fs t' fs' _ IH H
                  |fuel now provider model it ot profile ic oc tc t fs t' fs' _ IH H
                  |fuel t data t' _ IH H|fuel t r t' _ IH H|fuel key t r t' _ IH H
                  |fuel t fs t' fs' _ IH H].
  - unfold sums_agree, sum_over_models. cbn. by rewrite map_fold_empty.
  - unfold set_output_file, _save_to_file in H. cbn [_output_file] in H.
    destruct (get_summary fuel _) as [[data t1]|] eqn:Hs; [|done].
    apply get_summary_Some in Hs as [_ ->]. cbn in H. by simplify_eq.
  - apply track_usage_Some in H as (_ & _ & _ & ->).
    apply (sums_agree_record f g _ (set_lock true t) H0); [|exact IH].
    intros a. by apply Hadd.
  - by apply get_summary_Some in H as [_ ->].
  - unfold get_last_usage in H.
    destruct (acquire fuel t) as [t1|] eqn:Ha; [|done].
    apply acquire_Some in Ha as [_ ->]. cbn in H. by simplify_eq.
  - unfold get_cumulative_tokens in H.
    destruct (acquire fuel t) as [t1|] eqn:Ha; [|done].
    apply acquire_Some in Ha as [_ ->]. cbn in H. by simplify_eq.
  - apply reset_Some in H as (_ & _ & _ & ->).
    unfold sums_agree, sum_over_models. cbn. by rewrite map_fold_empty.
Qed.

End TrackerSumFacts.

Import TokenTracker TokenTrackerFacts TrackerHistoryFacts TrackerSumFacts.

(** X24. In every summary [get_summary] returns on a tracker obtained
    through the methods of the class, the per-model entries add up to the
    totals: the call counts to the total call count, and the input, output
    and total token counts to the total counts. *)
Theorem summary_totals_are_the_sums_over_the_models :
  ∀ (t : tracker) fuel,
    reachable t →
    ∃ data,
      get_summary (S fuel) t = Some (data, t)
      ∧ sum_history data = usage_history t
      ∧ sum_over_models agg_call_count (sum_by_model data)
        = agg_call_count (sum_total_usage data)
      ∧ sum_over_models agg_input_tokens (sum_by_model data)
        = agg_input_tokens (sum_total_usage data)
      ∧ sum_over_models agg_output_tokens (sum_by_model data)
        = agg_output_tokens (sum_total_usage data)
      ∧ sum_over_models agg_total_tokens (sum_by_model data)
        = agg_total_tokens (sum_total_usage data).
Proof.
  intros t fuel Hr.
  destruct (reachable_follows_history t Hr) as (Hl & _ & _).
  eexists. split.
  { unfold get_summary. rewrite acquire_free by done. cbn [mbind option_bind].
    rewrite release_acquired by done. reflexivity. }
  cbn [sum_history sum_by_model sum_total_usage set_lock usage_history usage_by_model
       agg_call_count agg_input_tokens agg_output_tokens agg_total_tokens].
  split; [done|]. split; [|split; [|split]].
  - pose proof (reachable_sums_agree agg_call_count (λ _, 1) eq_refl) as H.
    rewrite (H ltac:(done) t Hr). unfold sum_int.
    induction (usage_history t) as [|u h IH] using rev_ind; [done|].
    rewrite fold_left_app, length_app. cbn. rewrite IH. lia.
  - apply (reachable_sums_agree agg_input_tokens TokenTracker.input_tokens eq_refl);
      [done|exact Hr].
  - apply (reachable_sums_agree agg_output_tokens TokenTracker.output_tokens eq_refl);
      [done|exact Hr].
  - apply (reachable_sums_agree agg_total_tokens total_tokens eq_refl); [|exact Hr].
    intros u a Hu. cbn. lia.
Qed.

Lemma summary_totals_are_the_sums_over_the_models_witness :
  let t := record_usage
             {| timestamp := "2025-01-01T00:00:00"; provider := "OpenAI";
                model := "gpt-5"; TokenTracker.input_tokens := 10;
                TokenTracker.output_tokens := 5; total_tokens := 15;
                profile := None; TokenTracker.input_cost := 0%float;
                TokenTracker.output_cost := 0%float; total_cost := 0%float |} init in
  ∃ data,
    get_summary 1 t = Some (data, t)
    ∧ sum_history data = usage_history t
    ∧ sum_over_models agg_call_count (sum_by_model data)
      = agg_call_count (sum_total_usage data)
    ∧ sum_over_models agg_input_tokens (sum_by_model data)
      = agg_input_tokens (sum_total_usage data)
    ∧ sum_over_models agg_output_tokens (sum_by_model data)
      = agg_output_tokens (sum_total_usage data)
    ∧ sum_over_models agg_total_tokens (sum_by_model data)
      = agg_total_tokens (sum_total_usage data).
Proof.
  apply (summary_totals_are_the_sums_over_the_models
           (record_usage
              {| timestamp := "2025-01-01T00:00:00"; provider := "OpenAI";
                 model := "gpt-5"; TokenTracker.input_tokens := 10;
                 TokenTracker.output_tokens := 5; total_tokens := 15;
                 profile := None; TokenTracker.input_cost := 0%float;
                 TokenTracker.output_cost := 0%float; total_cost := 0%float |} init)
           0%nat).
  apply (reach_track_usage 1 "2025-01-01T00:00:00" "OpenAI" "gpt-5" 10 5 None
           0%float 0%float 0%float init ∅ _ ∅ reach_init).
  reflexivity.
Defined.

(** ** Steering inside the run: what a directive does once, and what it
    does again *)

Module SteeringRunFacts.
Import Steering PlanStore Agent Notions FloatFacts SteeringFacts SteeringMoreFacts BatchFacts.

(** The two cases in which [_consume_steer] leaves the cursor alone although
    the timestamp is new. *)
Lemma consume_fails d e :
  cursor_writable d = false ∨ PrimFloat.eqb (ts e) (ts e) = false →
  _consume_steer d (entry_ts e) = d.
Proof.
  intros Hcase. unfold _consume_steer.
  destruct (float_truthy (entry_ts e) && _) eqn:Hc; [|done].
  apply andb_true_iff in Hc as [Ht Hlt].
  destruct Hcase as [Hw|Hnan].
  - unfold _set_last_consumed_steer_ts. by rewrite Hw.
  - exfalso. unfold entry_ts in Ht, Hlt.
    destruct (float_truthy (ts e)); [|done].
    rewrite ltb_nan in Hlt; done.
Qed.

End SteeringRunFacts.

Import Steering PlanStore Agent Notions Examples SteeringRunFacts BatchFacts.

(** X25. A directive overrides one frame only: once it has replaced a frame
    (it becomes [_last_applied_steer]), the check before the next frame
    leaves that frame alone or replaces it by a directive with another text,
    also when the first directive could not be consumed. *)
Theorem steering_override_is_not_applied_twice :
  ∀ (S : Type) (St : PlanStore.Store S) inv inv2 (s : state S) ent,
    _find_latest_urgent_steer (disk_of s) = Some ent →
    truthy (text ent) = true →
    Some (text ent) ≠ _last_applied_steer s →
    goal inv ≠ text ent →
    let first := steer_override inv s in
    let second := steer_override inv2 first.2 in
    first.1 = override_frame (text ent)
    ∧ _last_applied_steer first.2 = Some (text ent)
    ∧ (second = (inv2, first.2)
       ∨ ∃ u, u ≠ text ent ∧ second.1 = override_frame u).
Proof.
  intros S St inv inv2 s ent Hf Ht Hlast Hgoal first second.
  assert (first = (override_frame (text ent),
                   consume ent (with_last_applied (Some (text ent)) s))) as Hfirst.
  { unfold first, steer_override. rewrite Hf, Ht.
    rewrite (bool_decide_eq_false_2 _ Hlast), (bool_decide_eq_false_2 _ Hgoal). done. }
  split; [by rewrite Hfirst|]. split; [by rewrite Hfirst|].
  unfold second, steer_override. rewrite Hfirst. cbn [snd].
  clear Hf.
  match goal with |- context [_find_latest_urgent_steer ?d] =>
    destruct (_find_latest_urgent_steer d) as [ent2|]; [|by left] end.
  match goal with |- context [if ?c then _ else _] =>
    destruct c eqn:Hc; [|by left] end.
  right. exists (text ent2). split; [|done].
  apply andb_true_iff in Hc as [[_ Hne]%andb_true_iff _].
  apply negb_true_iff, bool_decide_eq_false in Hne.
  intros Heq. apply Hne. cbn. by rewrite Heq.
Qed.

Lemma steering_override_is_not_applied_twice_witness :
  let inv := frame_item (planned_frame "audit token transfer" 5 PlanStore.PLANNED) in
  let inv2 := frame_item (planned_frame "check oracle" 3 PlanStore.PLANNED) in
  let s := fresh [] (one_directive "investigate the vault") in
  let ent := {| ts := 100%float; text := "investigate the vault" |} in
  let first := steer_override inv s in
  let second := steer_override inv2 first.2 in
  first.1 = override_frame (text ent)
  ∧ _last_applied_steer first.2 = Some (text ent)
  ∧ (second = (inv2, first.2)
     ∨ ∃ u, u ≠ text ent ∧ second.1 = override_frame u).
Proof.
  apply (steering_override_is_not_applied_twice (list PlanStore.frame) PlanStore.spec_store
           (frame_item (planned_frame "audit token transfer" 5 PlanStore.PLANNED))
           (frame_item (planned_frame "check oracle" 3 PlanStore.PLANNED))
           (fresh [] (one_directive "investigate the vault"))
           {| ts := 100%float; text := "investigate the vault" |}).
  - vm_compute. reflexivity.
  - reflexivity.
  - discriminate.
  - discriminate.
Defined.

(** X26. A directive that cannot be consumed (cursor file not writable, or
    a NaN timestamp) is planned again: [_plan_investigations] puts its frame
    at the head of the batch and leaves the steering files as they were, so
    the next planning round finds the same directive. *)
Theorem unconsumable_directive_heads_every_batch :
  ∀ (S : Type) (St : PlanStore.Store S) e n (s : state S) ent,
    1 <= n →
    _find_latest_urgent_steer (disk_of s) = Some ent →
    cursor_writable (disk_of s) = false ∨ PrimFloat.eqb (ts ent) (ts ent) = false →
    let out := _plan_investigations e n s in
    disk_of out.2 = disk_of s
    ∧ _find_latest_urgent_steer (disk_of out.2) = Some ent
    ∧ match out.1 with
      | Ok items => head items = Some (steering_frame (text ent))
      | Raise ex => ∃ need, strategist e (strategist_calls s) need = Raise ex
      end.
Proof.
  intros S St e n s ent Hn Hf Hcase out.
  destruct (plan_with_urgent e n s ent Hn Hf) as (r & s' & Hp & Hd & Hr).
  unfold out. rewrite Hp. cbn [fst snd].
  rewrite (consume_fails _ _ Hcase) in Hd.
  split; [done|]. split; [by rewrite Hd|].
  destruct r as [items|ex]; [|done]. by destruct Hr as [rest ->].
Qed.

Lemma unconsumable_directive_heads_every_batch_witness :
  let d := {| steering_jsonl := Some [directive 100 "investigate the vault"];
              steering_cursor := None; cursor_writable := false;
              float_of_str := λ _, Raise ValueError |} in
  let s := fresh [] d in
  let ent := {| ts := 100%float; text := "investigate the vault" |} in
  let out := _plan_investigations (plain None (λ _, 0%float) (λ _, quiet)) 5 s in
  disk_of out.2 = disk_of s
  ∧ _find_latest_urgent_steer (disk_of out.2) = Some ent
  ∧ match out.1 with
    | Ok items => head items = Some (steering_frame (text ent))
    | Raise ex =>
        ∃ need, strategist (plain None (λ _, 0%float) (λ _, quiet))
                  (strategist_calls s) need = Raise ex
    end.
Proof.
  apply (unconsumable_directive_heads_every_batch (list PlanStore.frame)
           PlanStore.spec_store (plain None (λ _, 0%float) (λ _, quiet)) 5
           (fresh [] {| steering_jsonl := Some [directive 100 "investigate the vault"];
                        steering_cursor := None; cursor_writable := false;
                        float_of_str := λ _, Raise ValueError |})
           {| ts := 100%float; text := "investigate the vault" |}).
  - lia.
  - vm_compute. reflexivity.
  - left. reflexivity.
Defined.
